(** * PassWeaver (pwv.py): rule expansion engine and resumable sessions

    A shallow embedding of the generator helpers, the rule parser, the
    combinatorial expander, the validity filter, the session walk, the
    session store, the rule file and the flows of the command line of
    [pwv.py], followed by the properties established about them.

    Conventions of the embedding.
    - A Python [str] is a [string]; characters are the 7-bit ASCII
      characters, on which [lower], [upper], [isupper] and [isalnum] act
      as Python does.  Bytes above 127 are carried along unchanged and
      are neither letters, digits nor white space.
    - A Python [int] is a [Z].
    - [int(s)] is [Py.int_of_str]; the interpreter's optional bound on
      the number of digits accepted by a conversion is not modelled.
    - A [Set[str]] is the list of its distinct elements in order of
      first insertion; the order in which the interpreter iterates over
      such a set is a separate ingredient, see [set_order]. *)

From Stdlib Require Import List String Ascii ZArith Lia Bool Arith.
From Stdlib Require Import Permutation DecimalString.
From Stdlib Require DecimalPos Sorted.
Import ListNotations.

#[local] Open Scope list_scope.
#[local] Open Scope string_scope.

(* ================================================================= *)
(** ** Python built-ins used by the program *)

Module Py.

(** *** Characters *)

Definition ord (c : ascii) : nat := nat_of_ascii c.

Definition char_isupper (c : ascii) : bool :=
  (65 <=? ord c)%nat && (ord c <=? 90)%nat.

Definition char_islower (c : ascii) : bool :=
  (97 <=? ord c)%nat && (ord c <=? 122)%nat.

Definition char_isdigit (c : ascii) : bool :=
  (48 <=? ord c)%nat && (ord c <=? 57)%nat.

Definition char_isalpha (c : ascii) : bool :=
  char_isupper c || char_islower c.

Definition char_isalnum (c : ascii) : bool :=
  char_isalpha c || char_isdigit c.

Definition char_upper (c : ascii) : ascii :=
  if char_islower c then ascii_of_nat (ord c - 32) else c.

Definition char_lower (c : ascii) : ascii :=
  if char_isupper c then ascii_of_nat (ord c + 32) else c.

(** White space as [str.strip] sees it on ASCII text. *)
Definition char_isspace (c : ascii) : bool :=
  ((9 <=? ord c)%nat && (ord c <=? 13)%nat)
  || ((28 <=? ord c)%nat && (ord c <=? 32)%nat).

(** White space as [int] skips it around a literal. *)
Definition char_isspace_int (c : ascii) : bool :=
  ((9 <=? ord c)%nat && (ord c <=? 13)%nat) || (ord c =? 32)%nat.

(** *** Strings as sequences of characters *)

Fixpoint chars (s : string) : list ascii :=
  match s with
  | EmptyString => []
  | String c s' => c :: chars s'
  end.

Fixpoint of_chars (l : list ascii) : string :=
  match l with
  | [] => EmptyString
  | c :: l' => String c (of_chars l')
  end.

Definition str1 (c : ascii) : string := String c EmptyString.

Fixpoint map_str (f : ascii -> ascii) (s : string) : string :=
  match s with
  | EmptyString => EmptyString
  | String c s' => String (f c) (map_str f s')
  end.

Definition upper : string -> string := map_str char_upper.
Definition lower : string -> string := map_str char_lower.

(** [s[n:]] for [n >= 0] *)
Fixpoint drop (n : nat) (s : string) : string :=
  match n, s with
  | O, _ => s
  | S n', String _ s' => drop n' s'
  | S _, EmptyString => EmptyString
  end.

(** Truth value of a string: non-empty. *)
Definition truthy (s : string) : bool :=
  match s with EmptyString => false | _ => true end.

Definition startswith (s p : string) : bool := String.prefix p s.

Definition endswith (s p : string) : bool :=
  (String.length p <=? String.length s)%nat
  && String.eqb (drop (String.length s - String.length p) s) p.

(** [sub in s] *)
Fixpoint contains (sub s : string) : bool :=
  String.prefix sub s ||
  match s with
  | EmptyString => false
  | String _ s' => contains sub s'
  end.

Fixpoint any_char (p : ascii -> bool) (s : string) : bool :=
  match s with
  | EmptyString => false
  | String c s' => p c || any_char p s'
  end.

(** [sep.join(l)] *)
Fixpoint join (sep : string) (l : list string) : string :=
  match l with
  | [] => EmptyString
  | [x] => x
  | x :: l' => x ++ sep ++ join sep l'
  end.

(** [s[-2:]] *)
Definition last_two (s : string) : string :=
  String.substring (String.length s - 2) 2 s.

(** *** [str.split(sep)] and [str.split(sep, maxsplit)], [sep] non-empty

    The scan goes left to right; [skip] counts the characters of a
    separator just recognised that are still to be dropped, [cur] is
    the piece being collected and [budget] the number of splits still
    allowed ([None]: unbounded). *)

Definition budget_left (budget : option nat) : bool :=
  match budget with Some O => false | _ => true end.

Definition budget_pred (budget : option nat) : option nat :=
  match budget with Some n => Some (Nat.pred n) | None => None end.

Fixpoint split_go (sep : string) (budget : option nat) (skip : nat)
         (cur : string) (s : string) : list string :=
  match s with
  | EmptyString => [cur]
  | String c s' =>
      match skip with
      | S k => split_go sep budget k cur s'
      | O =>
          if budget_left budget && String.prefix sep s
          then cur :: split_go sep (budget_pred budget)
                               (String.length sep - 1) EmptyString s'
          else split_go sep budget 0 (cur ++ str1 c) s'
      end
  end.

Definition split (sep : string) (s : string) : list string :=
  split_go sep None 0 EmptyString s.

Definition split_max (sep : string) (maxsplit : nat) (s : string)
  : list string :=
  split_go sep (Some maxsplit) 0 EmptyString s.

(** *** [str.strip()] *)

Fixpoint lstrip_by (p : ascii -> bool) (s : string) : string :=
  match s with
  | EmptyString => EmptyString
  | String c s' => if p c then lstrip_by p s' else s
  end.

Fixpoint rstrip_by (p : ascii -> bool) (s : string) : string :=
  match s with
  | EmptyString => EmptyString
  | String c s' =>
      match rstrip_by p s' with
      | EmptyString => if p c then EmptyString else str1 c
      | r => String c r
      end
  end.

Definition strip (s : string) : string :=
  rstrip_by char_isspace (lstrip_by char_isspace s).

(** *** [int(s)] and [str(n)]

    After white space is removed on both sides, a literal is an
    optional sign followed by decimal digits, where single underscores
    may separate digits.  [None] stands for [ValueError]. *)

Definition digit_val (c : ascii) : Z := Z.of_nat (ord c - 48).

(** [prev_digit] tells whether the character just read was a digit:
    an underscore is allowed only between two digits. *)
Fixpoint digits_go (acc : Z) (prev_digit : bool) (s : string)
  : option Z :=
  match s with
  | EmptyString => if prev_digit then Some acc else None
  | String c s' =>
      if char_isdigit c then digits_go (10 * acc + digit_val c) true s'
      else if (ord c =? 95)%nat && prev_digit then digits_go acc false s'
      else None
  end.

Definition int_of_str (s : string) : option Z :=
  let body := rstrip_by char_isspace_int (lstrip_by char_isspace_int s) in
  match body with
  | String "+" r => digits_go 0 false r
  | String "-" r => option_map Z.opp (digits_go 0 false r)
  | _ => digits_go 0 false body
  end.

Definition str_of_int (n : Z) : string :=
  NilZero.string_of_int (Z.to_int n).

(** *** Sequences *)

(** [l[c:]] for an integer [c] of either sign. *)
Definition slice_from {A} (c : Z) (l : list A) : list A :=
  if (c <? 0)%Z
  then skipn (Z.to_nat (Z.max 0 (Z.of_nat (List.length l) + c))) l
  else skipn (Z.to_nat c) l.

(** [l[i]]; [None] stands for [IndexError]. *)
Definition index {A} (l : list A) (i : Z) : option A :=
  if (i <? 0)%Z
  then if (Z.of_nat (List.length l) + i <? 0)%Z then None
       else nth_error l (Z.to_nat (Z.of_nat (List.length l) + i))
  else nth_error l (Z.to_nat i).

(** [l[i] = v] for an index known to be in range; out of range the
    list is returned as it is. *)
Fixpoint set_nth {A} (i : nat) (v : A) (l : list A) : list A :=
  match l, i with
  | [], _ => []
  | _ :: l', O => v :: l'
  | x :: l', S i' => x :: set_nth i' v l'
  end.

(** [itertools.product] over a list of pools: the leftmost pool varies
    slowest. *)
Fixpoint product {A} (pools : list (list A)) : list (list A) :=
  match pools with
  | [] => [[]]
  | pool :: rest =>
      flat_map (fun x => map (cons x) (product rest)) pool
  end.

End Py.

(* ================================================================= *)
(** ** Generator helpers *)

(** A [set] of strings: distinct elements, in order of first insertion. *)
Definition set_mem (x : string) (s : list string) : bool :=
  existsb (String.eqb x) s.

Definition set_add (x : string) (s : list string) : list string :=
  if set_mem x s then s else (s ++ [x])%list.

(** [dict.get] on a dictionary written as its list of items. *)
Fixpoint dict_get {V} (k : ascii) (d : list (ascii * V)) : option V :=
  match d with
  | [] => None
  | (k', v) :: d' => if Ascii.eqb k k' then Some v else dict_get k d'
  end.

Definition leet_mapping : list (ascii * list ascii) :=
  [ ("a", ["a"; "@"]);
    ("e", ["e"; "3"]);
    ("i", ["i"; "1"]);
    ("o", ["o"; "0"]);
    ("s", ["s"; "$"; "5"]);
    ("t", ["t"; "7"]) ]%char.

(** The options collected for one character of the word. *)
Definition leet_options (ch : ascii) : list ascii :=
  let options :=
    match dict_get (Py.char_lower ch) leet_mapping with
    | Some o => o
    | None => [ch]
    end in
  if Py.char_isupper ch then map Py.char_upper options else options.

Definition generate_leet_variants (word : string) : list string :=
  let char_options := map leet_options (Py.chars word) in
  map Py.of_chars (Py.product char_options).

(** One round of the loop over [positions] in [apply_case_pattern]. *)
Definition apply_position (result : list ascii) (pos : string)
  : list ascii :=
  if String.eqb pos "L" then
    match List.length result with
    | O => result
    | S n => Py.set_nth n (Py.char_upper (nth n result " "%char)) result
    end
  else
    match Py.int_of_str pos with
    | Some k =>
        let idx := (k - 1)%Z in
        if (0 <=? idx)%Z && (idx <? Z.of_nat (List.length result))%Z
        then Py.set_nth (Z.to_nat idx)
               (Py.char_upper (nth (Z.to_nat idx) result " "%char)) result
        else result
    | None => result
    end.

Definition apply_case_pattern (case_pattern replacement : string)
  : string :=
  if negb (Py.startswith case_pattern "u:") then replacement
  else
    let pattern := Py.drop 2 case_pattern in
    if String.eqb pattern "A" then Py.upper replacement
    else if String.eqb pattern "N" then Py.lower replacement
    else
      let result := Py.chars (Py.lower replacement) in
      let positions := Py.split "," pattern in
      Py.of_chars (fold_left apply_position positions result).

Definition date_components : Type :=
  (option string * option string * option string * option string)%type.

Definition parse_date (date_str : string) : date_components :=
  if negb (Py.truthy date_str) then (None, None, None, None)
  else
    match Py.split "/" date_str with
    | [day; month; full_year] =>
        let short_year := Py.last_two full_year in
        (Some day, Some month, Some full_year, Some short_year)
    | _ => (None, None, None, None)
    end.

Definition generate_numbers_from_date (date_str : string) : list string :=
  match Py.split "/" date_str with
  | [day; month; year] =>
      match Py.int_of_str day, Py.int_of_str month with
      | Some d, Some m =>
          let day_str := Py.str_of_int d in
          let month_str := Py.str_of_int m in
          let year_str := Py.strip year in
          let last_two_year := Py.last_two year_str in
          [ year_str;
            last_two_year;
            day_str ++ month_str;
            day_str ++ month_str ++ year_str;
            day_str ++ month_str ++ last_two_year;
            month_str ++ day_str;
            month_str ++ day_str ++ year_str;
            month_str ++ day_str ++ last_two_year;
            year_str ++ month_str ++ day_str;
            last_two_year ++ month_str ++ day_str;
            year_str ++ day_str ++ month_str;
            last_two_year ++ day_str ++ month_str ]
      | _, _ => []
      end
  | _ => []
  end.

(* ================================================================= *)
(** ** Rule parser *)

(** The dictionaries built by [parse_rule], by their ["type"] entry. *)
Inductive token_rule : Type :=
| tok_string (case_pattern : string) (index : Z)
| tok_string_leet (case_pattern : string) (index : Z)
| tok_character (case_pattern : string) (index : Z)
| tok_day
| tok_month
| tok_year
| tok_short_year
| tok_full_date
| tok_symbol
| tok_common_number
| tok_number
| tok_literal (value : string).

(** Longest run of digits in front of a string, and what follows it. *)
Fixpoint span_digits (s : string) : string * string :=
  match s with
  | EmptyString => (EmptyString, EmptyString)
  | String c s' =>
      if Py.char_isdigit c
      then let (ds, rest) := span_digits s' in (String c ds, rest)
      else (EmptyString, s)
  end.

(** [re.match] at the start of [token] of the keyword [kw], a possibly
    empty run of digits (group 1) and [:u:]; the result is group 1. *)
Definition re_match_indexed (kw token : string) : option string :=
  if Py.startswith token kw then
    let (ds, rest) := span_digits (Py.drop (String.length kw) token) in
    if Py.startswith rest ":u:" then Some ds else None
  else None.

(** [int(group) if group else 1], on a run of digits. *)
Definition group_index (group : string) : Z :=
  if Py.truthy group
  then match Py.int_of_str group with Some n => n | None => 1%Z end
  else 1%Z.

Definition parse_indexed (kw : string)
           (mk : string -> Z -> token_rule) (token : string) : token_rule :=
  match re_match_indexed kw token with
  | Some group =>
      mk ("u:" ++ nth 1 (Py.split ":u:" token) EmptyString) (group_index group)
  | None =>
      let parts := Py.split_max ":" 2 token in
      mk ("u:" ++ nth 2 parts EmptyString) 1%Z
  end.

Definition parse_token (token : string) : token_rule :=
  if Py.startswith token "string:" || Py.startswith token "string_leet:"
  then
    let token_parts := Py.split_max ":" 1 token in
    let token_type := nth 0 token_parts EmptyString in
    let case_pattern :=
      if (1 <? List.length token_parts)%nat
         && Py.startswith (nth 1 token_parts EmptyString) "u:"
      then nth 1 token_parts EmptyString
      else "u:N" in
    if String.eqb token_type "string_leet"
    then tok_string_leet case_pattern 1%Z
    else tok_string case_pattern 1%Z
  else if Py.startswith token "string" && Py.contains ":u:" token
  then parse_indexed "string" tok_string token
  else if Py.startswith token "character" && Py.contains ":u:" token
  then parse_indexed "character" tok_character token
  else if String.eqb token "day" then tok_day
  else if String.eqb token "month" then tok_month
  else if String.eqb token "year" then tok_year
  else if String.eqb token "short_year" then tok_short_year
  else if String.eqb token "full_date" then tok_full_date
  else if String.eqb token "symbol" then tok_symbol
  else if String.eqb token "common_number" then tok_common_number
  else if String.eqb token "number" then tok_number
  else if Py.startswith token "literal:"
  then tok_literal (nth 1 (Py.split_max ":" 1 token) EmptyString)
  else tok_literal token.

Definition parse_rule (rule_str : string) : list token_rule :=
  let tokens := Py.split " + " rule_str in
  map parse_token tokens.

(* ================================================================= *)
(** ** Combinatorial expander *)

Record date_info : Type := {
  components : date_components;
  date_numbers : list string
}.

(** A partial configuration: one slot per token of the rule, and the
    lower-cased input strings already bound in it. *)
Definition config : Type := (list (option string) * list string)%type.

Definition is_date_token (t : token_rule) : bool :=
  match t with
  | tok_day | tok_month | tok_year | tok_short_year | tok_full_date => true
  | _ => false
  end.

Definition is_literal (t : token_rule) : bool :=
  match t with tok_literal _ => true | _ => false end.

Definition base_tokens (rule : list token_rule) : list (option string) :=
  map (fun token_rule =>
         match token_rule with
         | tok_literal value => Some value
         | _ => None
         end) rule.

(** Truth value of an optional string: present and non-empty. *)
Definition opt_truthy (o : option string) : bool :=
  match o with Some s => Py.truthy s | None => false end.

Definition opt_str (o : option string) : string :=
  match o with Some s => s | None => EmptyString end.

Section TokenLoop.

Variables valid_strings numbers symbols common_numbers : list string.

(** The date the enclosing loop is at; [None] in the branch taken by
    rules without date tokens, whose chain of cases has none for
    them. *)
Variable date : option date_info.

Definition date_part (sel : date_components -> option string)
  : option string :=
  match date with Some di => sel (components di) | None => None end.

Definition day : option string :=
  date_part (fun '(d, _, _, _) => d).
Definition month : option string :=
  date_part (fun '(_, m, _, _) => m).
Definition year : option string :=
  date_part (fun '(_, _, y, _) => y).
Definition short_year : option string :=
  date_part (fun '(_, _, _, s) => s).
Definition full_date_numbers : list string :=
  match date with Some di => date_numbers di | None => [] end.

Definition available_strings (used_strings : list string)
  : list string :=
  match filter (fun s => negb (set_mem (Py.lower s) used_strings))
               valid_strings with
  | [] => firstn 1 valid_strings
  | unused => unused
  end.

(** [new_config = config.copy(); new_config[i] = v] *)
Definition bind (i : nat) (v : string) (slots : list (option string))
  : list (option string) :=
  Py.set_nth i (Some v) slots.

Definition bind_component (i : nat) (part : option string) (c : config)
  : list config :=
  if opt_truthy part then [(bind i (opt_str part) (fst c), snd c)]
  else [].

Definition bind_each (i : nat) (values : list string) (c : config)
  : list config :=
  map (fun v => (bind i v (fst c), snd c)) values.

(** What the body of the inner loop appends to [new_configs] for one
    configuration. *)
Definition successors (i : nat) (token_rule : token_rule) (c : config)
  : list config :=
  let (slots, used_strings) := c in
  match token_rule with
  | tok_string case_pattern _ =>
      map (fun s =>
             (bind i (apply_case_pattern case_pattern s) slots,
              set_add (Py.lower s) used_strings))
          (available_strings used_strings)
  | tok_string_leet case_pattern _ =>
      flat_map (fun s =>
             map (fun variant =>
                    (bind i variant slots,
                     set_add (Py.lower s) used_strings))
                 (generate_leet_variants
                    (apply_case_pattern case_pattern s)))
          (available_strings used_strings)
  | tok_character case_pattern _ =>
      flat_map (fun s =>
             match s with
             | EmptyString => []
             | String c0 _ =>
                 [(bind i (apply_case_pattern case_pattern (Py.str1 c0))
                        slots,
                   set_add (Py.lower s) used_strings)]
             end)
          (available_strings used_strings)
  | tok_day => bind_component i day c
  | tok_month => bind_component i month c
  | tok_year => bind_component i year c
  | tok_short_year => bind_component i short_year c
  | tok_full_date => bind_each i full_date_numbers c
  | tok_symbol => bind_each i symbols c
  | tok_common_number => bind_each i common_numbers c
  | tok_number => bind_each i numbers c
  | tok_literal _ => [c]
  end.

(** The value the loop variables [config, used_strings] hold once the
    inner loop is over: those of its last round. *)
Definition last_config (configs : list config) : option config :=
  match rev configs with
  | c :: _ => Some c
  | [] => None
  end.

(** One round of the loop over the tokens: the inner loop, then the
    fallback written after it. *)
Definition expand_token (i : nat) (token_rule : token_rule)
           (configs : list config) : list config :=
  let new_configs := flat_map (successors i token_rule) configs in
  match new_configs with
  | [] =>
      if is_literal token_rule then []
      else match last_config configs with
           | Some c => [c]
           | None => []
           end
  | _ => new_configs
  end.

(** [for i, token_rule in enumerate(rule)], from position [i] on. *)
Fixpoint expand_tokens (i : nat) (rule : list token_rule)
         (configs : list config) : list config :=
  match rule with
  | [] => configs
  | token_rule :: rest =>
      expand_tokens (S i) rest (expand_token i token_rule configs)
  end.

End TokenLoop.

(** The loop that renders the configurations into [all_passwords]. *)
Definition render (sep : string) (configs : list config)
           (all_passwords : list string) : list string :=
  fold_left
    (fun acc (c : config) =>
       let filled_tokens := map opt_str (fst c) in
       let password := Py.join sep filled_tokens in
       if Py.truthy password then set_add password acc else acc)
    configs all_passwords.

Definition or_empty (l : option (list string)) : list string :=
  match l with Some l' => l' | None => [] end.

Definition generate_passwords_from_rule
           (rule : list token_rule)
           (strings numbers : list string)
           (date_info_list : list date_info)
           (symbols common_numbers : option (list string))
           (has_spaces : bool) : list string :=
  let symbols := or_empty symbols in
  let common_numbers := or_empty common_numbers in
  let valid_strings := filter Py.truthy strings in
  let has_date_components := existsb is_date_token rule in
  let start := [(base_tokens rule, @nil string)] in
  if has_date_components then
    fold_left
      (fun all_passwords di =>
         let configs :=
           expand_tokens valid_strings numbers symbols common_numbers
                         (Some di) 0 rule start in
         render (if has_spaces then " " else EmptyString) configs all_passwords)
      date_info_list []
  else
    let configs :=
      expand_tokens valid_strings numbers symbols common_numbers
                    None 0 rule start in
    render EmptyString configs [].

(* ================================================================= *)
(** ** Validity filter *)

(** The order in which one interpreter process iterates over a set of
    strings.  It is fixed by the hashes of the elements, which the
    interpreter salts anew at each start; all that is known of it is
    that it enumerates the elements of the set. *)
Record set_order : Type := {
  iterate : list string -> list string;
  iterate_perm : forall s, Permutation (iterate s) s
}.

(** Truth value of an optional integer: present and non-zero. *)
Definition int_truthy (n : option Z) : bool :=
  match n with Some k => negb (k =? 0)%Z | None => false end.

Definition opt_int (n : option Z) : Z :=
  match n with Some k => k | None => 0%Z end.

Definition ok (min_len max_len : option Z) (must_upper must_symbol : bool)
           (p : string) : bool :=
  let len := Z.of_nat (String.length p) in
  if int_truthy min_len && (len <? opt_int min_len)%Z then false
  else if int_truthy max_len && (opt_int max_len <? len)%Z then false
  else if must_upper && negb (Py.any_char Py.char_isupper p) then false
  else if must_symbol
          && negb (Py.any_char (fun c => negb (Py.char_isalnum c)) p)
       then false
  else true.

Definition filter_valid_passwords (order : set_order)
           (passwords : list string) (min_len max_len : option Z)
           (must_upper must_symbol : bool) : list string :=
  filter (ok min_len max_len must_upper must_symbol)
         (iterate order passwords).

(* ================================================================= *)
(** ** Generation and session logic *)

Definition DEFAULT_SYMBOLS : list string :=
  ["@"; "#"; "$"; "%"; "!"; "&"; "*"; "-"; "_"].

Definition DEFAULT_COMMON_NUMBERS : list string :=
  [ "1"; "2"; "3"; "4"; "5"; "6"; "7"; "8"; "9"; "0";
    "123"; "1234"; "12345"; "123456";
    "321"; "4321"; "54321";
    "123321"; "12344321"; "1234554321";
    "2020"; "2021"; "2022"; "2023"; "2024"; "2025"; "2026" ].

(** A session record, with the entries [create_session] gives it; the
    two time stamps play no part in generation and are left out. *)
Record session : Type := {
  session_id : string;
  strings : list string;
  dates : list string;
  numbers : list string;
  min_length : option Z;
  max_length : option Z;
  must_include_uppercase : bool;
  must_include_symbol : bool;
  current_rule_index : Z;
  current_rule_password_count : Z;
  is_completed : bool;
  last_run_files : list string;
  total_generated : Z
}.

(** The dictionary of changes returned by a run: an entry is [Some]
    when the key is present. *)
Record updates : Type := {
  upd_current_rule_index : option Z;
  upd_current_rule_password_count : option Z;
  upd_is_completed : option bool;
  upd_total_generated : option Z;
  upd_last_run_files : option (list string)
}.

Definition or_old {A} (new : option A) (old : A) : A :=
  match new with Some v => v | None => old end.

(** What [update_session(session_id, **updates)] does to the record. *)
Definition update_session (s : session) (u : updates) : session :=
  {| session_id := session_id s;
     strings := strings s;
     dates := dates s;
     numbers := numbers s;
     min_length := min_length s;
     max_length := max_length s;
     must_include_uppercase := must_include_uppercase s;
     must_include_symbol := must_include_symbol s;
     current_rule_index :=
       or_old (upd_current_rule_index u) (current_rule_index s);
     current_rule_password_count :=
       or_old (upd_current_rule_password_count u)
              (current_rule_password_count s);
     is_completed := or_old (upd_is_completed u) (is_completed s);
     last_run_files := or_old (upd_last_run_files u) (last_run_files s);
     total_generated := or_old (upd_total_generated u) (total_generated s)
  |}.

(** The reset [cli_resume] applies to a completed session on request. *)
Definition reset_cursor : updates :=
  {| upd_current_rule_index := Some 0%Z;
     upd_current_rule_password_count := Some 0%Z;
     upd_is_completed := Some false;
     upd_total_generated := None;
     upd_last_run_files := None |}.

(** The file system, as far as a run touches it. *)
Class OutputFiles (W : Type) : Type := {
  listdir : string -> W -> list string;
  write_lines : string -> list string -> W -> W;
  replace : string -> string -> W -> W
}.

(** [os.path.join] of two components. *)
Definition path_join (a b : string) : string :=
  if Py.startswith b "/" then b
  else if negb (Py.truthy a) || Py.endswith a "/" then a ++ b
  else a ++ "/" ++ b.

(** [re.match] of a run of digits, [_passwords_<session_id>_run], a
    second run of digits (group 2) and [.txt] at the start of a file
    name; the result is group 2. *)
Definition match_run_file (sid fname : string) : option string :=
  let (d1, r1) := span_digits fname in
  let mid := "_passwords_" ++ sid ++ "_run" in
  if Py.truthy d1 && Py.startswith r1 mid then
    let (d2, r2) := span_digits (Py.drop (String.length mid) r1) in
    if Py.truthy d2 && Py.startswith r2 ".txt" then Some d2 else None
  else None.

Definition existing_runs (sid : string) (names : list string) : list Z :=
  flat_map (fun fname =>
              match match_run_file sid fname with
              | Some g =>
                  match Py.int_of_str g with
                  | Some n => [n]
                  | None => []
                  end
              | None => []
              end) names.

(** [max(existing_runs) + 1 if existing_runs else 1] *)
Definition next_run_index (runs : list Z) : Z :=
  match runs with
  | [] => 1%Z
  | r :: rest => (fold_left Z.max rest r + 1)%Z
  end.

(** Whether [os.path.splitext] finds an extension: in the last
    component of the path, a dot that comes after a character other
    than a dot. *)
Fixpoint dot_after_name (seen : bool) (s : string) : bool :=
  match s with
  | EmptyString => false
  | String c s' =>
      if Ascii.eqb c "." then seen || dot_after_name seen s'
      else dot_after_name true s'
  end.

Definition has_extension (p : string) : bool :=
  dot_after_name false (last (Py.split "/" p) EmptyString).

Definition final_name (custom_output_name : option string)
           (total_written : Z) (sid : string) (run : Z) : string :=
  let custom := match custom_output_name with
                | Some n => Py.strip n
                | None => EmptyString
                end in
  if Py.truthy custom then
    if has_extension custom then custom else custom ++ ".txt"
  else
    Py.str_of_int total_written ++ "_passwords_" ++ sid ++ "_run"
      ++ Py.str_of_int run ++ ".txt".

(** The variables the walk over the rules changes. *)
Record run_state : Type := {
  outfile : list string;
  preview_passwords : list string;
  total_written : Z;
  rule_index_updated : Z;
  new_current_rule_password_count : Z
}.

(** How the walk ends: the loop is left, [rules[rule_index_updated]]
    raises [IndexError], or the rounds allotted to the model of the
    loop are used up. *)
Inductive ending : Type :=
| Finished
| IndexError
| OutOfFuel.

Section Run.

Variable order : set_order.
Variable rules : list string.
Variable password_limit : Z.
Variable s : session.

Definition total_rules : Z := Z.of_nat (List.length rules).

Definition date_info_list : list date_info :=
  map (fun d => {| components := parse_date d;
                   date_numbers := generate_numbers_from_date d |})
      (dates s).

(** The candidates of one rule, in the order the run consumes them. *)
Definition rule_passwords (rule_str : string) : list string :=
  let rule := parse_rule rule_str in
  let has_spaces :=
    Py.contains " + " rule_str && Py.contains "literal: " rule_str in
  let all_passwords :=
    generate_passwords_from_rule rule (strings s) (numbers s)
      date_info_list (Some DEFAULT_SYMBOLS)
      (Some DEFAULT_COMMON_NUMBERS) has_spaces in
  filter_valid_passwords order all_passwords (min_length s)
    (max_length s) (must_include_uppercase s) (must_include_symbol s).

(** [for pwd in valid_passwords] *)
Fixpoint write_passwords (valid_passwords : list string)
         (st : run_state) : run_state :=
  match valid_passwords with
  | [] => st
  | pwd :: rest =>
      if (password_limit <=? total_written st)%Z then st
      else
        write_passwords rest
          {| outfile := (outfile st ++ [pwd])%list;
             preview_passwords :=
               if (List.length (preview_passwords st) <? 100)%nat
               then (preview_passwords st ++ [pwd])%list
               else preview_passwords st;
             total_written := (total_written st + 1)%Z;
             rule_index_updated := rule_index_updated st;
             new_current_rule_password_count :=
               (new_current_rule_password_count st + 1)%Z |}
  end.

Definition next_rule (st : run_state) : run_state :=
  {| outfile := outfile st;
     preview_passwords := preview_passwords st;
     total_written := total_written st;
     rule_index_updated := (rule_index_updated st + 1)%Z;
     new_current_rule_password_count := 0%Z |}.

(** [while total_written < password_limit and rule_index_updated <
    total_rules], at most [fuel] rounds of it. *)
Fixpoint walk_rules (fuel : nat) (st : run_state)
  : ending * run_state :=
  if (total_written st <? password_limit)%Z
     && (rule_index_updated st <? total_rules)%Z
  then
    match fuel with
    | O => (OutOfFuel, st)
    | S fuel' =>
        match Py.index rules (rule_index_updated st) with
        | None => (IndexError, st)
        | Some rule_str =>
            let valid_passwords := rule_passwords rule_str in
            let valid_passwords :=
              if (rule_index_updated st =? current_rule_index s)%Z
              then Py.slice_from (current_rule_password_count s)
                                 valid_passwords
              else valid_passwords in
            let st' := write_passwords valid_passwords st in
            if (Z.of_nat (List.length valid_passwords)
                <=? new_current_rule_password_count st')%Z
            then walk_rules fuel' (next_rule st')
            else (Finished, st')
        end
    end
  else (Finished, st).

Definition initial_state : run_state :=
  {| outfile := [];
     preview_passwords := [];
     total_written := 0%Z;
     rule_index_updated := current_rule_index s;
     new_current_rule_password_count := current_rule_password_count s |}.

(** Every round of the loop moves to the next rule or leaves it, so
    this many rounds are all it can make. *)
Definition rounds : nat :=
  Z.to_nat (total_rules - current_rule_index s).

(** The loop as a call runs it. *)
Definition walk : ending * run_state :=
  walk_rules rounds initial_state.

End Run.

(** The outcome of a call: the returned tuple, or the exception. *)
Inductive outcome : Type :=
| Returned (written : Z) (final_filename : string)
           (preview : list string) (u : updates)
| Raised (e : ending).

Section GenerateToFile.

Context {W : Type} `{OutputFiles W}.
Variable OUTPUT_DIR : string.
Variable order : set_order.

Definition generate_to_file (s : session) (rules : list string)
           (password_limit : Z) (custom_output_name : option string)
           (w : W) : outcome * W :=
  if (total_rules rules <=? current_rule_index s)%Z then
    (Returned 0%Z EmptyString []
       {| upd_current_rule_index := None;
          upd_current_rule_password_count := None;
          upd_is_completed := Some true;
          upd_total_generated := None;
          upd_last_run_files := None |}, w)
  else
    let run :=
      next_run_index
        (existing_runs (session_id s) (listdir OUTPUT_DIR w)) in
    let temp_path :=
      path_join OUTPUT_DIR
        ("temp_" ++ session_id s ++ "_run" ++ Py.str_of_int run
           ++ ".txt") in
    let (e, st) := walk order rules password_limit s in
    let w1 := write_lines temp_path (outfile st) w in
    match e with
    | Finished =>
        let final_filename :=
          final_name custom_output_name (total_written st)
                     (session_id s) run in
        let final_path := path_join OUTPUT_DIR final_filename in
        let w2 := replace temp_path final_path w1 in
        (Returned (total_written st) final_filename
           (preview_passwords st)
           {| upd_current_rule_index := Some (rule_index_updated st);
              upd_current_rule_password_count :=
                Some (new_current_rule_password_count st);
              upd_is_completed :=
                Some (total_rules rules <=? rule_index_updated st)%Z;
              upd_total_generated :=
                Some (total_generated s + total_written st)%Z;
              upd_last_run_files :=
                Some (last_run_files s ++ [final_filename])%list |},
         w2)
    | _ => (Raised e, w1)
    end.

(** The candidates a call writes to its output file. *)
Definition emitted (s : session) (rules : list string)
           (password_limit : Z) : list string :=
  if (total_rules rules <=? current_rule_index s)%Z then []
  else outfile (snd (walk order rules password_limit s)).

(** A run as the command line drives it: the call, then the update
    of the stored record with the changes it returns. *)
Definition run_session (rules : list string) (password_limit : Z)
           (custom_output_name : option string) (sw : session * W)
  : session * W :=
  let (s, w) := sw in
  match generate_to_file s rules password_limit custom_output_name w
  with
  | (Returned _ _ _ u, w') => (update_session s u, w')
  | (Raised _, w') => (s, w')
  end.

End GenerateToFile.

(** A directory tree as the list of its files, each with its lines;
    the files of a directory are those whose path is the directory
    joined with a name free of separators. *)
Definition files : Type := list (string * list string).

Definition remove_file (path : string) (fs : files) : files :=
  filter (fun f => negb (String.eqb (fst f) path)) fs.

Definition read_file (path : string) (fs : files) : option (list string) :=
  option_map snd (find (fun f => String.eqb (fst f) path) fs).

Definition files_listdir (dir : string) (fs : files) : list string :=
  flat_map (fun f =>
              let prefix := path_join dir EmptyString in
              let name := Py.drop (String.length prefix) (fst f) in
              if Py.startswith (fst f) prefix && Py.truthy name
                 && negb (Py.contains "/" name)
              then [name] else []) fs.

Definition files_replace (src dst : string) (fs : files) : files :=
  match read_file src fs with
  | Some lines =>
      if String.eqb src dst then fs
      else (dst, lines) :: remove_file dst (remove_file src fs)
  | None => fs
  end.

#[export] Instance files_output : OutputFiles files := {
  listdir := files_listdir;
  write_lines := fun path lines fs => (path, lines) :: remove_file path fs;
  replace := files_replace
}.

(* ================================================================= *)
(** ** Vocabulary of the properties *)

(** Number of options of a character in the substitution table: two for
    a, e, i, o and t, three for s, one for any other character, in
    either case. *)
Definition option_count (ch : ascii) : nat :=
  let l := Py.char_lower ch in
  if existsb (Ascii.eqb l) ["a"; "e"; "i"; "o"; "t"]%char then 2
  else if Ascii.eqb l "s" then 3
  else 1.

(** The same count with three options for t, as it is sometimes
    quoted. *)
Definition quoted_option_count (ch : ascii) : nat :=
  let l := Py.char_lower ch in
  if existsb (Ascii.eqb l) ["a"; "e"; "i"; "o"]%char then 2
  else if existsb (Ascii.eqb l) ["s"; "t"]%char then 3
  else 1.

Definition count_product (count : ascii -> nat) (word : string) : nat :=
  fold_right (fun ch n => count ch * n) 1 (Py.chars word).

(** A character [d] of a variant mirrors the case of the original [ch]:
    it is [ch] itself or not a letter, [upper] leaves it alone when
    [ch] is upper case, and [lower] leaves it alone when [ch] is lower
    case. *)
Definition mirrors_case (ch d : ascii) : Prop :=
  (d = ch \/ Py.char_isalpha d = false)
  /\ (Py.char_isupper ch = true -> Py.char_upper d = d)
  /\ (Py.char_islower ch = true -> Py.char_lower d = d).

Definition mirrors_caseb (ch d : ascii) : bool :=
  (Ascii.eqb d ch || negb (Py.char_isalpha d))
  && (negb (Py.char_isupper ch) || Ascii.eqb (Py.char_upper d) d)
  && (negb (Py.char_islower ch) || Ascii.eqb (Py.char_lower d) d).

(** [f] applied to each element together with its index, counted from
    [i]. *)
Fixpoint mapi_from {A B} (f : nat -> A -> B) (i : nat) (l : list A)
  : list B :=
  match l with
  | [] => []
  | x :: l' => f i x :: mapi_from f (S i) l'
  end.

(** Whether the entry [pos] of a position list names the character at
    index [j] (from 0) of a value of [n] characters: the marker names
    the last one, a number its 1-based position. *)
Definition names_position (n j : nat) (pos : string) : bool :=
  if String.eqb pos "L" then (S j =? n)%nat
  else match Py.int_of_str pos with
       | Some k => (k =? Z.of_nat (S j))%Z
       | None => false
       end.

(** Lower-case the value, then upper-case the characters named by some
    entry of the position list. *)
Definition case_by_positions (positions : list string) (value : string)
  : string :=
  let low := Py.chars (Py.lower value) in
  Py.of_chars
    (mapi_from (fun j c =>
                  if existsb (names_position (List.length low) j) positions
                  then Py.char_upper c else c) 0 low).

(** The case language: without the prefix [u:] the value is returned as
    it is; after the prefix, [A] and [N] are the two whole-value forms
    and anything else is read as a list of positions. *)
Definition case_language (case_pattern value : string) : string :=
  if negb (Py.startswith case_pattern "u:") then value
  else
    let pattern := Py.drop 2 case_pattern in
    if String.eqb pattern "A" then Py.upper value
    else if String.eqb pattern "N" then Py.lower value
    else case_by_positions (Py.split "," pattern) value.

Fixpoint count_char (c : ascii) (s : string) : nat :=
  match s with
  | EmptyString => 0
  | String c' s' => (if Ascii.eqb c' c then 1 else 0) + count_char c s'
  end.

(** The twelve numbers of a date in the documented order, from the
    rendered day [D] and month [M] and the year [Y]. *)
Definition documented_order (D M Y : string) : list string :=
  let y := Py.last_two Y in
  [ Y; y;
    D ++ M; D ++ M ++ Y; D ++ M ++ y;
    M ++ D; M ++ D ++ Y; M ++ D ++ y;
    Y ++ M ++ D; y ++ M ++ D;
    Y ++ D ++ M; y ++ D ++ M ].

(** Two iteration orders of sets: that of insertion, and its reverse. *)
Definition insertion_order : set_order :=
  {| iterate := fun s => s;
     iterate_perm := fun s => Permutation_refl s |}.

Definition reverse_order : set_order :=
  {| iterate := @rev string;
     iterate_perm := fun s => Permutation_sym (Permutation_rev s) |}.

(** The record [create_session] stores for a profile. *)
Definition create_session (sid : string) (strs dts nums : list string)
           (min_len max_len : option Z) (upper symbol : bool) : session :=
  {| session_id := sid;
     strings := strs;
     dates := dts;
     numbers := nums;
     min_length := min_len;
     max_length := max_len;
     must_include_uppercase := upper;
     must_include_symbol := symbol;
     current_rule_index := 0;
     current_rule_password_count := 0;
     is_completed := false;
     last_run_files := [];
     total_generated := 0 |}.

Definition cursor_in_bounds (rules : list string) (s : session) : Prop :=
  (0 <= current_rule_index s <= total_rules rules)%Z
  /\ (0 <= current_rule_password_count s)%Z.

Definition session_invariant (rules : list string) (s : session) : Prop :=
  (0 <= current_rule_index s <= total_rules rules)%Z
  /\ (0 <= current_rule_password_count s)%Z
  /\ (is_completed s = true <-> current_rule_index s = total_rules rules).

(** The changes returned for a session that is already completed. *)
Definition completed_only : updates :=
  {| upd_current_rule_index := None;
     upd_current_rule_password_count := None;
     upd_is_completed := Some true;
     upd_total_generated := None;
     upd_last_run_files := None |}.

Definition ten_digits : list string :=
  ["0"; "1"; "2"; "3"; "4"; "5"; "6"; "7"; "8"; "9"].

(** A session over ten numbers with no bound on the length, and one
    over two numbers. *)
Definition digits_session : session :=
  create_session "s1" ["anna"] [] ten_digits (Some 0%Z) None false false.

Definition two_numbers_session : session :=
  create_session "s2" ["anna"] [] ["1"; "2"] (Some 1%Z) None false false.

(* ================================================================= *)
(** *** The candidates pending at a cursor *)

Section Pending.

Variable order : set_order.
Variable rules : list string.
Variable s : session.

(** What the loop binds [valid_passwords] to at rule index [i]. *)
Definition candidates_at (i : Z) (rule_str : string) : list string :=
  if (i =? current_rule_index s)%Z
  then Py.slice_from (current_rule_password_count s)
                     (rule_passwords order s rule_str)
  else rule_passwords order s rule_str.

(** The candidates of the rules from index [i] on. *)
Definition later (i : Z) : list string :=
  flat_map (rule_passwords order s) (skipn (Z.to_nat i) rules).

(** The candidates a run has before it when its loop is at rule index
    [i]. *)
Definition remaining (i : Z) : list string :=
  match skipn (Z.to_nat i) rules with
  | [] => []
  | rule_str :: rest =>
      (candidates_at i rule_str
       ++ flat_map (rule_passwords order s) rest)%list
  end.

(** The candidates a cursor still has to emit: the rest of the rule it
    is in, then the rules after it. *)
Definition pending_at (i c : Z) : list string :=
  match skipn (Z.to_nat i) rules with
  | [] => []
  | rule_str :: rest =>
      (Py.slice_from c (rule_passwords order s rule_str)
       ++ flat_map (rule_passwords order s) rest)%list
  end.

Definition pending : list string :=
  pending_at (current_rule_index s) (current_rule_password_count s).

End Pending.

(* ================================================================= *)
(** ** The session store

    The file [sessions.json] is represented by what decoding it gives:
    the entries of the list it holds are session records with their two
    time stamps, as the program writes them.  The readings of the clock
    and the identifier drawn for a new session are arguments. *)

Record stored_session : Type := {
  created_at : string;
  updated_at : string;
  stored : session
}.

Inductive sessions_file : Type :=
| NoFile
| Unreadable
| NotAList
| SessionList (sessions : list stored_session).

(** The dictionary [create_session] is given: an entry is [Some] when
    the key is present. *)
Record session_data : Type := {
  data_session_id : option string;
  data_strings : option (list string);
  data_dates : option (list string);
  data_numbers : option (list string);
  data_min_length : option (option Z);
  data_max_length : option (option Z);
  data_must_include_uppercase : option bool;
  data_must_include_symbol : option bool
}.

(** [data.get(key, default)] *)
Definition get_or {A} (entry : option A) (default : A) : A :=
  match entry with Some v => v | None => default end.

Module Sessions.

Definition load_sessions (f : sessions_file) : list stored_session :=
  match f with
  | SessionList sessions => sessions
  | NoFile | Unreadable | NotAList => []
  end.

Definition save_sessions (sessions : list stored_session) : sessions_file :=
  SessionList sessions.

Definition create_session (data : session_data)
           (fresh_id created updated : string) (f : sessions_file)
  : stored_session * sessions_file :=
  let sessions := load_sessions f in
  let session :=
    {| created_at := created;
       updated_at := updated;
       stored :=
         {| session_id := get_or (data_session_id data) fresh_id;
            strings := get_or (data_strings data) [];
            dates := get_or (data_dates data) [];
            numbers := get_or (data_numbers data) [];
            min_length := get_or (data_min_length data) (Some 8%Z);
            max_length := get_or (data_max_length data) None;
            must_include_uppercase :=
              get_or (data_must_include_uppercase data) false;
            must_include_symbol :=
              get_or (data_must_include_symbol data) false;
            current_rule_index := 0;
            current_rule_password_count := 0;
            is_completed := false;
            last_run_files := [];
            total_generated := 0 |} |} in
  (session, save_sessions (sessions ++ [session])%list).

(** The loop of [update_session] over the sessions: the first session
    with the identifier is changed, and the loop is left. *)
Fixpoint update_first (sid : string) (u : updates) (now : string)
         (sessions : list stored_session)
  : option (stored_session * list stored_session) :=
  match sessions with
  | [] => None
  | s :: rest =>
      if String.eqb (session_id (stored s)) sid then
        let found :=
          {| created_at := created_at s;
             updated_at := now;
             stored := update_session (stored s) u |} in
        Some (found, found :: rest)
      else
        match update_first sid u now rest with
        | Some (found, rest') => Some (found, s :: rest')
        | None => None
        end
  end.

(** [None] stands for [FileNotFoundError]; the file is then left as it
    is. *)
Definition update_session (sid : string) (u : updates) (now : string)
           (f : sessions_file) : option stored_session * sessions_file :=
  match update_first sid u now (load_sessions f) with
  | Some (found, sessions) => (Some found, save_sessions sessions)
  | None => (None, f)
  end.

(** [None] stands for [FileNotFoundError]. *)
Definition load_session_by_id (sid : string) (f : sessions_file)
  : option stored_session :=
  find (fun s => String.eqb (session_id (stored s)) sid) (load_sessions f).

End Sessions.

(** ** The rule file

    [rules.txt] is given by the lines read from it, each with the line
    end it has, and is [None] when the file does not exist; the result
    [None] stands for the exit of the program with status 1. *)
Definition read_rules (rules_txt : option (list string))
  : option (list string) :=
  match rules_txt with
  | None => None
  | Some lines =>
      Some (map Py.strip
              (filter (fun line => Py.truthy (Py.strip line)) lines))
  end.

(* ================================================================= *)
(** ** The command line

    The flows of the command line act on the lines typed at the
    terminal, on [sessions.json], on [rules.txt] and on the output
    directory; what they print is left out.  The clock and the
    generator of identifiers are given by their successive results. *)

(** [s.split()]: the pieces between runs of white space. *)
Fixpoint split_whitespace_go (cur : string) (s : string) : list string :=
  match s with
  | EmptyString => if Py.truthy cur then [cur] else []
  | String c s' =>
      if Py.char_isspace c
      then if Py.truthy cur
           then cur :: split_whitespace_go EmptyString s'
           else split_whitespace_go EmptyString s'
      else split_whitespace_go (cur ++ Py.str1 c) s'
  end.

Definition split_whitespace (s : string) : list string :=
  split_whitespace_go EmptyString s.

(** [sorted(sessions, key=updated_at, reverse=True)]: a stable sort,
    sessions updated at the same time keep their order. *)
Fixpoint insert_by_update (x : stored_session) (l : list stored_session)
  : list stored_session :=
  match l with
  | [] => [x]
  | y :: l' =>
      if String.ltb (updated_at x) (updated_at y)
      then y :: insert_by_update x l'
      else x :: l
  end.

Definition sorted_by_update (l : list stored_session)
  : list stored_session :=
  fold_right insert_by_update [] l.

Inductive exception : Type :=
| EOFError
| SystemExit (status : Z)
| FileNotFoundError
| WalkRaised (e : ending).

Record world (W : Type) : Type := {
  stdin : list string;
  sessions_json : sessions_file;
  rules_txt : option (list string);
  output_files : W;
  calls : nat
}.

Arguments stdin {W} _.
Arguments sessions_json {W} _.
Arguments rules_txt {W} _.
Arguments output_files {W} _.
Arguments calls {W} _.

(** A piece of program: it ends with a value or an exception, in a
    changed world. *)
Definition program (W A : Type) : Type :=
  world W -> (A + exception) * world W.

Definition ret {W A} (a : A) : program W A := fun w => (inl a, w).

Definition raise {W A} (e : exception) : program W A := fun w => (inr e, w).

Definition and_then {W A B} (m : program W A) (k : A -> program W B)
  : program W B :=
  fun w =>
    match m w with
    | (inl a, w') => k a w'
    | (inr e, w') => (inr e, w')
    end.

Notation "x <- m ;; k" := (and_then m (fun x => k))
  (at level 61, m at next level, right associativity).

(** What [prompt] returns for a line typed: the line without the white
    space around it, or the default when that is empty. *)
Definition prompt_answer (default : option string) (line : string)
  : string :=
  let val := Py.strip line in
  if Py.truthy val then val
  else match default with Some d => d | None => EmptyString end.

Definition yes_no_answer (default_no : bool) (line : string) : bool :=
  let val := Py.lower (Py.strip line) in
  if String.eqb val EmptyString then negb default_no
  else String.eqb val "y" || String.eqb val "yes".

(** The loop of [cli_new] that asks for the strings, on the lines still
    to be read. *)
Fixpoint ask_strings (lines : list string)
  : (list string + exception) * list string :=
  match lines with
  | [] => (inr EOFError, [])
  | line :: rest =>
      let strings_line := Py.strip line in
      match filter Py.truthy (split_whitespace strings_line) with
      | [] => ask_strings rest
      | strings => (inl strings, rest)
      end
  end.

(** The loop of [cli_new] that asks for the minimum length. *)
Fixpoint ask_min_length (lines : list string)
  : (Z + exception) * list string :=
  match lines with
  | [] => (inr EOFError, [])
  | line :: rest =>
      let ml := prompt_answer (Some "8") line in
      match Py.int_of_str ml with
      | Some min_length => (inl min_length, rest)
      | None => ask_min_length rest
      end
  end.

(** The loop of [cli_resume] that asks for the session: [None] when the
    choice is 0. *)
Fixpoint ask_session (sessions_sorted : list stored_session)
         (lines : list string)
  : (option stored_session + exception) * list string :=
  match lines with
  | [] => (inr EOFError, [])
  | line :: rest =>
      let choice := prompt_answer (Some EmptyString) line in
      if negb (Py.truthy choice) then ask_session sessions_sorted rest
      else
        match Py.int_of_str choice with
        | None => ask_session sessions_sorted rest
        | Some idx =>
            if (idx =? 0)%Z then (inl None, rest)
            else if (1 <=? idx)%Z
                    && (idx <=? Z.of_nat (List.length sessions_sorted))%Z
            then
              match Py.index sessions_sorted (idx - 1) with
              | Some session => (inl (Some session), rest)
              | None => ask_session sessions_sorted rest
              end
            else ask_session sessions_sorted rest
        end
  end.

(** [int(limit_str)], 1000000 when it raises. *)
Definition limit_of (limit_str : string) : Z :=
  match Py.int_of_str limit_str with
  | Some n => n
  | None => 1000000%Z
  end.

Section CommandLine.

Context {W : Type} `{OutputFiles W}.
Variable OUTPUT_DIR : string.
Variable order : set_order.

(** The result of the [n]-th call of [now_iso] or of [uuid.uuid4().hex],
    the calls of both being counted together. *)
Variable clock : nat -> string.
Variable uuid4_hex : nat -> string.

Definition input : program W string :=
  fun w =>
    match stdin w with
    | [] => (inr EOFError, w)
    | line :: rest =>
        (inl line,
         {| stdin := rest;
            sessions_json := sessions_json w;
            rules_txt := rules_txt w;
            output_files := output_files w;
            calls := calls w |})
    end.

(** A loop over the lines still to be read. *)
Definition on_stdin {A}
           (loop : list string -> (A + exception) * list string)
  : program W A :=
  fun w =>
    let (r, rest) := loop (stdin w) in
    (r,
     {| stdin := rest;
        sessions_json := sessions_json w;
        rules_txt := rules_txt w;
        output_files := output_files w;
        calls := calls w |}).

Definition tick : program W nat :=
  fun w =>
    (inl (calls w),
     {| stdin := stdin w;
        sessions_json := sessions_json w;
        rules_txt := rules_txt w;
        output_files := output_files w;
        calls := S (calls w) |}).

Definition now_iso : program W string :=
  n <- tick ;; ret (clock n).

Definition generate_session_id : program W string :=
  n <- tick ;; ret (String.substring 0 12 (uuid4_hex n)).

Definition prompt (default : option string) : program W string :=
  line <- input ;; ret (prompt_answer default line).

Definition yes_no_prompt (default_no : bool) : program W bool :=
  line <- input ;; ret (yes_no_answer default_no line).

Definition list_sessions_print : program W (list stored_session) :=
  fun w =>
    (inl (sorted_by_update (Sessions.load_sessions (sessions_json w))), w).

Definition read_rules_file : program W (list string) :=
  fun w =>
    match read_rules (rules_txt w) with
    | Some rules => (inl rules, w)
    | None => (inr (SystemExit 1), w)
    end.

Definition create_session_file (data : session_data)
  : program W stored_session :=
  fresh_id <- generate_session_id ;;
  created <- now_iso ;;
  updated <- now_iso ;;
  fun w =>
    let (session, f) :=
      Sessions.create_session data fresh_id created updated
                              (sessions_json w) in
    (inl session,
     {| stdin := stdin w;
        sessions_json := f;
        rules_txt := rules_txt w;
        output_files := output_files w;
        calls := calls w |}).

(** The clock is read only when the session is found. *)
Definition update_session_file (sid : string) (u : updates)
  : program W stored_session :=
  fun w =>
    match Sessions.update_session sid u (clock (calls w)) (sessions_json w)
    with
    | (Some found, f) =>
        (inl found,
         {| stdin := stdin w;
            sessions_json := f;
            rules_txt := rules_txt w;
            output_files := output_files w;
            calls := S (calls w) |})
    | (None, _) => (inr FileNotFoundError, w)
    end.

Definition generate_to_file_run (s : session) (rules : list string)
           (password_limit : Z) (custom_output_name : option string)
  : program W (Z * string * list string * updates) :=
  fun w =>
    let (r, files') :=
      generate_to_file OUTPUT_DIR order s rules password_limit
                       custom_output_name (output_files w) in
    let w' :=
      {| stdin := stdin w;
         sessions_json := sessions_json w;
         rules_txt := rules_txt w;
         output_files := files';
         calls := calls w |} in
    match r with
    | Returned written final_filename preview u =>
        (inl (written, final_filename, preview, u), w')
    | Raised e => (inr (WalkRaised e), w')
    end.

Definition cli_new : program W unit :=
  strings <- on_stdin ask_strings ;;
  dates_line <- input ;;
  let dates := filter Py.truthy (split_whitespace (Py.strip dates_line)) in
  numbers_line <- input ;;
  let numbers :=
    filter Py.truthy (split_whitespace (Py.strip numbers_line)) in
  min_length <- on_stdin ask_min_length ;;
  mx <- prompt (Some EmptyString) ;;
  let max_length :=
    if Py.truthy (Py.strip mx) then Py.int_of_str (Py.strip mx) else None in
  must_include_uppercase <- yes_no_prompt true ;;
  must_include_symbol <- yes_no_prompt true ;;
  limit_str <- prompt (Some "1000000") ;;
  let password_limit := limit_of limit_str in
  out_name <- prompt (Some EmptyString) ;;
  save_session_flag <- yes_no_prompt false ;;
  session <-
    (if save_session_flag then
       stored_new <-
         create_session_file
           {| data_session_id := None;
              data_strings := Some strings;
              data_dates := Some dates;
              data_numbers := Some numbers;
              data_min_length := Some (Some min_length);
              data_max_length := Some max_length;
              data_must_include_uppercase := Some must_include_uppercase;
              data_must_include_symbol := Some must_include_symbol |} ;;
       ret (stored stored_new)
     else
       fresh_id <- generate_session_id ;;
       created <- now_iso ;;
       updated <- now_iso ;;
       ret (create_session ("ephemeral_" ++ fresh_id) strings dates numbers
              (Some min_length) max_length must_include_uppercase
              must_include_symbol)) ;;
  rules <- read_rules_file ;;
  result <- generate_to_file_run session rules password_limit
                                 (Some out_name) ;;
  let '(_, final_name, preview, u) := result in
  if negb (Py.startswith (session_id session) "ephemeral_")
  then _ <- update_session_file (session_id session) u ;; ret tt
  else ret tt.

Definition cli_resume : program W unit :=
  sessions_sorted <- list_sessions_print ;;
  match sessions_sorted with
  | [] => ret tt
  | _ =>
      chosen <- on_stdin (ask_session sessions_sorted) ;;
      match chosen with
      | None => ret tt
      | Some session =>
          resumed <-
            (if is_completed (stored session) then
               cont <- yes_no_prompt true ;;
               if cont then
                 found <- update_session_file
                            (session_id (stored session)) reset_cursor ;;
                 ret (Some found)
               else ret None
             else ret (Some session)) ;;
          match resumed with
          | None => ret tt
          | Some session =>
              limit_str <- prompt (Some "1000000") ;;
              let password_limit := limit_of limit_str in
              out_name <- prompt (Some EmptyString) ;;
              rules <- read_rules_file ;;
              result <- generate_to_file_run (stored session) rules
                                             password_limit
                                             (Some out_name) ;;
              let '(_, final_name, preview, u) := result in
              _ <- update_session_file (session_id (stored session)) u ;;
              ret tt
          end
      end
  end.

Definition main : program W unit :=
  mode <- prompt (Some "1") ;;
  if String.eqb mode "1" then cli_new
  else if String.eqb mode "2" then cli_resume
  else ret tt.

End CommandLine.

(* ================================================================= *)
(** ** Vocabulary of the further properties *)

(** A token with the index of its string or character set back to 1. *)
Definition forget_index (t : token_rule) : token_rule :=
  match t with
  | tok_string case_pattern _ => tok_string case_pattern 1%Z
  | tok_string_leet case_pattern _ => tok_string_leet case_pattern 1%Z
  | tok_character case_pattern _ => tok_character case_pattern 1%Z
  | _ => t
  end.

(** What the constraints of a session ask of a candidate: a minimum and
    a maximum length when they are set and not 0, an upper-case letter
    and a character that is neither a letter nor a digit when they are
    required. *)
Definition meets_constraints (s : session) (p : string) : Prop :=
  (forall m, min_length s = Some m -> m <> 0%Z ->
             (m <= Z.of_nat (String.length p))%Z)
  /\ (forall m, max_length s = Some m -> m <> 0%Z ->
                (Z.of_nat (String.length p) <= m)%Z)
  /\ (must_include_uppercase s = true ->
      Py.any_char Py.char_isupper p = true)
  /\ (must_include_symbol s = true ->
      Py.any_char (fun c => negb (Py.char_isalnum c)) p = true).

(** A state of the walk in which the count and the preview agree
    with the lines written. *)
Definition counted (st : run_state) : Prop :=
  total_written st = Z.of_nat (List.length (outfile st))
  /\ preview_passwords st = firstn 100 (outfile st).

(** The path of the temporary file a run writes to. *)
Definition temp_path_of (OUTPUT_DIR : string) (s : session)
           (names : list string) : string :=
  path_join OUTPUT_DIR
    ("temp_" ++ session_id s ++ "_run"
       ++ Py.str_of_int (next_run_index (existing_runs (session_id s) names))
       ++ ".txt").

(** A string made of decimal digits only. *)
Fixpoint digits_only (s : string) : bool :=
  match s with
  | EmptyString => true
  | String c s' => Py.char_isdigit c && digits_only s'
  end.

(** The name of the output file is left to the program: no name is
    given, or one that is blank. *)
Definition auto_named (custom_output_name : option string) : Prop :=
  match custom_output_name with
  | Some n => Py.strip n = EmptyString
  | None => True
  end.

(** A session is listed before another when it was not updated
    earlier. *)
Definition not_updated_earlier (a b : stored_session) : Prop :=
  String.leb (updated_at b) (updated_at a) = true.

(** Two worlds with the same files: they differ at most in the lines
    still to be read and in the calls counted. *)
Definition same_files {W} (w w' : world W) : Prop :=
  sessions_json w' = sessions_json w
  /\ rules_txt w' = rules_txt w
  /\ output_files w' = output_files w.

(** A change of [sessions.json] that touches at most the sessions with
    one identifier: the stored sessions keep their number, their order
    and their identifiers, and every other identifier is looked up as
    before. *)
Definition touches_at_most (sid : string) (f f' : sessions_file) : Prop :=
  map (fun s => session_id (stored s)) (Sessions.load_sessions f')
  = map (fun s => session_id (stored s)) (Sessions.load_sessions f)
  /\ forall sid', sid' <> sid ->
                  Sessions.load_session_by_id sid' f'
                  = Sessions.load_session_by_id sid' f.

(** A world with one stored session, a rule file of one rule and an
    empty output directory, in which a user resumes the session for
    three candidates; and the same world without its rule file. *)
Definition stored_digits : stored_session :=
  {| created_at := "2025-01-01T00:00:00+00:00";
     updated_at := "2025-01-01T00:00:00+00:00";
     stored := digits_session |}.

Definition sample_world : world files :=
  {| stdin := ["1"; "3"; "out.txt"];
     sessions_json := SessionList [stored_digits];
     rules_txt := Some ["number"];
     output_files := [];
     calls := 0 |}.

Definition sample_world_without_rules : world files :=
  {| stdin := ["anna"; "1/2/2003"; "7"; "4"; "12"; "y"; "n"; "10"; "out";
               "y"];
     sessions_json := SessionList [stored_digits];
     rules_txt := None;
     output_files := [];
     calls := 0 |}.

Definition sample_clock (n : nat) : string := "2025-01-02T00:00:00+00:00".

Definition sample_uuid4_hex (n : nat) : string :=
  "0123456789abcdef0123456789abcdef".

(* ================================================================= *)
(** ** Properties of the generator helpers *)

Ltac each_ascii c :=
  destruct c as [[] [] [] [] [] [] [] []].

Lemma chars_of_chars l : Py.chars (Py.of_chars l) = l.
Proof. induction l; simpl; congruence. Qed.

Lemma length_chars s : List.length (Py.chars s) = String.length s.
Proof. induction s; simpl; congruence. Qed.

Lemma char_upper_idem c : Py.char_upper (Py.char_upper c) = Py.char_upper c.
Proof. each_ascii c; reflexivity. Qed.

(** *** Leet variants *)

Lemma mirrors_caseb_spec ch d :
  mirrors_caseb ch d = true -> mirrors_case ch d.
Proof.
  unfold mirrors_caseb, mirrors_case.
  rewrite !andb_true_iff, !orb_true_iff, !negb_true_iff.
  intros [[H1 H2] H3]. repeat split.
  - destruct H1 as [H1 | H1]; [left; now apply Ascii.eqb_eq | now right].
  - intros Hu. destruct H2 as [H2 | H2];
      [congruence | now apply Ascii.eqb_eq].
  - intros Hl. destruct H3 as [H3 | H3];
      [congruence | now apply Ascii.eqb_eq].
Qed.

Lemma leet_options_length ch :
  List.length (leet_options ch) = option_count ch.
Proof. each_ascii ch; reflexivity. Qed.

Lemma leet_options_mirror ch :
  forallb (mirrors_caseb ch) (leet_options ch) = true.
Proof. each_ascii ch; reflexivity. Qed.

Lemma product_length {A} (pools : list (list A)) :
  List.length (Py.product pools)
  = fold_right (fun pool n => List.length pool * n) 1 pools.
Proof.
  induction pools as [|pool rest IH]; simpl; [reflexivity|].
  rewrite <- IH. clear IH.
  induction pool as [|x pool IHp]; simpl; [reflexivity|].
  now rewrite length_app, length_map, IHp.
Qed.

Lemma product_pointwise {A} (pools : list (list A)) (t : list A) :
  In t (Py.product pools) -> Forall2 (fun pool x => In x pool) pools t.
Proof.
  revert t. induction pools as [|pool rest IH]; simpl; intros t Ht.
  - destruct Ht as [<- | []]. constructor.
  - apply in_flat_map in Ht. destruct Ht as (x & Hx & Ht).
    apply in_map_iff in Ht. destruct Ht as (t' & <- & Ht').
    constructor; auto.
Qed.

Lemma leet_tuple_mirrors (l : list ascii) (t : list ascii) :
  Forall2 (fun pool x => In x pool) (map leet_options l) t ->
  Forall2 mirrors_case l t.
Proof.
  revert t. induction l as [|ch l IH]; intros t Ht; inversion Ht; subst.
  - constructor.
  - constructor; [|now apply IH].
    apply mirrors_caseb_spec.
    pose proof (leet_options_mirror ch) as Hm.
    rewrite forallb_forall in Hm. now apply Hm.
Qed.

(** C8, amended.  For every word, the list returned by
    [generate_leet_variants] has as many entries as the product, over
    the characters of the word, of their numbers of options (two for a,
    e, i, o and t, three for s, one otherwise, whatever the case), and
    every variant has the length of the word and mirrors the case of
    the word at each position. *)
Theorem leet_variants_count_and_shape (word : string) :
  List.length (generate_leet_variants word)
  = count_product option_count word
  /\ Forall (fun variant =>
               String.length variant = String.length word
               /\ Forall2 mirrors_case (Py.chars word) (Py.chars variant))
            (generate_leet_variants word).
Proof.
  unfold generate_leet_variants, count_product. split.
  - rewrite length_map, product_length.
    induction (Py.chars word) as [|ch l IH]; simpl; [reflexivity|].
    now rewrite leet_options_length, IH.
  - apply Forall_forall. intros variant Hv.
    apply in_map_iff in Hv. destruct Hv as (t & <- & Ht).
    apply product_pointwise, leet_tuple_mirrors in Ht.
    split.
    + rewrite <- !length_chars, chars_of_chars.
      symmetry. eapply Forall2_length; eauto.
    + now rewrite chars_of_chars.
Qed.

(** C8 as stated fails: the word [t] has two variants, not the three
    that a count of three options for t gives. *)
Lemma leet_quoted_count_fails :
  List.length (generate_leet_variants "t")
  <> count_product quoted_option_count "t".
Proof. vm_compute. discriminate. Qed.

(** *** Case patterns *)

Lemma mapi_from_ext {A B} (f g : nat -> A -> B) k l :
  (forall j c, k <= j < k + List.length l -> f j c = g j c) ->
  mapi_from f k l = mapi_from g k l.
Proof.
  revert k. induction l as [|x l IH]; simpl; intros k Hfg; [reflexivity|].
  rewrite Hfg by lia. f_equal. apply IH. intros j c Hj. apply Hfg. lia.
Qed.

Lemma mapi_from_id {A} (f : nat -> A -> A) k l :
  (forall j c, k <= j < k + List.length l -> f j c = c) ->
  mapi_from f k l = l.
Proof.
  revert k. induction l as [|x l IH]; simpl; intros k Hf; [reflexivity|].
  rewrite Hf by lia. f_equal. apply IH. intros j c Hj. apply Hf. lia.
Qed.

Lemma mapi_from_length {A B} (f : nat -> A -> B) k l :
  List.length (mapi_from f k l) = List.length l.
Proof.
  revert k. induction l; simpl; intros; [reflexivity | now rewrite IHl].
Qed.

Lemma mapi_from_compose {A} (f g : nat -> A -> A) k l :
  mapi_from g k (mapi_from f k l) = mapi_from (fun j c => g j (f j c)) k l.
Proof.
  revert k. induction l; simpl; intros; [reflexivity | now rewrite IHl].
Qed.

Lemma set_nth_mapi {A} (f : A -> A) d i k (l : list A) :
  i < List.length l ->
  Py.set_nth i (f (nth i l d)) l
  = mapi_from (fun j c => if (j =? k + i)%nat then f c else c) k l.
Proof.
  revert i k. induction l as [|x l IH]; simpl; intros i k Hi; [lia|].
  destruct i as [|i]; simpl.
  - rewrite Nat.add_0_r, Nat.eqb_refl. f_equal. symmetry.
    apply mapi_from_id. intros j c Hj.
    destruct (Nat.eqb_spec j k); [lia | reflexivity].
  - destruct (Nat.eqb_spec k (k + S i)); [lia|]. f_equal.
    rewrite (IH i (S k)) by lia.
    apply mapi_from_ext. intros j c _. now rewrite Nat.add_succ_r.
Qed.

Lemma apply_position_mapi result pos :
  apply_position result pos
  = mapi_from (fun j c =>
                 if names_position (List.length result) j pos
                 then Py.char_upper c else c) 0 result.
Proof.
  unfold apply_position, names_position.
  destruct (String.eqb pos "L").
  - destruct (List.length result) as [|n] eqn:En.
    + destruct result; [reflexivity | discriminate].
    + rewrite (set_nth_mapi Py.char_upper " "%char n 0) by lia.
      apply mapi_from_ext. intros j c _. cbn [Nat.add Nat.eqb].
      reflexivity.
  - destruct (Py.int_of_str pos) as [k|].
    + destruct ((0 <=? k - 1)%Z
                && (k - 1 <? Z.of_nat (List.length result))%Z) eqn:Er.
      * apply andb_true_iff in Er. destruct Er as [E1 E2].
        apply Z.leb_le in E1. apply Z.ltb_lt in E2.
        rewrite (set_nth_mapi Py.char_upper " "%char _ 0) by lia.
        apply mapi_from_ext. intros j c _. rewrite Nat.add_0_l.
        destruct (Nat.eqb_spec j (Z.to_nat (k - 1))),
                 (Z.eqb_spec k (Z.of_nat (S j)));
          try lia; reflexivity.
      * symmetry. apply mapi_from_id. intros j c Hj.
        destruct (Z.eqb_spec k (Z.of_nat (S j))); [|reflexivity].
        apply andb_false_iff in Er. destruct Er as [Er | Er];
          [apply Z.leb_gt in Er | apply Z.ltb_ge in Er]; lia.
    + symmetry. apply mapi_from_id. reflexivity.
Qed.

Lemma fold_apply_position positions result :
  fold_left apply_position positions result
  = mapi_from (fun j c =>
                 if existsb (names_position (List.length result) j) positions
                 then Py.char_upper c else c) 0 result.
Proof.
  revert result. induction positions as [|pos ps IH]; intros result; simpl.
  - symmetry. now apply mapi_from_id.
  - rewrite IH, apply_position_mapi, mapi_from_length, mapi_from_compose.
    apply mapi_from_ext. intros j c _.
    destruct (names_position (List.length result) j pos); simpl.
    + destruct (existsb _ ps); [apply char_upper_idem | reflexivity].
    + reflexivity.
Qed.

(** C6, amended.  [apply_case_pattern] implements the case language:
    [u:A] upper-cases every character; [u:N] lower-cases the value; any
    other pattern that begins with [u:] is read as a position list, the
    value being lower-cased and then every listed in-range 1-based
    position upper-cased, the marker [L] standing for the last
    character and entries that are out of range or not numbers being
    ignored; a pattern that does not begin with [u:] returns the value
    unchanged.  The four sample applications give [ABC], [abc], [CaT]
    and [caT]. *)
Theorem apply_case_pattern_language :
  (forall case_pattern value,
      apply_case_pattern case_pattern value
      = case_language case_pattern value)
  /\ apply_case_pattern "u:A" "abc" = "ABC"
  /\ apply_case_pattern "u:N" "ABC" = "abc"
  /\ apply_case_pattern "u:1,3" "cat" = "CaT"
  /\ apply_case_pattern "u:L" "cat" = "caT".
Proof.
  split; [|repeat split; reflexivity].
  intros case_pattern value. unfold apply_case_pattern, case_language.
  destruct (negb (Py.startswith case_pattern "u:")); [reflexivity|].
  destruct (String.eqb (Py.drop 2 case_pattern) "A"); [reflexivity|].
  destruct (String.eqb (Py.drop 2 case_pattern) "N"); [reflexivity|].
  unfold case_by_positions. now rewrite fold_apply_position.
Qed.

(** C6 as stated fails: a pattern outside the language, here [A]
    without its prefix, does not lower-case the value. *)
Lemma apply_case_pattern_unrecognized :
  apply_case_pattern "A" "AbC" = "AbC"
  /\ apply_case_pattern "A" "AbC" <> Py.lower "AbC".
Proof. split; [reflexivity|]. vm_compute. discriminate. Qed.

Lemma of_chars_chars s : Py.of_chars (Py.chars s) = s.
Proof. induction s; simpl; congruence. Qed.

Lemma length_map_str f s : String.length (Py.map_str f s) = String.length s.
Proof. induction s; simpl; congruence. Qed.

(** A position list none of whose entries names a character leaves the
    value lower-cased. *)
Lemma case_by_positions_none positions value :
  (forall j, existsb (names_position (String.length value) j) positions
             = false) ->
  case_by_positions positions value = Py.lower value.
Proof.
  intros Hnone. unfold case_by_positions.
  rewrite length_chars. unfold Py.lower at 1. rewrite length_map_str.
  rewrite mapi_from_id; [apply of_chars_chars|].
  intros j c _. now rewrite Hnone.
Qed.

(** *** Numbers derived from a date *)

Lemma prefix_slash c s :
  String.prefix "/" (String c s) = Ascii.eqb c "/".
Proof.
  change (String.prefix "/" (String c s))
    with (if ascii_dec "/" c then String.prefix EmptyString s else false).
  destruct (ascii_dec "/" c) as [<- | Hne].
  - destruct s; reflexivity.
  - destruct (Ascii.eqb_spec c "/"); congruence.
Qed.

Lemma append_nil_r s : s ++ EmptyString = s.
Proof. induction s; simpl; congruence. Qed.

Lemma append_assoc (a b c : string) : (a ++ b) ++ c = a ++ b ++ c.
Proof. induction a; simpl; congruence. Qed.

Lemma split_go_piece a :
  count_char "/" a = 0 ->
  forall cur rest,
    Py.split_go "/" None 0 cur (a ++ String "/" rest)
    = (cur ++ a) :: Py.split_go "/" None 0 EmptyString rest.
Proof.
  induction a as [|c a IH]; intros Ha cur rest.
  - cbn [append Py.split_go Py.budget_left andb].
    rewrite prefix_slash. cbn. now rewrite append_nil_r.
  - cbn [count_char] in Ha.
    destruct (Ascii.eqb c "/") eqn:Ec; [discriminate|].
    cbn [append Py.split_go Py.budget_left andb].
    rewrite prefix_slash, Ec, IH by assumption.
    unfold Py.str1. now rewrite append_assoc.
Qed.

Lemma split_go_last a :
  count_char "/" a = 0 ->
  forall cur, Py.split_go "/" None 0 cur a = [cur ++ a].
Proof.
  induction a as [|c a IH]; intros Ha cur.
  - cbn. now rewrite append_nil_r.
  - cbn [count_char] in Ha.
    destruct (Ascii.eqb c "/") eqn:Ec; [discriminate|].
    cbn [Py.split_go Py.budget_left andb].
    rewrite prefix_slash, Ec, IH by assumption.
    unfold Py.str1. now rewrite append_assoc.
Qed.

(** Three parts free of separators are what [split] gives back. *)
Lemma split_three day month year :
  count_char "/" day = 0 -> count_char "/" month = 0 ->
  count_char "/" year = 0 ->
  Py.split "/" (day ++ "/" ++ month ++ "/" ++ year) = [day; month; year].
Proof.
  intros Hd Hm Hy. unfold Py.split.
  change (day ++ "/" ++ month ++ "/" ++ year)
    with (day ++ String "/" (month ++ String "/" year)).
  rewrite (split_go_piece day Hd), (split_go_piece month Hm),
    (split_go_last year Hy).
  reflexivity.
Qed.

Lemma split_go_length s :
  forall cur,
    List.length (Py.split_go "/" None 0 cur s) = S (count_char "/" s).
Proof.
  induction s as [|c s IH]; intros cur; [reflexivity|].
  cbn [Py.split_go Py.budget_left andb count_char].
  rewrite prefix_slash. destruct (Ascii.eqb c "/"); cbn; now rewrite IH.
Qed.

(** A string has one part more than it has separators. *)
Lemma split_slash_length s :
  List.length (Py.split "/" s) = S (count_char "/" s).
Proof. apply split_go_length. Qed.

(** C7, amended.  For every string made of three parts separated by
    two [/] whose first two parts are accepted by [int],
    [generate_numbers_from_date] returns exactly twelve strings in the
    documented order, built from the decimal renderings of the integer
    values of day and month and from the year with surrounding white
    space removed; when one of the two parts is not accepted by [int],
    and for every string that does not have exactly two [/], the result
    is the empty list. *)
Theorem numbers_from_date_documented_order :
  (forall day month year a b,
      count_char "/" day = 0 -> count_char "/" month = 0 ->
      count_char "/" year = 0 ->
      Py.int_of_str day = Some a -> Py.int_of_str month = Some b ->
      generate_numbers_from_date (day ++ "/" ++ month ++ "/" ++ year)
      = documented_order (Py.str_of_int a) (Py.str_of_int b) (Py.strip year)
      /\ List.length
           (generate_numbers_from_date (day ++ "/" ++ month ++ "/" ++ year))
         = 12)
  /\ (forall day month year,
         count_char "/" day = 0 -> count_char "/" month = 0 ->
         count_char "/" year = 0 ->
         Py.int_of_str day = None \/ Py.int_of_str month = None ->
         generate_numbers_from_date (day ++ "/" ++ month ++ "/" ++ year)
         = [])
  /\ (forall d, count_char "/" d <> 2 -> generate_numbers_from_date d = []).
Proof.
  split; [|split].
  - intros day month year a b Hd Hm Hy Ha Hb.
    unfold generate_numbers_from_date.
    rewrite (split_three _ _ _ Hd Hm Hy), Ha, Hb. split; reflexivity.
  - intros day month year Hd Hm Hy Hnone.
    unfold generate_numbers_from_date.
    rewrite (split_three _ _ _ Hd Hm Hy).
    destruct Hnone as [-> | Hn]; [reflexivity|].
    rewrite Hn. now destruct (Py.int_of_str day).
  - intros d Hc. unfold generate_numbers_from_date.
    pose proof (split_slash_length d) as Hl.
    destruct (Py.split "/" d) as [|p1 [|p2 [|p3 [|p4 l]]]]; try reflexivity.
    simpl in Hl. lia.
Qed.

Lemma numbers_from_date_witness :
  generate_numbers_from_date "05/7/2003"
  = ["2003"; "03"; "57"; "572003"; "5703"; "75"; "752003"; "7503";
     "200375"; "0375"; "200357"; "0357"]
  /\ generate_numbers_from_date "5-7-2003" = []
  /\ generate_numbers_from_date "x/7/2003" = [].
Proof.
  destruct numbers_from_date_documented_order as (Hdoc & Hbad & Hother).
  split; [|split].
  - exact (proj1 (Hdoc "05" "7" "2003" 5%Z 7%Z eq_refl eq_refl eq_refl
                       eq_refl eq_refl)).
  - apply Hother. vm_compute. discriminate.
  - apply (Hbad "x" "7" "2003"); try reflexivity. left. reflexivity.
Defined.

(** C7 as stated fails: [x/7/2003] splits into exactly three parts and
    yet yields no number at all. *)
Lemma numbers_from_date_three_parts_empty :
  List.length (Py.split "/" "x/7/2003") = 3
  /\ List.length (generate_numbers_from_date "x/7/2003") <> 12.
Proof. split; [reflexivity|]. vm_compute. discriminate. Qed.

(* ================================================================= *)
(** ** Properties of the parser and the expander *)

(** C5, amended.  For the rule text [string_leet:] (the token with its
    colon) and the profile strings [Eli], without dates or numbers,
    parsing the rule and expanding it yields exactly the candidates
    eli, 3li, el1 and 3l1: the token binds the input string, lower-cases
    it by default and expands it into all its leet variants. *)
Theorem string_leet_colon_expands_eli
        (symbols common_numbers : option (list string)) (has_spaces : bool) :
  parse_rule "string_leet:" = [tok_string_leet "u:N" 1%Z]
  /\ generate_passwords_from_rule (parse_rule "string_leet:") ["Eli"] [] []
       symbols common_numbers has_spaces
     = ["eli"; "el1"; "3li"; "3l1"]
  /\ Permutation
       (generate_passwords_from_rule (parse_rule "string_leet:") ["Eli"] []
          [] symbols common_numbers has_spaces)
       ["eli"; "3li"; "el1"; "3l1"].
Proof.
  assert (E : generate_passwords_from_rule (parse_rule "string_leet:")
                ["Eli"] [] [] symbols common_numbers has_spaces
              = ["eli"; "el1"; "3li"; "3l1"]) by reflexivity.
  split; [reflexivity|]. split; [exact E|]. rewrite E.
  apply perm_skip, perm_swap.
Qed.

(** C5 as stated fails: the bare token [string_leet] is no keyword of
    the parser; it is read as a literal and the rule yields that
    literal alone. *)
Lemma bare_string_leet_is_literal :
  parse_rule "string_leet" = [tok_literal "string_leet"]
  /\ generate_passwords_from_rule (parse_rule "string_leet") ["Eli"] [] []
       None None false = ["string_leet"]
  /\ ~ Permutation
         (generate_passwords_from_rule (parse_rule "string_leet") ["Eli"]
            [] [] None None false)
         ["eli"; "3li"; "el1"; "3l1"].
Proof.
  split; [reflexivity|]. split; [reflexivity|].
  intros HP. apply Permutation_length in HP. discriminate.
Qed.

(** C10.  For every rule with at least one date-dependent token, an
    empty date list makes [generate_passwords_from_rule] return the
    empty set, whatever the other inputs are. *)
Theorem date_rule_without_dates_is_empty
        (rule : list token_rule) (strings numbers : list string)
        (symbols common_numbers : option (list string))
        (has_spaces : bool) :
  existsb is_date_token rule = true ->
  generate_passwords_from_rule rule strings numbers [] symbols
    common_numbers has_spaces = [].
Proof.
  intros Hd. unfold generate_passwords_from_rule. now rewrite Hd.
Qed.

Lemma date_rule_without_dates_witness :
  existsb is_date_token (parse_rule "string:u:1 + year + symbol") = true
  /\ generate_passwords_from_rule (parse_rule "string:u:1 + year + symbol")
       ["anna"] ["7"] [] (Some DEFAULT_SYMBOLS)
       (Some DEFAULT_COMMON_NUMBERS) false = [].
Proof.
  split; [reflexivity|].
  apply date_rule_without_dates_is_empty. reflexivity.
Defined.

(** The list of configurations never runs empty, so the loop variables
    read by the fallback are always bound. *)
Lemma expand_token_nonempty vs ns sy cn date i t configs :
  configs <> [] -> expand_token vs ns sy cn date i t configs <> [].
Proof.
  intros Hne. unfold expand_token.
  destruct (flat_map (successors vs ns sy cn date i t) configs) eqn:Ef;
    [|discriminate].
  destruct t; simpl;
    try (unfold last_config;
         destruct (rev configs) eqn:Er;
         [apply (f_equal (@rev _)) in Er; rewrite rev_involutive in Er;
          simpl in Er; contradiction | discriminate]).
  destruct configs as [|c configs]; [contradiction|].
  simpl in Ef. destruct c. discriminate.
Qed.

(** C3.  What the code does where the claim fails: with the strings
    anna and bob and no numbers, the token [number] produces no
    successor for either configuration left by [string:], and the
    fallback keeps the last of them only; the candidate anna is lost. *)
Theorem fallback_keeps_only_last_configuration :
  expand_token ["anna"; "bob"] [] DEFAULT_SYMBOLS DEFAULT_COMMON_NUMBERS
    None 1 tok_number
    [([Some "anna"; None], ["anna"]); ([Some "bob"; None], ["bob"])]
  = [([Some "bob"; None], ["bob"])]
  /\ generate_passwords_from_rule (parse_rule "string: + number")
       ["anna"; "bob"] [] [] (Some DEFAULT_SYMBOLS)
       (Some DEFAULT_COMMON_NUMBERS) false
     = ["bob"].
Proof. split; reflexivity. Qed.

(* ================================================================= *)
(** ** Properties of the session walk *)

Lemma filter_all {A} (p : A -> bool) (l : list A) :
  (forall x, p x = true) -> filter p l = l.
Proof.
  intros Hp. induction l as [|x l IH]; simpl; [reflexivity|].
  now rewrite Hp, IH.
Qed.

Lemma filter_permutation {A} (p : A -> bool) (l l' : list A) :
  Permutation l l' -> Permutation (filter p l) (filter p l').
Proof.
  induction 1 as [|x l l' _ IH|x y l|l l' l'' _ IH1 _ IH2]; simpl.
  - constructor.
  - destruct (p x); [now constructor | assumption].
  - destruct (p x), (p y); try apply Permutation_refl. apply perm_swap.
  - eapply Permutation_trans; eassumption.
Qed.

Lemma index_in_range {A} (l : list A) (i : Z) :
  (0 <= i < Z.of_nat (List.length l))%Z -> exists x, Py.index l i = Some x.
Proof.
  intros Hi. unfold Py.index.
  destruct (Z.ltb_spec i 0); [lia|].
  destruct (nth_error l (Z.to_nat i)) eqn:E; [eauto|].
  apply nth_error_None in E. lia.
Qed.

Section WalkFacts.

Variable order : set_order.
Variable rules : list string.
Variable password_limit : Z.
Variable s : session.

Lemma write_passwords_facts valid st :
  let st' := write_passwords password_limit valid st in
  rule_index_updated st' = rule_index_updated st
  /\ (new_current_rule_password_count st
      <= new_current_rule_password_count st')%Z
  /\ (total_written st <= total_written st')%Z.
Proof.
  revert st. induction valid as [|pwd rest IH]; intros st; simpl.
  - repeat split; lia.
  - destruct (password_limit <=? total_written st)%Z.
    + repeat split; lia.
    + match goal with
      | |- context [write_passwords _ rest ?st1] => specialize (IH st1)
      end.
      simpl in IH. destruct IH as (H1 & H2 & H3). repeat split; lia.
Qed.

Lemma walk_rules_step fuel st rule_str :
  (total_written st <? password_limit)%Z = true ->
  (rule_index_updated st <? total_rules rules)%Z = true ->
  Py.index rules (rule_index_updated st) = Some rule_str ->
  walk_rules order rules password_limit s (S fuel) st
  = let valid_passwords :=
      if (rule_index_updated st =? current_rule_index s)%Z
      then Py.slice_from (current_rule_password_count s)
                         (rule_passwords order s rule_str)
      else rule_passwords order s rule_str in
    let st' := write_passwords password_limit valid_passwords st in
    if (Z.of_nat (List.length valid_passwords)
        <=? new_current_rule_password_count st')%Z
    then walk_rules order rules password_limit s fuel (next_rule st')
    else (Finished, st').
Proof.
  intros H1 H2 H3. cbn [walk_rules]. now rewrite H1, H2, H3.
Qed.

(** From a cursor within bounds the loop is left by its own condition
    or its [break], with the cursor still within bounds: no index is
    out of range and the rounds allotted are enough. *)
Lemma walk_rules_in_bounds fuel :
  forall st,
    (0 <= rule_index_updated st <= total_rules rules)%Z ->
    (0 <= new_current_rule_password_count st)%Z ->
    Z.to_nat (total_rules rules - rule_index_updated st) <= fuel ->
    let r := walk_rules order rules password_limit s fuel st in
    fst r = Finished
    /\ (rule_index_updated st <= rule_index_updated (snd r)
        <= total_rules rules)%Z
    /\ (0 <= new_current_rule_password_count (snd r))%Z.
Proof.
  induction fuel as [|fuel IH]; intros st Hidx Hcnt Hfuel; cbn zeta.
  - cbn [walk_rules].
    destruct (Z.ltb_spec (rule_index_updated st) (total_rules rules));
      [lia|]. rewrite andb_false_r. simpl. repeat split; lia.
  - destruct ((total_written st <? password_limit)%Z
              && (rule_index_updated st <? total_rules rules)%Z) eqn:Ec.
    2: { cbn [walk_rules]. rewrite Ec. simpl. repeat split; lia. }
    apply andb_true_iff in Ec. destruct Ec as [Ec1 Ec2].
    destruct (index_in_range rules (rule_index_updated st))
      as [rule_str Hr].
    { apply Z.ltb_lt in Ec2. unfold total_rules in Ec2. lia. }
    rewrite (walk_rules_step fuel st rule_str Ec1 Ec2 Hr). cbv zeta.
    apply Z.ltb_lt in Ec2.
    match goal with
    | |- context [write_passwords _ ?v st] =>
        pose proof (write_passwords_facts v st) as Hw;
        set (st' := write_passwords password_limit v st) in *;
        set (valid := v) in *
    end.
    cbn zeta in Hw. destruct Hw as (Hw1 & Hw2 & Hw3).
    destruct (Z.of_nat (List.length valid)
              <=? new_current_rule_password_count st')%Z.
    + specialize (IH (next_rule st')).
      cbn [next_rule rule_index_updated new_current_rule_password_count]
        in IH.
      rewrite Hw1 in IH.
      destruct IH as (H1 & H2 & H3); try lia.
      repeat split; try assumption; lia.
    + simpl. rewrite Hw1. repeat split; lia.
Qed.

Lemma walk_in_bounds :
  (0 <= current_rule_index s <= total_rules rules)%Z ->
  (0 <= current_rule_password_count s)%Z ->
  let r := walk order rules password_limit s in
  fst r = Finished
  /\ (current_rule_index s <= rule_index_updated (snd r)
      <= total_rules rules)%Z
  /\ (0 <= new_current_rule_password_count (snd r))%Z.
Proof.
  intros Hidx Hcnt. unfold walk.
  apply (walk_rules_in_bounds (rounds rules s) (initial_state s));
    cbn [initial_state rule_index_updated new_current_rule_password_count];
    try assumption.
  unfold rounds. lia.
Qed.

End WalkFacts.

Section SessionFacts.

Context {W : Type} `{OutputFiles W}.
Variable OUTPUT_DIR : string.
Variable order : set_order.

Lemma generate_to_file_completed (s : session) (rules : list string)
      (password_limit : Z) (custom_output_name : option string) (w : W) :
  (total_rules rules <= current_rule_index s)%Z ->
  generate_to_file OUTPUT_DIR order s rules password_limit
                   custom_output_name w
  = (Returned 0 EmptyString [] completed_only, w).
Proof.
  intros Hdone. apply Z.leb_le in Hdone.
  unfold generate_to_file. now rewrite Hdone.
Qed.

Lemma emitted_completed (s : session) (rules : list string)
      (password_limit : Z) :
  (total_rules rules <= current_rule_index s)%Z ->
  emitted order s rules password_limit = [].
Proof.
  intros Hdone. apply Z.leb_le in Hdone. unfold emitted. now rewrite Hdone.
Qed.

Lemma emitted_walk (s : session) (rules : list string)
      (password_limit : Z) :
  (current_rule_index s < total_rules rules)%Z ->
  emitted order s rules password_limit
  = outfile (snd (walk order rules password_limit s)).
Proof.
  intros Hidx. unfold emitted.
  destruct (Z.leb_spec (total_rules rules) (current_rule_index s)); [lia|].
  reflexivity.
Qed.

(** The session a run leaves, from the walk it makes. *)
Lemma run_session_cursor (s : session) (rules : list string)
      (password_limit : Z) (name : option string) (w : W) st :
  (current_rule_index s < total_rules rules)%Z ->
  walk order rules password_limit s = (Finished, st) ->
  let s' := fst (run_session OUTPUT_DIR order rules password_limit name
                             (s, w)) in
  current_rule_index s' = rule_index_updated st
  /\ current_rule_password_count s' = new_current_rule_password_count st
  /\ is_completed s' = (total_rules rules <=? rule_index_updated st)%Z
  /\ total_generated s' = (total_generated s + total_written st)%Z.
Proof.
  intros Hidx Hw. cbv zeta. unfold run_session, generate_to_file.
  destruct (Z.leb_spec (total_rules rules) (current_rule_index s)); [lia|].
  rewrite Hw. cbn. repeat split; reflexivity.
Qed.

(** A run never touches the profile and the constraints. *)
Lemma run_session_profile (s : session) (rules : list string)
      (password_limit : Z) (name : option string) (w : W) :
  let s' := fst (run_session OUTPUT_DIR order rules password_limit name
                             (s, w)) in
  strings s' = strings s /\ dates s' = dates s /\ numbers s' = numbers s
  /\ min_length s' = min_length s /\ max_length s' = max_length s
  /\ must_include_uppercase s' = must_include_uppercase s
  /\ must_include_symbol s' = must_include_symbol s.
Proof.
  cbv zeta. unfold run_session.
  destruct (generate_to_file OUTPUT_DIR order s rules password_limit name w)
    as [[written fname preview u | e] w'];
    cbn; repeat split; reflexivity.
Qed.

Lemma rule_passwords_profile (s s' : session) (rule_str : string) :
  strings s' = strings s -> dates s' = dates s ->
  numbers s' = numbers s -> min_length s' = min_length s ->
  max_length s' = max_length s ->
  must_include_uppercase s' = must_include_uppercase s ->
  must_include_symbol s' = must_include_symbol s ->
  rule_passwords order s' rule_str = rule_passwords order s rule_str.
Proof.
  intros E1 E2 E3 E4 E5 E6 E7.
  unfold rule_passwords, date_info_list.
  now rewrite E1, E2, E3, E4, E5, E6, E7.
Qed.

Lemma run_session_completed (s : session) (rules : list string)
      (password_limit : Z) (name : option string) (w : W) :
  (total_rules rules <= current_rule_index s)%Z ->
  run_session OUTPUT_DIR order rules password_limit name (s, w)
  = (update_session s completed_only, w).
Proof.
  intros Hdone. unfold run_session.
  now rewrite generate_to_file_completed.
Qed.

(** C9.  For every session whose rule index is at or past the end of
    the rule list, [generate_to_file] emits no candidate, leaves the
    files as they are and returns only the completion flag, so that the
    rule index, the count within the rule, the total generated and the
    list of output files are unchanged; this stays so for any number of
    further runs, that is, until the cursor is reset from outside. *)
Theorem completed_session_run_is_inert
        (s : session) (rules : list string) (password_limit : Z)
        (custom_output_name : option string) (w : W) :
  (total_rules rules <= current_rule_index s)%Z ->
  generate_to_file OUTPUT_DIR order s rules password_limit
                   custom_output_name w
  = (Returned 0 EmptyString [] completed_only, w)
  /\ forall n,
      let sw := Nat.iter n (run_session OUTPUT_DIR order rules
                              password_limit custom_output_name) (s, w) in
      snd sw = w
      /\ emitted order (fst sw) rules password_limit = []
      /\ current_rule_index (fst sw) = current_rule_index s
      /\ current_rule_password_count (fst sw)
         = current_rule_password_count s
      /\ total_generated (fst sw) = total_generated s
      /\ last_run_files (fst sw) = last_run_files s
      /\ (0 < n -> is_completed (fst sw) = true).
Proof.
  intros Hdone. split; [now apply generate_to_file_completed|].
  induction n as [|n IH]; cbn zeta.
  - cbn. repeat split; try reflexivity.
    + now apply emitted_completed.
    + lia.
  - cbn zeta in IH. rewrite Nat.iter_succ.
    destruct (Nat.iter n _ (s, w)) as [sn wn].
    cbn [fst snd] in IH. destruct IH as (Hw & _ & Hi & Hc & Ht & Hl & _).
    rewrite run_session_completed by (rewrite Hi; exact Hdone).
    cbn [fst snd update_session completed_only or_old
         current_rule_index current_rule_password_count total_generated
         last_run_files is_completed upd_current_rule_index
         upd_current_rule_password_count upd_is_completed
         upd_total_generated upd_last_run_files].
    repeat split; try assumption; try reflexivity.
    apply emitted_completed. cbn. now rewrite Hi.
Qed.

(** After the reset applied on request to a completed session, the
    cursor is that of a fresh session. *)
Lemma reset_cursor_restarts (s : session) :
  current_rule_index (update_session s reset_cursor) = 0%Z
  /\ current_rule_password_count (update_session s reset_cursor) = 0%Z
  /\ is_completed (update_session s reset_cursor) = false.
Proof. repeat split; reflexivity. Qed.

(** A call on a session whose cursor is within bounds returns, and the
    session it leaves satisfies the invariant. *)
Lemma run_session_invariant
      (s : session) (rules : list string) (password_limit : Z)
      (custom_output_name : option string) (w : W) :
  cursor_in_bounds rules s ->
  (exists written final_filename preview u,
      fst (generate_to_file OUTPUT_DIR order s rules password_limit
                            custom_output_name w)
      = Returned written final_filename preview u)
  /\ session_invariant rules
       (fst (run_session OUTPUT_DIR order rules password_limit
                         custom_output_name (s, w))).
Proof.
  intros [Hidx Hcnt].
  destruct (Z.leb_spec (total_rules rules) (current_rule_index s)) as [Hd|Hd].
  - rewrite run_session_completed, generate_to_file_completed by exact Hd.
    split; [cbn; repeat eexists|].
    unfold session_invariant. cbn. repeat split; lia.
  - pose proof (walk_in_bounds order rules password_limit s Hidx Hcnt)
      as Hwalk. cbv zeta in Hwalk.
    destruct (walk order rules password_limit s) as [e st] eqn:Ew.
    cbn [fst snd] in Hwalk. destruct Hwalk as (He & Hi & Hc). subst e.
    pose proof (run_session_cursor s rules password_limit
                  custom_output_name w st Hd Ew) as Hcur.
    cbv zeta in Hcur. destruct Hcur as (C1 & C2 & C3 & _).
    split.
    + unfold generate_to_file.
      destruct (Z.leb_spec (total_rules rules) (current_rule_index s));
        [lia|].
      rewrite Ew. cbn. repeat eexists.
    + unfold session_invariant. rewrite C1, C2, C3.
      repeat split; lia.
Qed.

(** C4.  After every run on a session whose cursor is within bounds,
    as it is for every created session and after every run, and the
    application of the changes the run returns, the session satisfies:
    the rule index lies between 0 and the number of rules, the count
    within the rule is not negative, and the session is completed
    exactly when the rule index equals the number of rules. *)
Theorem run_establishes_session_invariant
        (s : session) (rules : list string) (password_limit : Z)
        (custom_output_name : option string) (w : W) :
  cursor_in_bounds rules s ->
  (exists written final_filename preview u,
      fst (generate_to_file OUTPUT_DIR order s rules password_limit
                            custom_output_name w)
      = Returned written final_filename preview u)
  /\ session_invariant rules
       (fst (run_session OUTPUT_DIR order rules password_limit
                         custom_output_name (s, w))).
Proof. apply run_session_invariant. Qed.

(** The invariant holds after each run of any sequence of runs of a
    created session over a fixed rule list. *)
Lemma created_session_invariant
      (sid : string) (strs dts nums : list string)
      (min_len max_len : option Z) (upper symbol : bool)
      (rules : list string) (w : W)
      (runs : list (Z * option string)) (last : Z * option string) :
  session_invariant rules
    (fst (fold_left
            (fun sw r => run_session OUTPUT_DIR order rules (fst r) (snd r)
                                     sw)
            (runs ++ [last])%list
            (create_session sid strs dts nums min_len max_len upper symbol,
             w))).
Proof.
  rewrite fold_left_app. cbn [fold_left].
  assert (Hb : cursor_in_bounds rules
                 (fst (fold_left
                         (fun sw r => run_session OUTPUT_DIR order rules
                                                  (fst r) (snd r) sw)
                         runs
                         (create_session sid strs dts nums min_len max_len
                                         upper symbol, w)))).
  { induction runs as [|r runs IH] using rev_ind.
    - unfold cursor_in_bounds, total_rules. cbn. lia.
    - rewrite fold_left_app. cbn [fold_left].
      destruct (fold_left _ runs _) as [s' w'].
      destruct (run_session_invariant s' rules (fst r) (snd r) w' IH)
        as (_ & Hi & Hc & _).
      split; assumption. }
  destruct (fold_left _ runs _) as [s' w'].
  now apply run_session_invariant.
Qed.

End SessionFacts.

Lemma run_establishes_session_invariant_witness :
  cursor_in_bounds ["string: + number"; "number"]
    (create_session "s1" ["anna"] [] ["7"; "8"] (Some 1%Z) None false false)
  /\ session_invariant ["string: + number"; "number"]
       (fst (run_session "out" insertion_order
               ["string: + number"; "number"] 1 None
               (create_session "s1" ["anna"] [] ["7"; "8"] (Some 1%Z) None
                  false false, @nil (string * list string)))).
Proof.
  assert (Hb : cursor_in_bounds ["string: + number"; "number"]
                 (create_session "s1" ["anna"] [] ["7"; "8"] (Some 1%Z) None
                    false false)).
  { unfold cursor_in_bounds. vm_compute. repeat split; discriminate. }
  split; [exact Hb|].
  exact (proj2 (run_establishes_session_invariant "out" insertion_order
                  _ _ 1%Z None [] Hb)).
Defined.

Lemma completed_session_run_witness :
  (total_rules ["number"]
   <= current_rule_index
        (update_session
           (create_session "s1" [] [] ["7"] (Some 1%Z) None false false)
           {| upd_current_rule_index := Some 1%Z;
              upd_current_rule_password_count := Some 0%Z;
              upd_is_completed := Some true;
              upd_total_generated := Some 1%Z;
              upd_last_run_files := None |}))%Z
  /\ generate_to_file "out" insertion_order
       (update_session
          (create_session "s1" [] [] ["7"] (Some 1%Z) None false false)
          {| upd_current_rule_index := Some 1%Z;
             upd_current_rule_password_count := Some 0%Z;
             upd_is_completed := Some true;
             upd_total_generated := Some 1%Z;
             upd_last_run_files := None |})
       ["number"] 10 None [("out/1_passwords_s1_run1.txt", ["7"])]
     = (Returned 0 EmptyString [] completed_only,
        [("out/1_passwords_s1_run1.txt", ["7"])]).
Proof.
  assert (Hd : (total_rules ["number"]
   <= current_rule_index
        (update_session
           (create_session "s1" [] [] ["7"] (Some 1%Z) None false false)
           {| upd_current_rule_index := Some 1%Z;
              upd_current_rule_password_count := Some 0%Z;
              upd_is_completed := Some true;
              upd_total_generated := Some 1%Z;
              upd_last_run_files := None |}))%Z).
  { vm_compute. discriminate. }
  split; [exact Hd|].
  exact (proj1 (completed_session_run_is_inert "out" insertion_order
                  _ _ 10%Z None [("out/1_passwords_s1_run1.txt", ["7"])]
                  Hd)).
Defined.

(** *** Order of the candidates *)

(** Whatever the iteration order of sets, a rule yields the same
    candidates, each once as often. *)
Lemma rule_passwords_same_candidates (o1 o2 : set_order) (s : session)
      (rule_str : string) :
  Permutation (rule_passwords o1 s rule_str) (rule_passwords o2 s rule_str).
Proof.
  unfold rule_passwords, filter_valid_passwords.
  apply filter_permutation.
  eapply Permutation_trans; [apply iterate_perm|].
  apply Permutation_sym, iterate_perm.
Qed.

(** C2.  What the code does where the claim fails: the ordered list of
    candidates of a rule is the iteration order of a set, and two
    processes that iterate the same set in different orders obtain
    different lists; here the rule [number] over the numbers 1 and 2. *)
Theorem candidate_order_differs_between_set_orders :
  rule_passwords insertion_order two_numbers_session "number" = ["1"; "2"]
  /\ rule_passwords reverse_order two_numbers_session "number" = ["2"; "1"]
  /\ rule_passwords insertion_order two_numbers_session "number"
     <> rule_passwords reverse_order two_numbers_session "number".
Proof. repeat split; try reflexivity. vm_compute. discriminate. Qed.

(** *** Resumption *)

Lemma firstn_then_skipn {A} (a b : nat) (l : list A) :
  (firstn a l ++ firstn b (skipn a l))%list = firstn (a + b) l.
Proof.
  revert l. induction a as [|a IH]; intros l; [reflexivity|].
  destruct l as [|x l]; simpl.
  - now rewrite firstn_nil.
  - now rewrite IH.
Qed.

Lemma skipn_index {A} (l : list A) (i : Z) (x : A) :
  (0 <= i)%Z -> Py.index l i = Some x ->
  skipn (Z.to_nat i) l = x :: skipn (Z.to_nat (i + 1)) l.
Proof.
  intros Hi. unfold Py.index. destruct (Z.ltb_spec i 0); [lia|].
  replace (Z.to_nat (i + 1)) with (S (Z.to_nat i)) by lia.
  generalize (Z.to_nat i). clear. intros n. revert l.
  induction n as [|n IH]; intros [|y l]; simpl; try discriminate.
  - now intros [= ->].
  - intros Hn. rewrite (IH l Hn). reflexivity.
Qed.

Lemma slice_from_nonneg {A} (c : Z) (l : list A) :
  (0 <= c)%Z -> Py.slice_from c l = skipn (Z.to_nat c) l.
Proof.
  intros Hc. unfold Py.slice_from. destruct (Z.ltb_spec c 0); [lia|].
  reflexivity.
Qed.

Section WalkOutput.

Variable order : set_order.
Variable rules : list string.
Variable password_limit : Z.
Variable s : session.

Lemma write_passwords_spec valid st :
  let n := Z.to_nat (password_limit - total_written st) in
  let w := Z.of_nat (List.length (firstn n valid)) in
  let st' := write_passwords password_limit valid st in
  outfile st' = (outfile st ++ firstn n valid)%list
  /\ total_written st' = (total_written st + w)%Z
  /\ new_current_rule_password_count st'
     = (new_current_rule_password_count st + w)%Z
  /\ rule_index_updated st' = rule_index_updated st.
Proof.
  revert st. induction valid as [|pwd rest IH]; intros st; cbv zeta.
  - rewrite firstn_nil. cbn. rewrite app_nil_r. repeat split; lia.
  - cbn [write_passwords].
    destruct (Z.leb_spec password_limit (total_written st)) as [Hk|Hk].
    + replace (Z.to_nat (password_limit - total_written st)) with 0 by lia.
      cbn. rewrite app_nil_r. repeat split; lia.
    + match goal with
      | |- context [write_passwords _ rest ?st1] => specialize (IH st1)
      end.
      cbv zeta in IH. cbn [total_written outfile rule_index_updated
                           new_current_rule_password_count] in IH.
      destruct IH as (H1 & H2 & H3 & H4).
      replace (Z.to_nat (password_limit - total_written st))
        with (S (Z.to_nat (password_limit - (total_written st + 1))))
        by lia.
      cbn [firstn List.length].
      rewrite H1, H2, H3, H4, <- app_assoc. cbn [app].
      repeat split; lia.
Qed.

Lemma remaining_later i :
  i <> current_rule_index s -> remaining order rules s i = later order rules s i.
Proof.
  intros Hi. unfold remaining, later, candidates_at.
  destruct (Z.eqb_spec i (current_rule_index s)); [contradiction|].
  destruct (skipn (Z.to_nat i) rules); reflexivity.
Qed.

Lemma remaining_step i rule_str :
  (0 <= i)%Z -> Py.index rules i = Some rule_str ->
  remaining order rules s i
  = (candidates_at order s i rule_str
     ++ later order rules s (i + 1))%list.
Proof.
  intros Hi Hr. unfold remaining, later.
  now rewrite (skipn_index rules i rule_str Hi Hr).
Qed.

Lemma remaining_end i :
  (total_rules rules <= i)%Z -> remaining order rules s i = [].
Proof.
  intros Hi. unfold remaining. rewrite skipn_all2; [reflexivity|].
  unfold total_rules in Hi. lia.
Qed.

(** What a walk writes: the first candidates before it, as many as the
    limit leaves room for. *)
Lemma walk_rules_outfile fuel :
  forall st,
    (0 <= current_rule_password_count s)%Z ->
    (current_rule_index s <= rule_index_updated st)%Z ->
    (0 <= rule_index_updated st <= total_rules rules)%Z ->
    (0 <= new_current_rule_password_count st)%Z ->
    Z.to_nat (total_rules rules - rule_index_updated st) <= fuel ->
    outfile (snd (walk_rules order rules password_limit s fuel st))
    = (outfile st
       ++ firstn (Z.to_nat (password_limit - total_written st))
                 (remaining order rules s (rule_index_updated st)))%list.
Proof.
  induction fuel as [|fuel IH]; intros st Hc Hlo Hidx Hcnt Hfuel.
  - cbn [walk_rules].
    destruct (Z.ltb_spec (rule_index_updated st) (total_rules rules));
      [lia|]. rewrite andb_false_r. cbn [snd].
    rewrite remaining_end by lia. now rewrite firstn_nil, app_nil_r.
  - destruct ((total_written st <? password_limit)%Z
              && (rule_index_updated st <? total_rules rules)%Z) eqn:Ec.
    2: { cbn [walk_rules]. rewrite Ec. cbn [snd].
         apply andb_false_iff in Ec. destruct Ec as [Ec|Ec];
           apply Z.ltb_ge in Ec.
         - replace (Z.to_nat (password_limit - total_written st))
             with 0 by lia.
           now rewrite app_nil_r.
         - rewrite remaining_end by lia.
           now rewrite firstn_nil, app_nil_r. }
    apply andb_true_iff in Ec. destruct Ec as [Ec1 Ec2].
    destruct (index_in_range rules (rule_index_updated st))
      as [rule_str Hr].
    { apply Z.ltb_lt in Ec2. unfold total_rules in Ec2. lia. }
    rewrite (walk_rules_step order rules password_limit s fuel st rule_str
               Ec1 Ec2 Hr). cbv zeta.
    rewrite (remaining_step _ rule_str (proj1 Hidx) Hr).
    fold (candidates_at order s (rule_index_updated st) rule_str).
    set (valid := candidates_at order s (rule_index_updated st) rule_str).
    pose proof (write_passwords_spec valid st) as Hw. cbv zeta in Hw.
    set (st' := write_passwords password_limit valid st) in *.
    set (n := Z.to_nat (password_limit - total_written st)) in *.
    destruct Hw as (Ho & Ht & Hn & Hi).
    apply Z.ltb_lt in Ec1. apply Z.ltb_lt in Ec2.
    pose proof (firstn_le_length n valid) as Hle.
    rewrite firstn_app.
    destruct (Z.leb_spec (Z.of_nat (List.length valid))
                (new_current_rule_password_count st')) as [Ha|Ha].
    + rewrite (IH (next_rule st'));
        cbn [next_rule rule_index_updated new_current_rule_password_count
             outfile total_written]; try rewrite Hi; try lia.
      rewrite remaining_later by lia.
      rewrite Ho, Ht, <- app_assoc. f_equal. f_equal.
      rewrite length_firstn in *.
      destruct (Nat.le_gt_cases (List.length valid) n) as [Hv|Hv].
      * rewrite Nat.min_r by lia. f_equal. lia.
      * rewrite Nat.min_l by lia.
        replace (Z.to_nat (password_limit - (total_written st + Z.of_nat n)))
          with 0 by lia.
        replace (n - List.length valid) with 0 by lia. reflexivity.
    + cbn [snd]. rewrite Ho. f_equal.
      rewrite length_firstn in *.
      replace (n - List.length valid) with 0 by lia.
      cbn [firstn]. now rewrite app_nil_r.
Qed.

Lemma pending_at_start i :
  pending_at order rules s i 0 = later order rules s i.
Proof.
  unfold pending_at, later.
  destruct (skipn (Z.to_nat i) rules); reflexivity.
Qed.

Lemma later_end i :
  (total_rules rules <= i)%Z -> later order rules s i = [].
Proof.
  intros Hi. unfold later. rewrite skipn_all2; [reflexivity|].
  unfold total_rules in Hi. lia.
Qed.

Lemma later_step i rule_str :
  (0 <= i)%Z -> Py.index rules i = Some rule_str ->
  later order rules s i
  = (rule_passwords order s rule_str
     ++ later order rules s (i + 1))%list.
Proof.
  intros Hi Hr. unfold later.
  now rewrite (skipn_index rules i rule_str Hi Hr).
Qed.

Lemma pending_at_step i c rule_str :
  (0 <= i)%Z -> (0 <= c)%Z -> Py.index rules i = Some rule_str ->
  pending_at order rules s i c
  = (skipn (Z.to_nat c) (rule_passwords order s rule_str)
     ++ later order rules s (i + 1))%list.
Proof.
  intros Hi Hc Hr. unfold pending_at, later.
  rewrite (skipn_index rules i rule_str Hi Hr).
  now rewrite slice_from_nonneg.
Qed.

(** Where a walk that starts at the beginning of a rule leaves the
    cursor: before the candidates it has not written. *)
Lemma walk_rules_cursor fuel :
  forall st,
    current_rule_password_count s = 0%Z ->
    new_current_rule_password_count st = 0%Z ->
    (0 <= rule_index_updated st <= total_rules rules)%Z ->
    Z.to_nat (total_rules rules - rule_index_updated st) <= fuel ->
    let r := snd (walk_rules order rules password_limit s fuel st) in
    pending_at order rules s (rule_index_updated r)
               (new_current_rule_password_count r)
    = skipn (Z.to_nat (password_limit - total_written st))
            (later order rules s (rule_index_updated st)).
Proof.
  induction fuel as [|fuel IH]; intros st Hc Hcnt Hidx Hfuel; cbv zeta.
  - cbn [walk_rules].
    destruct (Z.ltb_spec (rule_index_updated st) (total_rules rules));
      [lia|]. rewrite andb_false_r. cbn [snd].
    rewrite Hcnt, pending_at_start, later_end by lia.
    now rewrite skipn_nil.
  - destruct ((total_written st <? password_limit)%Z
              && (rule_index_updated st <? total_rules rules)%Z) eqn:Ec.
    2: { cbn [walk_rules]. rewrite Ec. cbn [snd].
         rewrite Hcnt, pending_at_start.
         apply andb_false_iff in Ec. destruct Ec as [Ec|Ec];
           apply Z.ltb_ge in Ec.
         - replace (Z.to_nat (password_limit - total_written st))
             with 0 by lia. reflexivity.
         - rewrite later_end by lia. now rewrite skipn_nil. }
    apply andb_true_iff in Ec. destruct Ec as [Ec1 Ec2].
    destruct (index_in_range rules (rule_index_updated st))
      as [rule_str Hr].
    { apply Z.ltb_lt in Ec2. unfold total_rules in Ec2. lia. }
    rewrite (walk_rules_step order rules password_limit s fuel st rule_str
               Ec1 Ec2 Hr). cbv zeta.
    rewrite (later_step _ rule_str (proj1 Hidx) Hr).
    assert (Ev : (if (rule_index_updated st =? current_rule_index s)%Z
                  then Py.slice_from (current_rule_password_count s)
                                     (rule_passwords order s rule_str)
                  else rule_passwords order s rule_str)
                 = rule_passwords order s rule_str).
    { rewrite Hc. now destruct (_ =? _)%Z. }
    rewrite Ev. clear Ev.
    set (valid := rule_passwords order s rule_str).
    pose proof (write_passwords_spec valid st) as Hw. cbv zeta in Hw.
    set (st' := write_passwords password_limit valid st) in *.
    set (n := Z.to_nat (password_limit - total_written st)) in *.
    destruct Hw as (Ho & Ht & Hn & Hi).
    apply Z.ltb_lt in Ec1. apply Z.ltb_lt in Ec2.
    rewrite length_firstn in *.
    rewrite skipn_app.
    destruct (Z.leb_spec (Z.of_nat (List.length valid))
                (new_current_rule_password_count st')) as [Ha|Ha].
    + rewrite (IH (next_rule st'));
        cbn [next_rule rule_index_updated new_current_rule_password_count
             outfile total_written]; try rewrite Hi; try lia.
      rewrite (@skipn_all2 _ n valid) by lia. cbn [app]. rewrite Ht.
      f_equal. lia.
    + cbn [snd]. rewrite Hi.
      rewrite (pending_at_step _ _ rule_str (proj1 Hidx)) by (try lia; exact Hr).
      fold valid. rewrite Hn, Hcnt.
      replace (Z.to_nat (0 + Z.of_nat (Nat.min n (List.length valid))))
        with n by lia.
      replace (n - List.length valid) with 0 by lia. reflexivity.
Qed.

End WalkOutput.

Section ResumptionFacts.

Context {W : Type} `{OutputFiles W}.
Variable OUTPUT_DIR : string.
Variable order : set_order.

Lemma pending_at_profile (rules : list string) (s s' : session) i c :
  (forall rule_str,
      rule_passwords order s' rule_str = rule_passwords order s rule_str) ->
  pending_at order rules s' i c = pending_at order rules s i c.
Proof.
  intros E. unfold pending_at.
  destruct (skipn (Z.to_nat i) rules) as [|r rest]; [reflexivity|].
  rewrite E. f_equal. apply flat_map_ext. intros a. apply E.
Qed.

(** A run from a cursor within bounds writes the first candidates that
    are pending, as many as its limit allows. *)
Lemma emitted_pending (s : session) (rules : list string)
      (password_limit : Z) :
  cursor_in_bounds rules s ->
  emitted order s rules password_limit
  = firstn (Z.to_nat password_limit) (pending order rules s).
Proof.
  intros [Hidx Hcnt].
  destruct (Z.leb_spec (total_rules rules) (current_rule_index s)) as [Hd|Hd].
  - rewrite emitted_completed by exact Hd.
    unfold pending, pending_at. rewrite skipn_all2.
    + now rewrite firstn_nil.
    + unfold total_rules in Hd. lia.
  - rewrite emitted_walk by exact Hd. unfold walk.
    rewrite walk_rules_outfile;
      cbn [initial_state rule_index_updated outfile total_written
           new_current_rule_password_count]; try lia.
    2: { unfold rounds. lia. }
    cbn [app]. rewrite Z.sub_0_r. f_equal.
    unfold remaining, pending, pending_at, candidates_at.
    now rewrite Z.eqb_refl.
Qed.

(** A run that starts at the beginning of a rule leaves the cursor
    before the candidates it did not write. *)
Lemma pending_after_run (s : session) (rules : list string)
      (password_limit : Z) (name : option string) (w : W) :
  cursor_in_bounds rules s ->
  current_rule_password_count s = 0%Z ->
  pending order rules
    (fst (run_session OUTPUT_DIR order rules password_limit name (s, w)))
  = skipn (Z.to_nat password_limit) (pending order rules s).
Proof.
  intros [Hidx Hcnt] Hc.
  destruct (Z.leb_spec (total_rules rules) (current_rule_index s)) as [Hd|Hd].
  - rewrite run_session_completed by exact Hd.
    unfold pending, pending_at. cbn.
    rewrite skipn_all2 by (unfold total_rules in Hd; lia).
    now rewrite skipn_nil.
  - pose proof (walk_in_bounds order rules password_limit s Hidx Hcnt)
      as Hwalk. cbv zeta in Hwalk.
    pose proof (walk_rules_cursor order rules password_limit s
                  (rounds rules s) (initial_state s) Hc) as Hcur.
    cbv zeta in Hcur. fold (walk order rules password_limit s) in Hcur.
    destruct (walk order rules password_limit s) as [e st] eqn:Ew.
    cbn [fst snd] in Hwalk, Hcur. destruct Hwalk as (He & _ & _). subst e.
    pose proof (run_session_cursor OUTPUT_DIR order s rules password_limit
                  name w st Hd Ew) as Hs.
    pose proof (run_session_profile OUTPUT_DIR order s rules password_limit
                  name w) as Hp.
    cbv zeta in Hs, Hp.
    destruct Hs as (C1 & C2 & _).
    destruct Hp as (P1 & P2 & P3 & P4 & P5 & P6 & P7).
    unfold pending at 1. rewrite C1, C2.
    rewrite (pending_at_profile rules s).
    2: { intros r. now apply rule_passwords_profile. }
    rewrite Hcur;
      cbn [initial_state rule_index_updated total_written
           new_current_rule_password_count]; try lia.
    2: { unfold rounds. lia. }
    rewrite Z.sub_0_r. unfold pending. rewrite Hc.
    now rewrite pending_at_start.
Qed.


End ResumptionFacts.

(** The property does not extend to a cursor inside a rule. *)

Section Resumption.

Context {W : Type} `{OutputFiles W}.
Variable OUTPUT_DIR : string.
Variable order : set_order.

Lemma digits_rule_passwords (s : session) :
  strings s = ["anna"] -> dates s = [] -> numbers s = ten_digits ->
  min_length s = Some 0%Z -> max_length s = None ->
  must_include_uppercase s = false -> must_include_symbol s = false ->
  rule_passwords order s "number" = iterate order ten_digits.
Proof.
  intros E1 E2 E3 E4 E5 E6 E7.
  unfold rule_passwords, date_info_list, filter_valid_passwords.
  rewrite E1, E2, E3, E4, E5, E6, E7.
  change (generate_passwords_from_rule (parse_rule "number") ["anna"]
            ten_digits (map _ []) (Some DEFAULT_SYMBOLS)
            (Some DEFAULT_COMMON_NUMBERS) _)
    with ten_digits.
  apply filter_all. reflexivity.
Qed.

(** One walk over the single rule [number] of a session with the
    profile of [digits_session], at a cursor in that rule. *)
Lemma digits_walk (s : session) (k : Z) (V : list string) :
  strings s = ["anna"] -> dates s = [] -> numbers s = ten_digits ->
  min_length s = Some 0%Z -> max_length s = None ->
  must_include_uppercase s = false -> must_include_symbol s = false ->
  current_rule_index s = 0%Z ->
  (0 < k)%Z ->
  iterate order ten_digits = V ->
  walk order ["number"] k s
  = let valid := Py.slice_from (current_rule_password_count s) V in
    let st' := write_passwords k valid (initial_state s) in
    if (Z.of_nat (List.length valid)
        <=? new_current_rule_password_count st')%Z
    then (Finished, next_rule st')
    else (Finished, st').
Proof.
  intros E1 E2 E3 E4 E5 E6 E7 Ei Hk EV. unfold walk, rounds.
  rewrite Ei. change (Z.to_nat (total_rules ["number"] - 0)) with 1.
  rewrite (walk_rules_step _ _ _ _ _ _ "number").
  - rewrite digits_rule_passwords, EV by assumption.
    cbn [initial_state rule_index_updated]. rewrite Ei, Z.eqb_refl.
    cbv zeta.
    destruct (Z.of_nat _ <=? _)%Z; [|reflexivity].
    cbn [walk_rules].
    match goal with
    | |- context [write_passwords k ?v ?st0] =>
        pose proof (write_passwords_facts k v st0) as (Hr & _ & _)
    end.
    cbn [rule_index_updated] in Hr.
    cbn [next_rule rule_index_updated]. rewrite Hr.
    cbn [initial_state rule_index_updated]. rewrite Ei.
    change (0 + 1 <? total_rules ["number"])%Z with false.
    now rewrite andb_false_r.
  - cbn. now apply Z.ltb_lt.
  - cbn. now rewrite Ei.
  - cbn. now rewrite Ei.
Qed.

(** C1.  What the code does where the claim fails, under any iteration
    order of sets.  A first run with limit 5 leaves the session of ten
    candidates at count 5 within rule 0.  Resumed with limit 2, the run
    emits two candidates and marks the session completed, the count of
    7 being compared with the 5 entries left after the skip; a further
    run with limit 1 emits nothing.  A single run with limit 3 from the
    same state emits three candidates. *)
Theorem resumed_run_skips_rest_of_rule (w : W) :
  let rules := ["number"] in
  let sw1 := run_session OUTPUT_DIR order rules 5 None (digits_session, w) in
  let sw2 := run_session OUTPUT_DIR order rules 2 None sw1 in
  current_rule_index (fst sw1) = 0%Z
  /\ current_rule_password_count (fst sw1) = 5%Z
  /\ is_completed (fst sw2) = true
  /\ List.length (emitted order (fst sw1) rules 2
                  ++ emitted order (fst sw2) rules 1)%list = 2
  /\ List.length (emitted order (fst sw1) rules 3) = 3
  /\ (emitted order (fst sw1) rules 2
      ++ emitted order (fst sw2) rules 1)%list
     <> emitted order (fst sw1) rules 3.
Proof.
  pose proof (iterate_perm order ten_digits) as HP.
  apply Permutation_length in HP.
  destruct (iterate order ten_digits)
    as [|x0 [|x1 [|x2 [|x3 [|x4 [|x5 [|x6 [|x7 [|x8 [|x9 [|x10 l]]]]]]]]]]]
    eqn:El; try discriminate.
  clear HP. cbv zeta.
  (* the first run, from the fresh session *)
  assert (W1 : walk order ["number"] 5 digits_session
               = (Finished,
                  {| outfile := [x0; x1; x2; x3; x4];
                     preview_passwords := [x0; x1; x2; x3; x4];
                     total_written := 5;
                     rule_index_updated := 0;
                     new_current_rule_password_count := 5 |})).
  { rewrite (digits_walk digits_session 5 _ eq_refl eq_refl eq_refl
                         eq_refl eq_refl eq_refl eq_refl eq_refl eq_refl
                         El).
    reflexivity. }
  pose proof (run_session_profile OUTPUT_DIR order digits_session
                ["number"] 5 None w) as P.
  pose proof (run_session_cursor OUTPUT_DIR order digits_session
                ["number"] 5 None w _ ltac:(cbn; lia) W1) as C1.
  cbv zeta in P, C1.
  destruct (run_session OUTPUT_DIR order ["number"] 5 None
                        (digits_session, w)) as [s1 w1].
  cbn [fst] in *.
  cbn [rule_index_updated new_current_rule_password_count] in C1.
  destruct C1 as (I1 & N1 & _).
  destruct P as (P1 & P2 & P3 & P4 & P5 & P6 & P7).
  (* the runs that resume it *)
  assert (W2 : forall k, (0 < k)%Z ->
               walk order ["number"] k s1
               = let valid := [x5; x6; x7; x8; x9] in
                 let st' := write_passwords k valid (initial_state s1) in
                 if (5 <=? new_current_rule_password_count st')%Z
                 then (Finished, next_rule st') else (Finished, st')).
  { intros k Hk.
    rewrite (digits_walk s1 k _ P1 P2 P3 P4 P5 P6 P7 I1 Hk El).
    rewrite N1. reflexivity. }
  assert (Ws : initial_state s1
               = {| outfile := []; preview_passwords := [];
                    total_written := 0; rule_index_updated := 0;
                    new_current_rule_password_count := 5 |}).
  { unfold initial_state. now rewrite I1, N1. }
  assert (Hlt : (current_rule_index s1 < total_rules ["number"])%Z).
  { rewrite I1. cbn. lia. }
  pose proof (W2 2%Z ltac:(lia)) as W22. rewrite Ws in W22. cbn in W22.
  pose proof (W2 3%Z ltac:(lia)) as W23. rewrite Ws in W23. cbn in W23.
  pose proof (run_session_cursor OUTPUT_DIR order s1 ["number"] 2 None w1
                _ Hlt W22) as C2.
  cbv zeta in C2.
  destruct (run_session OUTPUT_DIR order ["number"] 2 None (s1, w1))
    as [s2 w2].
  cbn [fst] in *.
  cbn [rule_index_updated new_current_rule_password_count] in C2.
  destruct C2 as (I2 & N2 & D2 & _).
  rewrite !(emitted_walk order s1) by exact Hlt. rewrite W22, W23.
  rewrite (emitted_completed order s2) by (rewrite I2; cbn; lia).
  cbn. repeat split; try assumption; try reflexivity.
  discriminate.
Qed.

End Resumption.

(* ================================================================= *)
(** ** Further properties of the code *)

(** *** Leet variants: the word itself, and no repetition *)

Lemma leet_options_head ch : exists tl, leet_options ch = ch :: tl.
Proof. each_ascii ch; eexists; reflexivity. Qed.

Lemma leet_options_nodup ch : NoDup (leet_options ch).
Proof.
  each_ascii ch; cbv;
    repeat (constructor; [simpl; intuition discriminate|]); constructor.
Qed.

Lemma map_nodup {A B} (f : A -> B) (l : list A) :
  (forall a b, f a = f b -> a = b) -> NoDup l -> NoDup (map f l).
Proof.
  intros Hinj. induction 1 as [|x l Hx _ IH]; simpl; constructor; auto.
  intros Hin. apply in_map_iff in Hin. destruct Hin as (y & E & Hy).
  apply Hinj in E. now subst.
Qed.

Lemma product_head {A} (pools : list (list A)) (t : list A) :
  Forall2 (fun pool x => exists tl, pool = x :: tl) pools t ->
  exists rest, Py.product pools = t :: rest.
Proof.
  induction 1 as [|pool x pools t [tl ->] _ [rest IH]]; simpl.
  - eexists; reflexivity.
  - rewrite IH. simpl. eexists; reflexivity.
Qed.

Lemma product_nodup {A} (pools : list (list A)) :
  Forall (@NoDup A) pools -> NoDup (Py.product pools).
Proof.
  induction 1 as [|pool pools Hp _ IH]; simpl.
  - constructor; [intros []|constructor].
  - induction Hp as [|x pool Hx _ IHp]; simpl; [constructor|].
    apply NoDup_app.
    + apply map_nodup; [|exact IH].
      intros a b E. now inversion E.
    + exact IHp.
    + intros t Ht Ht'. apply in_map_iff in Ht. destruct Ht as (t' & <- & _).
      apply in_flat_map in Ht'. destruct Ht' as (y & Hy & Ht').
      apply in_map_iff in Ht'. destruct Ht' as (t'' & E & _).
      inversion E; subst. contradiction.
Qed.

(** X1.  For every word, the word itself is the first of its leet
    variants, and no variant occurs twice in the list; the empty word
    has the empty string as its only variant. *)
Theorem leet_variants_start_with_word_and_are_distinct (word : string) :
  (exists rest, generate_leet_variants word = word :: rest)
  /\ NoDup (generate_leet_variants word)
  /\ generate_leet_variants EmptyString = [EmptyString].
Proof.
  unfold generate_leet_variants. split; [|split; [|reflexivity]].
  - destruct (product_head (map leet_options (Py.chars word))
                (Py.chars word)) as [rest E].
    { induction (Py.chars word) as [|ch l IH]; simpl; constructor;
        [apply leet_options_head | exact IH]. }
    rewrite E. simpl. rewrite of_chars_chars. eexists; reflexivity.
  - apply map_nodup.
    + intros a b E. apply (f_equal Py.chars) in E.
      now rewrite !chars_of_chars in E.
    + apply product_nodup. apply Forall_forall. intros pool Hp.
      apply in_map_iff in Hp. destruct Hp as (ch & <- & _).
      apply leet_options_nodup.
Qed.

(** *** Case patterns change nothing but the case *)

Lemma char_lower_upper c : Py.char_lower (Py.char_upper c) = Py.char_lower c.
Proof. each_ascii c; reflexivity. Qed.

Lemma char_lower_idem c : Py.char_lower (Py.char_lower c) = Py.char_lower c.
Proof. each_ascii c; reflexivity. Qed.

Lemma map_str_map_str f g s :
  Py.map_str g (Py.map_str f s) = Py.map_str (fun c => g (f c)) s.
Proof. induction s; simpl; congruence. Qed.

Lemma map_str_ext f g s :
  (forall c, f c = g c) -> Py.map_str f s = Py.map_str g s.
Proof. intros E. induction s; simpl; congruence. Qed.

Lemma lower_upper s : Py.lower (Py.upper s) = Py.lower s.
Proof.
  unfold Py.lower, Py.upper. rewrite map_str_map_str.
  apply map_str_ext, char_lower_upper.
Qed.

Lemma lower_lower s : Py.lower (Py.lower s) = Py.lower s.
Proof.
  unfold Py.lower. rewrite map_str_map_str.
  apply map_str_ext, char_lower_idem.
Qed.

Lemma upper_upper s : Py.upper (Py.upper s) = Py.upper s.
Proof.
  unfold Py.upper. rewrite map_str_map_str.
  apply map_str_ext, char_upper_idem.
Qed.

Lemma map_str_of_chars f l :
  Py.map_str f (Py.of_chars l) = Py.of_chars (map f l).
Proof. induction l; simpl; congruence. Qed.

Lemma map_mapi_from_lower (f : nat -> ascii -> ascii) k l :
  (forall j c, Py.char_lower (f j c) = Py.char_lower c) ->
  map Py.char_lower (mapi_from f k l) = map Py.char_lower l.
Proof.
  intros Hf. revert k. induction l as [|x l IH]; intros k; simpl;
    [reflexivity|]. now rewrite Hf, IH.
Qed.

Lemma chars_map_str f s : Py.chars (Py.map_str f s) = map f (Py.chars s).
Proof. induction s; simpl; congruence. Qed.

(** The positions raised by a position list leave the letters alone. *)
Lemma lower_fold_apply_position positions value :
  Py.lower
    (Py.of_chars
       (fold_left apply_position positions (Py.chars (Py.lower value))))
  = Py.lower value.
Proof.
  rewrite fold_apply_position. unfold Py.lower at 1.
  rewrite map_str_of_chars, map_mapi_from_lower.
  - rewrite <- chars_map_str, of_chars_chars. apply lower_lower.
  - intros j c. destruct (existsb _ positions);
      [apply char_lower_upper | reflexivity].
Qed.

Lemma lower_apply_case_pattern case_pattern value :
  Py.lower (apply_case_pattern case_pattern value) = Py.lower value.
Proof.
  unfold apply_case_pattern.
  destruct (negb (Py.startswith case_pattern "u:")); [reflexivity|].
  destruct (String.eqb (Py.drop 2 case_pattern) "A"); [apply lower_upper|].
  destruct (String.eqb (Py.drop 2 case_pattern) "N"); [apply lower_lower|].
  apply lower_fold_apply_position.
Qed.



(** *** Dates: the components and the numbers *)

Lemma split_go_nonempty sep budget skip cur s :
  Py.split_go sep budget skip cur s <> [].
Proof.
  revert budget skip cur. induction s as [|c s IH]; intros budget skip cur;
    cbn [Py.split_go]; [discriminate|].
  destruct skip; [|apply IH].
  destruct (Py.budget_left budget && String.prefix sep (String c s));
    [discriminate | apply IH].
Qed.

Lemma join_cons sep x l :
  l <> [] -> Py.join sep (x :: l) = x ++ sep ++ Py.join sep l.
Proof. destruct l; [contradiction | reflexivity]. Qed.

(** Joining the pieces of a string with the separator gives the string
    back. *)
Lemma split_go_join s :
  forall cur,
    Py.join "/" (Py.split_go "/" None 0 cur s) = cur ++ s.
Proof.
  induction s as [|c s IH]; intros cur.
  - cbn. now rewrite append_nil_r.
  - cbn [Py.split_go Py.budget_left andb]. rewrite prefix_slash.
    destruct (Ascii.eqb_spec c "/") as [-> | Hc].
    + rewrite join_cons by apply split_go_nonempty.
      cbn [String.length Nat.sub]. rewrite IH. reflexivity.
    + rewrite IH. unfold Py.str1. now rewrite append_assoc.
Qed.

Lemma split_join s : Py.join "/" (Py.split "/" s) = s.
Proof. apply split_go_join. Qed.

(** X4.  [parse_date] gives all four components or none.  It gives them
    exactly for the strings with two [/]; the day, the month and the
    year are then the three parts of the string, which they give back
    when joined with [/], and the short year is the last two characters
    of the year. *)
Theorem parse_date_components_rejoin (date_str : string) :
  match parse_date date_str with
  | (Some day, Some month, Some full_year, Some short_year) =>
      date_str = day ++ "/" ++ month ++ "/" ++ full_year
      /\ short_year = Py.last_two full_year
      /\ count_char "/" date_str = 2
  | (None, None, None, None) => count_char "/" date_str <> 2
  | _ => False
  end.
Proof.
  unfold parse_date.
  pose proof (split_slash_length date_str) as Hl.
  pose proof (split_join date_str) as Hj.
  destruct date_str as [|c s].
  - cbn. discriminate.
  - cbn [Py.truthy negb].
    destruct (Py.split "/" (String c s)) as [|p1 [|p2 [|p3 [|p4 l]]]];
      cbn [List.length] in Hl; cbv iota beta; try lia.
    repeat split; [now rewrite <- Hj | lia].
Qed.

(** X5.  [generate_numbers_from_date] returns no number or twelve, and
    twelve only for a string that [parse_date] splits into components
    whose day and month are accepted by [int]: a date that contributes
    numbers also has a day, a month and a year. *)
Theorem date_numbers_come_with_components (date_str : string) :
  generate_numbers_from_date date_str = []
  \/ (List.length (generate_numbers_from_date date_str) = 12%nat
      /\ exists day month full_year a b,
           parse_date date_str
           = (Some day, Some month, Some full_year,
              Some (Py.last_two full_year))
           /\ Py.int_of_str day = Some a
           /\ Py.int_of_str month = Some b).
Proof.
  unfold generate_numbers_from_date, parse_date.
  destruct date_str as [|c s]; [now left|].
  cbn [Py.truthy negb].
  destruct (Py.split "/" (String c s)) as [|p1 [|p2 [|p3 [|p4 l]]]];
    try (now left).
  destruct (Py.int_of_str p1) as [a|] eqn:Ea; [|now left].
  destruct (Py.int_of_str p2) as [b|] eqn:Eb; [|now left].
  right. split; [reflexivity|]. now exists p1, p2, p3, a, b.
Qed.

(** *** The parser *)

Lemma prefix_cons a p c s :
  String.prefix (String a p) (String c s)
  = Ascii.eqb c a && String.prefix p s.
Proof.
  change (String.prefix (String a p) (String c s))
    with (if ascii_dec a c then String.prefix p s else false).
  destruct (ascii_dec a c) as [<- | Hne].
  - now rewrite Ascii.eqb_refl.
  - destruct (Ascii.eqb_spec c a); [congruence | reflexivity].
Qed.

Lemma prefix_nil s : String.prefix EmptyString s = true.
Proof. destruct s; reflexivity. Qed.

(** Without budget the rest of the string goes into the last piece. *)
Lemma split_go_no_budget sep s :
  forall cur, Py.split_go sep (Some 0) 0 cur s = [cur ++ s].
Proof.
  induction s as [|c s IH]; intros cur.
  - cbn. now rewrite append_nil_r.
  - cbn [Py.split_go Py.budget_left andb]. rewrite IH.
    unfold Py.str1. now rewrite append_assoc.
Qed.

(** A string without the separator is its own single piece. *)
Lemma split_go_absent sep s :
  Py.contains sep s = false ->
  forall budget cur, Py.split_go sep budget 0 cur s = [cur ++ s].
Proof.
  induction s as [|c s IH]; intros Hc budget cur.
  - cbn. now rewrite append_nil_r.
  - cbn [Py.contains] in Hc. apply orb_false_iff in Hc.
    destruct Hc as [Hp Hc].
    cbn [Py.split_go]. rewrite Hp, andb_false_r, IH by exact Hc.
    unfold Py.str1. now rewrite append_assoc.
Qed.

(** With one-character separators, the number of pieces is one more
    than the number of separators, up to the budget. *)
Lemma split_go_colon_length s :
  forall n cur,
    List.length (Py.split_go ":" (Some n) 0 cur s)
    = S (Nat.min n (count_char ":" s)).
Proof.
  induction s as [|c s IH]; intros n cur.
  - cbn. now rewrite Nat.min_0_r.
  - cbn [Py.split_go count_char]. rewrite prefix_cons.
    rewrite prefix_nil, andb_true_r.
    destruct n as [|n].
    + cbn [Py.budget_left andb]. rewrite IH. reflexivity.
    + cbn [Py.budget_left andb Py.budget_pred Nat.pred String.length Nat.sub].
      destruct (Ascii.eqb c ":").
      * cbn [List.length]. rewrite IH. cbn [Nat.add Nat.min]. reflexivity.
      * rewrite IH. reflexivity.
Qed.

Lemma contains_colon_u_colon s :
  Py.contains ":u:" s = true -> 2 <= count_char ":" s.
Proof.
  induction s as [|c s IH]; intros Hc; [discriminate|].
  cbn [Py.contains] in Hc. apply orb_true_iff in Hc.
  destruct Hc as [Hp | Hc].
  - rewrite prefix_cons in Hp. apply andb_true_iff in Hp.
    destruct Hp as [Ec Hp]. cbn [count_char]. rewrite Ec.
    destruct s as [|c1 s]; [discriminate|].
    rewrite prefix_cons in Hp.
    apply andb_true_iff in Hp. destruct Hp as [_ Hp].
    destruct s as [|c2 s]; [discriminate|].
    rewrite prefix_cons in Hp.
    apply andb_true_iff in Hp. destruct Hp as [Ec2 _].
    cbn [count_char]. rewrite Ec2. lia.
  - cbn [count_char]. specialize (IH Hc). lia.
Qed.

Lemma split_go_nonempty_len sep budget skip cur s :
  1 <= List.length (Py.split_go sep budget skip cur s).
Proof.
  revert budget skip cur. induction s as [|c s IH]; intros budget skip cur;
    cbn [Py.split_go]; [cbn; lia|].
  destruct skip; [|apply IH].
  destruct (Py.budget_left budget && String.prefix sep (String c s));
    [cbn; lia | apply IH].
Qed.

Lemma split_go_present sep s :
  sep <> EmptyString -> Py.contains sep s = true ->
  forall cur, 2 <= List.length (Py.split_go sep None 0 cur s).
Proof.
  intros Hsep. induction s as [|c s IH]; intros Hc cur.
  - destruct sep; [contradiction | discriminate].
  - cbn [Py.contains] in Hc. cbn [Py.split_go Py.budget_left andb].
    destruct (String.prefix sep (String c s)).
    + cbn [List.length].
      pose proof (split_go_nonempty_len sep (Py.budget_pred None)
                    (String.length sep - 1) EmptyString s). lia.
    + apply IH. exact Hc.
Qed.

Lemma prefix_append p s :
  String.prefix p s = true -> s = p ++ Py.drop (String.length p) s.
Proof.
  revert s. induction p as [|a p IH]; intros s Hp; [reflexivity|].
  destruct s as [|c s]; [discriminate|].
  rewrite prefix_cons in Hp. apply andb_true_iff in Hp.
  destruct Hp as [Ec Hp]. apply Ascii.eqb_eq in Ec. subst c.
  cbn [String.length Py.drop append]. f_equal. now apply IH.
Qed.

(** X6.  The subscripts [parse_rule] takes of the pieces of a token are
    always in range: a token that contains [:u:] has a piece after it
    and, cut at its first two colons, a third part; a token that begins
    with [literal:], cut at its first colon, has a second part; and a
    cut never gives an empty list. *)
Theorem parse_rule_subscripts_in_range (token : string) :
  (Py.contains ":u:" token = true ->
   2 <= List.length (Py.split ":u:" token)
   /\ List.length (Py.split_max ":" 2 token) = 3)
  /\ (Py.startswith token "literal:" = true ->
      List.length (Py.split_max ":" 1 token) = 2)
  /\ 1 <= List.length (Py.split_max ":" 1 token).
Proof.
  split; [|split].
  - intros Hc. split.
    + apply split_go_present; [discriminate | exact Hc].
    + unfold Py.split_max. rewrite split_go_colon_length.
      apply contains_colon_u_colon in Hc. lia.
  - intros Hp. unfold Py.startswith in Hp.
    apply prefix_append in Hp.
    unfold Py.split_max. rewrite split_go_colon_length, Hp.
    cbn [append count_char Ascii.eqb Bool.eqb]. cbn. reflexivity.
  - apply split_go_nonempty_len.
Qed.

Lemma parse_rule_subscripts_witness :
  List.length (Py.split_max ":" 2 "stringX:u:1,L") = 3
  /\ List.length (Py.split_max ":" 1 "literal:a:b") = 2.
Proof.
  split.
  - destruct (parse_rule_subscripts_in_range "stringX:u:1,L") as (H & _).
    apply H. reflexivity.
  - destruct (parse_rule_subscripts_in_range "literal:a:b") as (_ & H & _).
    apply H. reflexivity.
Defined.

Lemma contains_after_literal v :
  Py.contains " + " ("literal:" ++ v) = Py.contains " + " v.
Proof.
  cbn [append Py.contains]. rewrite !prefix_cons. reflexivity.
Qed.

Lemma parse_token_literal v : parse_token ("literal:" ++ v) = tok_literal v.
Proof.
  unfold parse_token, Py.startswith.
  cbn [append]. rewrite !prefix_cons.
  cbn [Ascii.eqb Bool.eqb andb orb String.eqb].
  rewrite prefix_nil.
  unfold Py.split_max.
  cbn [Py.split_go Py.budget_left Py.budget_pred andb Nat.pred
       String.length Nat.sub].
  rewrite !prefix_cons.
  cbn [Ascii.eqb Bool.eqb andb append Py.str1].
  rewrite prefix_nil. cbn [andb Py.budget_pred Nat.pred].
  rewrite split_go_no_budget. reflexivity.
Qed.

(** X7.  A rule made of one literal token yields its value and nothing
    else: for every text [v] without the token separator, the rule
    [literal:v] is parsed into the single literal token [v], and its
    expansion is the candidate [v] alone (no candidate when [v] is
    empty), whatever the profile, the dates and the other inputs. *)
Theorem literal_rule_yields_its_value
        (v : string) (strings numbers : list string)
        (date_info_list : list date_info)
        (symbols common_numbers : option (list string))
        (has_spaces : bool) :
  Py.contains " + " v = false ->
  parse_rule ("literal:" ++ v) = [tok_literal v]
  /\ generate_passwords_from_rule (parse_rule ("literal:" ++ v))
       strings numbers date_info_list symbols common_numbers has_spaces
     = if Py.truthy v then [v] else [].
Proof.
  intros Hv.
  assert (E : parse_rule ("literal:" ++ v) = [tok_literal v]).
  { unfold parse_rule, Py.split.
    rewrite split_go_absent by (now rewrite contains_after_literal).
    cbn [append map]. now rewrite <- parse_token_literal. }
  split; [exact E|]. rewrite E.
  unfold generate_passwords_from_rule. cbn.
  destruct v; reflexivity.
Qed.

Lemma literal_rule_witness :
  generate_passwords_from_rule (parse_rule "literal:2024:x") ["anna"] ["7"]
    [] (Some DEFAULT_SYMBOLS) (Some DEFAULT_COMMON_NUMBERS) false
  = ["2024:x"].
Proof.
  apply (literal_rule_yields_its_value "2024:x"). reflexivity.
Defined.

(** *** The expander *)

Lemma fold_left_ext {A B} (f g : A -> B -> A) (l : list B) (a : A) :
  (forall x y, f x y = g x y) -> fold_left f l a = fold_left g l a.
Proof.
  intros E. revert a. induction l as [|y l IH]; intros a; simpl;
    [reflexivity|]. now rewrite E, IH.
Qed.

Lemma successors_forget_index vs ns sy cn date i t c :
  successors vs ns sy cn date i (forget_index t) c
  = successors vs ns sy cn date i t c.
Proof. destruct t; reflexivity. Qed.

Lemma expand_token_forget_index vs ns sy cn date i t configs :
  expand_token vs ns sy cn date i (forget_index t) configs
  = expand_token vs ns sy cn date i t configs.
Proof.
  unfold expand_token.
  rewrite (flat_map_ext _ _ (fun c => successors_forget_index
                                        vs ns sy cn date i t c)).
  destruct t; reflexivity.
Qed.

Lemma expand_tokens_forget_index vs ns sy cn date rule :
  forall i configs,
    expand_tokens vs ns sy cn date i (map forget_index rule) configs
    = expand_tokens vs ns sy cn date i rule configs.
Proof.
  induction rule as [|t rule IH]; intros i configs; [reflexivity|].
  cbn [map expand_tokens]. now rewrite expand_token_forget_index, IH.
Qed.

(** X8.  The index a string or character token carries is never read by
    the expander: a rule and the same rule with every index set back to
    1 generate the same candidates.  So [string2:u:A], which is parsed
    with index 2, generates what [string:u:A] generates. *)
Theorem expansion_ignores_token_index
        (rule : list token_rule) (strings numbers : list string)
        (date_info_list : list date_info)
        (symbols common_numbers : option (list string))
        (has_spaces : bool) :
  generate_passwords_from_rule (map forget_index rule) strings numbers
    date_info_list symbols common_numbers has_spaces
  = generate_passwords_from_rule rule strings numbers date_info_list
      symbols common_numbers has_spaces
  /\ parse_rule "string2:u:A" = [tok_string "u:A" 2%Z]
  /\ map forget_index (parse_rule "string2:u:A") = parse_rule "string:u:A".
Proof.
  split; [|split; reflexivity].
  unfold generate_passwords_from_rule.
  assert (Ed : existsb is_date_token (map forget_index rule)
               = existsb is_date_token rule).
  { induction rule as [|t rule IH]; [reflexivity|].
    cbn [map existsb]. rewrite IH. now destruct t. }
  assert (Eb : base_tokens (map forget_index rule) = base_tokens rule).
  { unfold base_tokens. rewrite map_map. apply map_ext.
    intros t. now destruct t. }
  rewrite Eb, Ed.
  destruct (existsb is_date_token rule).
  - apply fold_left_ext. intros all_passwords di.
    now rewrite expand_tokens_forget_index.
  - now rewrite expand_tokens_forget_index.
Qed.

(** *** The candidates of a rule *)

Lemma set_add_nodup x s : NoDup s -> NoDup (set_add x s).
Proof.
  intros Hs. unfold set_add, set_mem.
  destruct (existsb (String.eqb x) s) eqn:E; [exact Hs|].
  apply NoDup_app; [exact Hs | constructor; [intros [] | constructor] |].
  intros a Ha [Ea | []]. subst a.
  assert (existsb (String.eqb x) s = true); [|congruence].
  apply existsb_exists. exists x. split; [exact Ha | apply String.eqb_refl].
Qed.

Lemma set_add_in x y s : In y (set_add x s) -> y = x \/ In y s.
Proof.
  unfold set_add. destruct (set_mem x s); [now right|].
  intros H. apply in_app_or in H. destruct H as [H | [<- | []]]; auto.
Qed.

(** The set of candidates holds each candidate once, and never the empty
    string. *)
Lemma render_set sep configs acc :
  NoDup acc /\ Forall (fun p => p <> EmptyString) acc ->
  NoDup (render sep configs acc)
  /\ Forall (fun p => p <> EmptyString) (render sep configs acc).
Proof.
  unfold render. revert acc.
  induction configs as [|c configs IH]; intros acc [Hn Hf]; cbn [fold_left];
    [now split|].
  apply IH.
  destruct (Py.truthy (Py.join sep (map opt_str (fst c)))) eqn:Et;
    [|now split].
  split; [now apply set_add_nodup|].
  apply Forall_forall. intros p Hp. apply set_add_in in Hp.
  destruct Hp as [-> | Hp].
  - intros E. rewrite E in Et. discriminate.
  - rewrite Forall_forall in Hf. now apply Hf.
Qed.

Lemma generate_passwords_set rule strings numbers date_info_list
      symbols common_numbers has_spaces :
  NoDup (generate_passwords_from_rule rule strings numbers date_info_list
           symbols common_numbers has_spaces)
  /\ Forall (fun p => p <> EmptyString)
       (generate_passwords_from_rule rule strings numbers date_info_list
          symbols common_numbers has_spaces).
Proof.
  unfold generate_passwords_from_rule.
  assert (H0 : NoDup (@nil string)
               /\ Forall (fun p => p <> EmptyString) (@nil string))
    by (split; constructor).
  destruct (existsb is_date_token rule); [|now apply render_set].
  match goal with
  | |- context [fold_left ?f _ _] => set (step := f)
  end.
  assert (Hstep : forall l acc,
             NoDup acc /\ Forall (fun p => p <> EmptyString) acc ->
             NoDup (fold_left step l acc)
             /\ Forall (fun p => p <> EmptyString) (fold_left step l acc)).
  { induction l as [|di l IH]; intros acc Hacc; cbn [fold_left];
      [exact Hacc|].
    apply IH. unfold step. now apply render_set. }
  now apply Hstep.
Qed.

Lemma ok_meets (s : session) (p : string) :
  ok (min_length s) (max_length s) (must_include_uppercase s)
     (must_include_symbol s) p = true ->
  meets_constraints s p.
Proof.
  unfold ok. intros Hok.
  destruct (int_truthy (min_length s) && _) eqn:E1; [discriminate|].
  destruct (int_truthy (max_length s) && _) eqn:E2; [discriminate|].
  destruct (must_include_uppercase s && _) eqn:E3; [discriminate|].
  destruct (must_include_symbol s && _) eqn:E4; [discriminate|].
  clear Hok. repeat split.
  - intros m Hm Hm0. rewrite Hm in E1. cbn [int_truthy opt_int] in E1.
    apply andb_false_iff in E1. destruct E1 as [E1 | E1].
    + apply negb_false_iff, Z.eqb_eq in E1. contradiction.
    + now apply Z.ltb_ge in E1.
  - intros m Hm Hm0. rewrite Hm in E2. cbn [int_truthy opt_int] in E2.
    apply andb_false_iff in E2. destruct E2 as [E2 | E2].
    + apply negb_false_iff, Z.eqb_eq in E2. contradiction.
    + now apply Z.ltb_ge in E2.
  - intros Hu. rewrite Hu in E3. cbn [andb] in E3.
    now apply negb_false_iff in E3.
  - intros Hs. rewrite Hs in E4. cbn [andb] in E4.
    now apply negb_false_iff in E4.
Qed.

Lemma rule_passwords_set
      (order : set_order) (s : session) (rule_str : string) :
  NoDup (rule_passwords order s rule_str)
  /\ Forall (fun p => p <> EmptyString /\ meets_constraints s p)
       (rule_passwords order s rule_str).
Proof.
  unfold rule_passwords, filter_valid_passwords.
  match goal with
  | |- context [iterate order ?g] =>
      pose proof (iterate_perm order g) as Hperm;
      assert (Hset : NoDup g /\ Forall (fun p => p <> EmptyString) g)
        by apply generate_passwords_set;
      set (all_passwords := g) in *
  end.
  destruct Hset as [Hn Hf]. split.
  - apply NoDup_filter.
    eapply Permutation_NoDup; [apply Permutation_sym, Hperm | exact Hn].
  - apply Forall_forall. intros p Hp. apply filter_In in Hp.
    destruct Hp as [Hin Hok]. split.
    + rewrite Forall_forall in Hf. apply Hf.
      eapply Permutation_in; [exact Hperm | exact Hin].
    + now apply ok_meets.
Qed.

(** X9.  The candidates of a rule, as a run lists them: no candidate
    occurs twice, none is the empty string, and each meets the
    constraints of the session. *)
Theorem rule_candidates_are_distinct_and_valid
        (order : set_order) (s : session) (rule_str : string) :
  NoDup (rule_passwords order s rule_str)
  /\ Forall (fun p => p <> EmptyString /\ meets_constraints s p)
       (rule_passwords order s rule_str).
Proof. apply rule_passwords_set. Qed.

(** *** What a run writes and returns *)

Lemma Forall_skipn_all {A} (P : A -> Prop) n (l : list A) :
  Forall P l -> Forall P (skipn n l).
Proof.
  intros H. apply Forall_forall. intros x Hx.
  rewrite Forall_forall in H. apply H.
  rewrite <- (firstn_skipn n l). apply in_or_app. now right.
Qed.

Lemma Forall_slice_from {A} (P : A -> Prop) c (l : list A) :
  Forall P l -> Forall P (Py.slice_from c l).
Proof.
  intros H. unfold Py.slice_from.
  destruct (c <? 0)%Z; now apply Forall_skipn_all.
Qed.

Section RunFacts.

Variable order : set_order.
Variable rules : list string.
Variable password_limit : Z.
Variable s : session.

Lemma write_passwords_counted valid st :
  counted st -> counted (write_passwords password_limit valid st).
Proof.
  revert st. induction valid as [|pwd rest IH]; intros st Hst;
    cbn [write_passwords]; [exact Hst|].
  destruct (password_limit <=? total_written st)%Z; [exact Hst|].
  apply IH. destruct Hst as [Ht Hp]. unfold counted.
  cbn [total_written outfile preview_passwords].
  split; [rewrite length_app; cbn [List.length]; lia|].
  rewrite Hp, length_firstn, firstn_app.
  destruct (Nat.ltb_spec (Nat.min 100 (List.length (outfile st))) 100)
    as [Hlt | Hge].
  - rewrite firstn_all2 by lia.
    replace (100 - List.length (outfile st))
      with (S (99 - List.length (outfile st))) by lia.
    cbn [firstn]. now rewrite firstn_nil.
  - replace (100 - List.length (outfile st)) with 0 by lia.
    cbn [firstn]. now rewrite app_nil_r.
Qed.

Lemma walk_rules_counted fuel :
  forall st, counted st ->
             counted (snd (walk_rules order rules password_limit s fuel st)).
Proof.
  induction fuel as [|fuel IH]; intros st Hst; cbn [walk_rules].
  - destruct (_ && _); exact Hst.
  - destruct (_ && _); [|exact Hst].
    destruct (Py.index rules (rule_index_updated st)); [|exact Hst].
    cbv zeta.
    match goal with
    | |- context [write_passwords _ ?v st] =>
        pose proof (write_passwords_counted v st Hst) as Hw;
        set (st' := write_passwords password_limit v st) in *;
        set (valid := v) in *
    end.
    destruct (_ <=? _)%Z; [|exact Hw].
    apply IH. exact Hw.
Qed.

Variable P : string -> Prop.
Hypothesis rule_passwords_P :
  forall rule_str, Forall P (rule_passwords order s rule_str).

Lemma write_passwords_forall valid st :
  Forall P valid -> Forall P (outfile st) ->
  Forall P (outfile (write_passwords password_limit valid st)).
Proof.
  revert st. induction valid as [|pwd rest IH]; intros st Hv Hst;
    cbn [write_passwords]; [exact Hst|].
  destruct (password_limit <=? total_written st)%Z; [exact Hst|].
  inversion Hv; subst. apply IH; [assumption|].
  cbn [outfile]. apply Forall_app. split; [exact Hst|].
  now constructor.
Qed.

Lemma walk_rules_forall fuel :
  forall st,
    Forall P (outfile st) ->
    Forall P (outfile (snd (walk_rules order rules password_limit s
                                       fuel st))).
Proof.
  induction fuel as [|fuel IH]; intros st Hst; cbn [walk_rules].
  - destruct (_ && _); exact Hst.
  - destruct (_ && _); [|exact Hst].
    destruct (Py.index rules (rule_index_updated st)) as [rule_str|];
      [|exact Hst].
    cbv zeta.
    match goal with
    | |- context [write_passwords _ ?v st] =>
        assert (Hw : Forall P (outfile (write_passwords password_limit v st)));
        [apply write_passwords_forall; [|exact Hst]|
         set (st' := write_passwords password_limit v st) in *;
         set (valid := v) in *]
    end.
    { destruct (_ =? _)%Z; [apply Forall_slice_from|];
        apply rule_passwords_P. }
    destruct (_ <=? _)%Z; [|exact Hw].
    apply IH. exact Hw.
Qed.

End RunFacts.

Section Exhaustion.

Variable order : set_order.
Variable rules : list string.
Variable password_limit : Z.
Variable s : session.

(** A walk whose limit leaves room for more than the candidates before
    it goes through all the rules. *)
Lemma walk_rules_exhausts fuel :
  forall st,
    (0 <= current_rule_password_count s)%Z ->
    (current_rule_index s <= rule_index_updated st)%Z ->
    (0 <= rule_index_updated st <= total_rules rules)%Z ->
    (0 <= new_current_rule_password_count st)%Z ->
    Z.to_nat (total_rules rules - rule_index_updated st) <= fuel ->
    (Z.of_nat (List.length (remaining order rules s (rule_index_updated st)))
     < password_limit - total_written st)%Z ->
    rule_index_updated (snd (walk_rules order rules password_limit s fuel st))
    = total_rules rules.
Proof.
  induction fuel as [|fuel IH]; intros st Hc Hlo Hidx Hcnt Hfuel Hroom.
  - cbn [walk_rules].
    destruct (Z.ltb_spec (rule_index_updated st) (total_rules rules));
      [lia|]. rewrite andb_false_r. cbn [snd]. lia.
  - destruct ((total_written st <? password_limit)%Z
              && (rule_index_updated st <? total_rules rules)%Z) eqn:Ec.
    2: { cbn [walk_rules]. rewrite Ec. cbn [snd].
         apply andb_false_iff in Ec. destruct Ec as [Ec|Ec];
           apply Z.ltb_ge in Ec; lia. }
    apply andb_true_iff in Ec. destruct Ec as [Ec1 Ec2].
    destruct (index_in_range rules (rule_index_updated st))
      as [rule_str Hr].
    { apply Z.ltb_lt in Ec2. unfold total_rules in Ec2. lia. }
    rewrite (walk_rules_step order rules password_limit s fuel st rule_str
               Ec1 Ec2 Hr). cbv zeta.
    rewrite (remaining_step order rules s _ rule_str (proj1 Hidx) Hr)
      in Hroom.
    fold (candidates_at order s (rule_index_updated st) rule_str) in *.
    set (valid := candidates_at order s (rule_index_updated st) rule_str)
      in *.
    pose proof (write_passwords_spec password_limit valid st) as Hw.
    cbv zeta in Hw.
    set (st' := write_passwords password_limit valid st) in *.
    set (n := Z.to_nat (password_limit - total_written st)) in *.
    destruct Hw as (Ho & Ht & Hn & Hi).
    apply Z.ltb_lt in Ec1. apply Z.ltb_lt in Ec2.
    rewrite length_app in Hroom. rewrite length_firstn in *.
    destruct (Z.leb_spec (Z.of_nat (List.length valid))
                (new_current_rule_password_count st')) as [Ha|Ha]; [|lia].
    apply IH;
      cbn [next_rule rule_index_updated new_current_rule_password_count
           total_written]; try rewrite Hi; try lia.
    rewrite remaining_later by lia. lia.
Qed.

End Exhaustion.

Section RunProperties.

Context {W : Type} `{OutputFiles W}.
Variable OUTPUT_DIR : string.
Variable order : set_order.

Lemma walk_counted (s : session) (rules : list string) (password_limit : Z) :
  counted (snd (walk order rules password_limit s)).
Proof.
  unfold walk. apply walk_rules_counted.
  split; reflexivity.
Qed.

(** X10.  Every line a run writes to its output file is a candidate
    that is not empty and meets the constraints of the session,
    whatever the cursor and the limit are. *)
Theorem written_lines_meet_constraints
        (s : session) (rules : list string) (password_limit : Z)
        (p : string) :
  In p (emitted order s rules password_limit) ->
  p <> EmptyString /\ meets_constraints s p.
Proof.
  unfold emitted.
  destruct (total_rules rules <=? current_rule_index s)%Z; [intros []|].
  revert p. apply Forall_forall. unfold walk.
  apply walk_rules_forall; [|constructor].
  intros rule_str. apply rule_passwords_set.
Qed.

(** X11.  A run from a cursor within bounds returns, as the number
    written, the number of lines of its output file and, as preview,
    the first hundred of them; it never writes more lines than the
    limit. *)
Theorem run_returns_count_and_preview
        (s : session) (rules : list string) (password_limit : Z)
        (custom_output_name : option string) (w : W) :
  cursor_in_bounds rules s ->
  let lines := emitted order s rules password_limit in
  (exists final_filename u,
      fst (generate_to_file OUTPUT_DIR order s rules password_limit
                            custom_output_name w)
      = Returned (Z.of_nat (List.length lines)) final_filename
                 (firstn 100 lines) u)
  /\ (Z.of_nat (List.length lines) <= Z.max 0 password_limit)%Z.
Proof.
  intros Hb. cbv zeta. split.
  - destruct Hb as [Hidx Hcnt].
    destruct (Z.leb_spec (total_rules rules) (current_rule_index s))
      as [Hd|Hd].
    + rewrite generate_to_file_completed, emitted_completed by exact Hd.
      cbn. eauto.
    + rewrite emitted_walk by exact Hd.
      pose proof (walk_in_bounds order rules password_limit s Hidx Hcnt)
        as Hwalk. cbv zeta in Hwalk.
      pose proof (walk_counted s rules password_limit) as [Ht Hp].
      unfold generate_to_file.
      destruct (Z.leb_spec (total_rules rules) (current_rule_index s));
        [lia|].
      destruct (walk order rules password_limit s) as [e st].
      cbn [fst snd] in *. destruct Hwalk as (-> & _).
      cbn [fst]. rewrite Ht, Hp. eauto.
  - rewrite (emitted_pending order s rules password_limit Hb).
    rewrite length_firstn. lia.
Qed.

(** X12.  A run from a cursor within bounds writes the candidates still
    pending at the cursor (the rest of the rule the cursor is in, then
    the candidates of the rules after it, rule by rule) from the first
    on, as many as the limit allows. *)
Theorem run_writes_first_pending
        (s : session) (rules : list string) (password_limit : Z) :
  cursor_in_bounds rules s ->
  emitted order s rules password_limit
  = firstn (Z.to_nat password_limit) (pending order rules s).
Proof. apply emitted_pending. Qed.

Lemma remaining_at_cursor (s : session) (rules : list string) :
  remaining order rules s (current_rule_index s) = pending order rules s.
Proof.
  unfold remaining, pending, pending_at, candidates_at.
  now rewrite Z.eqb_refl.
Qed.

(** X14.  A run from a cursor within bounds whose limit is above the
    number of pending candidates writes all of them and leaves the
    session completed, its rule index at the number of rules. *)
Theorem run_above_pending_completes
        (s : session) (rules : list string) (password_limit : Z)
        (custom_output_name : option string) (w : W) :
  cursor_in_bounds rules s ->
  (Z.of_nat (List.length (pending order rules s)) < password_limit)%Z ->
  let s' := fst (run_session OUTPUT_DIR order rules password_limit
                             custom_output_name (s, w)) in
  emitted order s rules password_limit = pending order rules s
  /\ current_rule_index s' = total_rules rules
  /\ is_completed s' = true.
Proof.
  intros Hb Hk. cbv zeta. split.
  - rewrite (emitted_pending order s rules password_limit Hb).
    apply firstn_all2. lia.
  - destruct Hb as [Hidx Hcnt].
    destruct (Z.leb_spec (total_rules rules) (current_rule_index s))
      as [Hd|Hd].
    + rewrite run_session_completed by exact Hd. cbn. split; [lia|reflexivity].
    + pose proof (walk_in_bounds order rules password_limit s Hidx Hcnt)
        as Hwalk. cbv zeta in Hwalk.
      pose proof (walk_rules_exhausts order rules password_limit s
                    (rounds rules s) (initial_state s) Hcnt) as Hex.
      fold (walk order rules password_limit s) in Hex.
      destruct (walk order rules password_limit s) as [e st] eqn:Ew.
      cbn [fst snd] in Hwalk, Hex. destruct Hwalk as (He & _ & _). subst e.
      destruct (run_session_cursor OUTPUT_DIR order s rules password_limit
                  custom_output_name w st Hd Ew) as (C1 & _ & C3 & _).
      rewrite C1, C3.
      rewrite Hex;
        cbn [initial_state rule_index_updated total_written
             new_current_rule_password_count]; try lia.
      * unfold rounds. lia.
      * rewrite remaining_at_cursor. lia.
Qed.


(** X16.  What a run from a cursor within bounds does to the session:
    the profile, the constraints and the identifier stay as they were,
    the rule index does not go back, and the total generated grows by
    the number of lines written. *)
Theorem run_session_bookkeeping
        (s : session) (rules : list string) (password_limit : Z)
        (custom_output_name : option string) (w : W) :
  cursor_in_bounds rules s ->
  let s' := fst (run_session OUTPUT_DIR order rules password_limit
                             custom_output_name (s, w)) in
  session_id s' = session_id s
  /\ strings s' = strings s /\ dates s' = dates s
  /\ numbers s' = numbers s
  /\ min_length s' = min_length s /\ max_length s' = max_length s
  /\ must_include_uppercase s' = must_include_uppercase s
  /\ must_include_symbol s' = must_include_symbol s
  /\ (current_rule_index s <= current_rule_index s')%Z
  /\ total_generated s'
     = (total_generated s
        + Z.of_nat (List.length (emitted order s rules password_limit)))%Z.
Proof.
  intros [Hidx Hcnt]. cbv zeta.
  pose proof (run_session_profile OUTPUT_DIR order s rules password_limit
                custom_output_name w) as Hp. cbv zeta in Hp.
  destruct Hp as (P1 & P2 & P3 & P4 & P5 & P6 & P7).
  assert (Eid : session_id
                  (fst (run_session OUTPUT_DIR order rules password_limit
                                    custom_output_name (s, w)))
                = session_id s).
  { unfold run_session.
    destruct (generate_to_file OUTPUT_DIR order s rules password_limit
                custom_output_name w) as [[? ? ? ?|?] ?]; reflexivity. }
  repeat (split; [assumption|]).
  destruct (Z.leb_spec (total_rules rules) (current_rule_index s))
    as [Hd|Hd].
  - rewrite run_session_completed, emitted_completed by exact Hd.
    cbn. split; lia.
  - pose proof (walk_in_bounds order rules password_limit s Hidx Hcnt)
      as Hwalk. cbv zeta in Hwalk.
    pose proof (walk_counted s rules password_limit) as [Ht _].
    rewrite emitted_walk by exact Hd.
    destruct (walk order rules password_limit s) as [e st] eqn:Ew.
    cbn [fst snd] in *. destruct Hwalk as (He & Hi & _). subst e.
    destruct (run_session_cursor OUTPUT_DIR order s rules password_limit
                custom_output_name w st Hd Ew) as (C1 & _ & _ & C4).
    rewrite C1, C4, Ht. split; lia.
Qed.

End RunProperties.

(** *** The files of a run *)

Lemma read_file_head path lines fs :
  read_file path ((path, lines) :: fs) = Some lines.
Proof. unfold read_file. cbn. now rewrite String.eqb_refl. Qed.

Lemma read_file_other path q lines fs :
  q <> path -> read_file q ((path, lines) :: fs) = read_file q fs.
Proof.
  intros Hne. unfold read_file. cbn [find fst].
  destruct (String.eqb_spec path q); [congruence | reflexivity].
Qed.

Lemma read_file_removed path fs : read_file path (remove_file path fs) = None.
Proof.
  unfold read_file, remove_file.
  induction fs as [|[p l] fs IH]; [reflexivity|].
  cbn [filter fst]. destruct (String.eqb_spec p path) as [-> | Hne];
    cbn [negb]; [exact IH|].
  cbn [find fst]. destruct (String.eqb_spec p path); [contradiction|].
  exact IH.
Qed.

Lemma read_file_remove_other path q fs :
  q <> path -> read_file q (remove_file path fs) = read_file q fs.
Proof.
  intros Hne. unfold read_file, remove_file.
  induction fs as [|[p l] fs IH]; [reflexivity|].
  cbn [filter fst]. destruct (String.eqb_spec p path) as [-> | Hp];
    cbn [negb find fst].
  - destruct (String.eqb_spec path q); [congruence | exact IH].
  - destruct (String.eqb_spec p q); [reflexivity | exact IH].
Qed.


Lemma digits_cursor_in_bounds : cursor_in_bounds ["number"] digits_session.
Proof. unfold cursor_in_bounds. vm_compute. repeat split; discriminate. Qed.

Lemma written_lines_witness :
  In "3" (emitted insertion_order digits_session ["number"] 5)
  /\ "3" <> EmptyString /\ meets_constraints digits_session "3".
Proof.
  assert (Hin : In "3" (emitted insertion_order digits_session
                          ["number"] 5)).
  { vm_compute. auto 10. }
  split; [exact Hin|].
  exact (written_lines_meet_constraints insertion_order digits_session
           ["number"] 5 "3" Hin).
Defined.

Lemma run_returns_count_witness :
  cursor_in_bounds ["number"] digits_session
  /\ (Z.of_nat (List.length (emitted insertion_order digits_session
                               ["number"] 3))
      <= Z.max 0 3)%Z.
Proof.
  split; [exact digits_cursor_in_bounds|].
  exact (proj2 (run_returns_count_and_preview "out" insertion_order
                  digits_session ["number"] 3 None
                  (@nil (string * list string)) digits_cursor_in_bounds)).
Defined.

Lemma run_writes_first_pending_witness :
  cursor_in_bounds ["number"] digits_session
  /\ emitted insertion_order digits_session ["number"] 3
     = firstn 3 (pending insertion_order ["number"] digits_session).
Proof.
  split; [exact digits_cursor_in_bounds|].
  exact (run_writes_first_pending insertion_order digits_session
           ["number"] 3 digits_cursor_in_bounds).
Defined.

Lemma run_above_pending_witness :
  cursor_in_bounds ["number"] digits_session
  /\ (Z.of_nat (List.length (pending insertion_order ["number"]
                               digits_session)) < 11)%Z
  /\ is_completed
       (fst (run_session "out" insertion_order ["number"] 11 None
               (digits_session, @nil (string * list string)))) = true.
Proof.
  assert (Hk : (Z.of_nat (List.length (pending insertion_order ["number"]
                                         digits_session)) < 11)%Z).
  { vm_compute. reflexivity. }
  split; [exact digits_cursor_in_bounds|]. split; [exact Hk|].
  exact (proj2 (proj2 (run_above_pending_completes "out" insertion_order
                         digits_session ["number"] 11 None
                         (@nil (string * list string))
                         digits_cursor_in_bounds Hk))).
Defined.


Lemma run_session_bookkeeping_witness :
  cursor_in_bounds ["number"] digits_session
  /\ total_generated
       (fst (run_session "out" insertion_order ["number"] 3 None
               (digits_session, @nil (string * list string))))
     = (total_generated digits_session
        + Z.of_nat (List.length (emitted insertion_order digits_session
                                   ["number"] 3)))%Z.
Proof.
  split; [exact digits_cursor_in_bounds|].
  exact (proj2 (proj2 (proj2 (proj2 (proj2 (proj2 (proj2 (proj2 (proj2
           (run_session_bookkeeping "out" insertion_order digits_session
              ["number"] 3 None (@nil (string * list string))
              digits_cursor_in_bounds)))))))))).
Defined.



(** *** A complete run under two iteration orders *)

Lemma flat_map_permutation {A B} (f g : A -> list B) (l : list A) :
  (forall x, Permutation (f x) (g x)) ->
  Permutation (flat_map f l) (flat_map g l).
Proof.
  intros Hfg. induction l as [|x l IH]; simpl; [constructor|].
  now apply Permutation_app.
Qed.

Lemma pending_same_candidates (o1 o2 : set_order) (rules : list string)
      (s : session) :
  current_rule_password_count s = 0%Z ->
  Permutation (pending o1 rules s) (pending o2 rules s).
Proof.
  intros Hc. unfold pending. rewrite Hc, !pending_at_start. unfold later.
  apply flat_map_permutation. intros r.
  apply rule_passwords_same_candidates.
Qed.

(** X18.  A run that starts at the beginning of a rule, from a cursor
    within bounds, with a limit above the number of pending candidates,
    writes the same candidates whatever order sets are iterated in:
    the outputs under two orders are permutations of each other. *)
Theorem complete_run_same_candidates_in_any_order
        (o1 o2 : set_order) (s : session) (rules : list string)
        (password_limit : Z) :
  cursor_in_bounds rules s ->
  current_rule_password_count s = 0%Z ->
  (Z.of_nat (List.length (pending o1 rules s)) < password_limit)%Z ->
  Permutation (emitted o1 s rules password_limit)
              (emitted o2 s rules password_limit).
Proof.
  intros Hb Hc Hk.
  pose proof (pending_same_candidates o1 o2 rules s Hc) as Hp.
  pose proof (Permutation_length Hp) as Hl.
  rewrite !emitted_pending by exact Hb.
  rewrite !firstn_all2 by lia. exact Hp.
Qed.

Lemma complete_run_any_order_witness :
  cursor_in_bounds ["number"] digits_session
  /\ current_rule_password_count digits_session = 0%Z
  /\ (Z.of_nat (List.length (pending insertion_order ["number"]
                               digits_session)) < 11)%Z
  /\ Permutation (emitted insertion_order digits_session ["number"] 11)
                 (emitted reverse_order digits_session ["number"] 11).
Proof.
  assert (Hk : (Z.of_nat (List.length (pending insertion_order ["number"]
                                         digits_session)) < 11)%Z).
  { vm_compute. reflexivity. }
  split; [exact digits_cursor_in_bounds|]. split; [reflexivity|].
  split; [exact Hk|].
  exact (complete_run_same_candidates_in_any_order insertion_order
           reverse_order digits_session ["number"] 11
           digits_cursor_in_bounds eq_refl Hk).
Defined.

(** *** A date given twice *)

Lemma set_mem_add x y s :
  set_mem x (set_add y s) = String.eqb x y || set_mem x s.
Proof.
  unfold set_add. destruct (set_mem y s) eqn:Ey.
  - destruct (String.eqb_spec x y) as [-> | Hne]; [|reflexivity].
    now rewrite Ey.
  - unfold set_mem. rewrite existsb_app. cbn [existsb].
    rewrite orb_false_r. apply orb_comm.
Qed.

Lemma set_add_present x s : set_mem x s = true -> set_add x s = s.
Proof. intros Hx. unfold set_add. now rewrite Hx. Qed.

Lemma render_keeps sep configs p :
  forall acc, set_mem p acc = true ->
              set_mem p (render sep configs acc) = true.
Proof.
  unfold render. induction configs as [|c configs IH]; intros acc Hp;
    cbn [fold_left]; [exact Hp|].
  apply IH. destruct (Py.truthy _); [|exact Hp].
  rewrite set_mem_add, Hp. apply orb_true_r.
Qed.

Lemma render_holds sep configs c :
  In c configs ->
  Py.truthy (Py.join sep (map opt_str (fst c))) = true ->
  forall acc,
    set_mem (Py.join sep (map opt_str (fst c))) (render sep configs acc)
    = true.
Proof.
  intros Hin Ht. induction configs as [|c' configs IH]; [destruct Hin|].
  intros acc. destruct Hin as [-> | Hin].
  - unfold render. cbn [fold_left]. rewrite Ht.
    apply (render_keeps sep configs). rewrite set_mem_add.
    now rewrite String.eqb_refl.
  - unfold render. cbn [fold_left]. now apply IH.
Qed.

Lemma render_absorbed sep configs acc :
  (forall c, In c configs ->
             Py.truthy (Py.join sep (map opt_str (fst c))) = true ->
             set_mem (Py.join sep (map opt_str (fst c))) acc = true) ->
  render sep configs acc = acc.
Proof.
  unfold render. induction configs as [|c configs IH]; intros Hall;
    cbn [fold_left]; [reflexivity|].
  destruct (Py.truthy _) eqn:Et.
  - rewrite set_add_present by (apply Hall; [now left | exact Et]).
    apply IH. intros c' Hc'. apply Hall. now right.
  - apply IH. intros c' Hc'. apply Hall. now right.
Qed.

(** X19.  A date that is given twice contributes nothing the second
    time: adding to the date list a date it already holds leaves the
    candidates of every rule as they were. *)
Theorem repeated_date_adds_nothing
        (rule : list token_rule) (strings numbers : list string)
        (date_info_list : list date_info) (di : date_info)
        (symbols common_numbers : option (list string))
        (has_spaces : bool) :
  In di date_info_list ->
  generate_passwords_from_rule rule strings numbers
    (date_info_list ++ [di])%list symbols common_numbers has_spaces
  = generate_passwords_from_rule rule strings numbers date_info_list
      symbols common_numbers has_spaces.
Proof.
  intros Hin. unfold generate_passwords_from_rule.
  destruct (existsb is_date_token rule); [|reflexivity].
  match goal with
  | |- context [fold_left ?f _ _] => set (step := f)
  end.
  rewrite fold_left_app. cbn [fold_left].
  assert (Hkeep : forall l p acc,
             set_mem p acc = true -> set_mem p (fold_left step l acc) = true).
  { induction l as [|d l IH]; intros p acc Hp; cbn [fold_left];
      [exact Hp|].
    apply IH. unfold step. now apply render_keeps. }
  apply in_split in Hin. destruct Hin as (l1 & l2 & ->).
  generalize (@nil string). intros acc0.
  rewrite fold_left_app. cbn [fold_left].
  unfold step at 1. apply render_absorbed. intros c Hc Ht.
  apply Hkeep. unfold step at 1. now apply render_holds.
Qed.

Lemma repeated_date_witness :
  In {| components := parse_date "1/2/2003";
          date_numbers := generate_numbers_from_date "1/2/2003" |}
     [{| components := parse_date "1/2/2003";
          date_numbers := generate_numbers_from_date "1/2/2003" |}]
  /\ generate_passwords_from_rule (parse_rule "string: + year") ["anna"] []
       ([{| components := parse_date "1/2/2003";
          date_numbers := generate_numbers_from_date "1/2/2003" |}]
        ++ [{| components := parse_date "1/2/2003";
          date_numbers := generate_numbers_from_date "1/2/2003" |}])%list
       (Some DEFAULT_SYMBOLS) (Some DEFAULT_COMMON_NUMBERS) false
     = generate_passwords_from_rule (parse_rule "string: + year") ["anna"] []
         [{| components := parse_date "1/2/2003";
          date_numbers := generate_numbers_from_date "1/2/2003" |}]
         (Some DEFAULT_SYMBOLS) (Some DEFAULT_COMMON_NUMBERS) false.
Proof.
  assert (Hin : In {| components := parse_date "1/2/2003";
          date_numbers := generate_numbers_from_date "1/2/2003" |}
                   [{| components := parse_date "1/2/2003";
          date_numbers := generate_numbers_from_date "1/2/2003" |}])
    by (left; reflexivity).
  split; [exact Hin|].
  exact (repeated_date_adds_nothing (parse_rule "string: + year") ["anna"] []
           _ _ (Some DEFAULT_SYMBOLS) (Some DEFAULT_COMMON_NUMBERS) false
           Hin).
Defined.

(** *** Decimal numerals *)

Lemma string_of_uint_digits d :
  digits_only (NilEmpty.string_of_uint d) = true.
Proof.
  induction d; cbn [NilEmpty.string_of_uint digits_only]; [reflexivity|..];
    rewrite IHd; reflexivity.
Qed.

Lemma str_of_int_digits n :
  (0 <= n)%Z ->
  digits_only (Py.str_of_int n) = true
  /\ Py.str_of_int n <> EmptyString.
Proof.
  intros Hn. unfold Py.str_of_int.
  destruct n as [|p|p]; [split; [reflexivity | discriminate] | | lia].
  cbn [Z.to_int NilZero.string_of_int].
  pose proof (DecimalPos.Unsigned.to_uint_nonnil p) as Hnil.
  destruct (Pos.to_uint p) as [|d|d|d|d|d|d|d|d|d|d] eqn:E;
    [contradiction|..];
    (split; [apply (string_of_uint_digits (_ d)) | discriminate]).
Qed.

Lemma digits_go_acc d :
  forall p,
    Py.digits_go (Z.pos p) true (NilEmpty.string_of_uint d)
    = Some (Z.pos (Pos.of_uint_acc d p)).
Proof.
  induction d; intros p; cbn [NilEmpty.string_of_uint Pos.of_uint_acc];
    [reflexivity|..];
    unfold Py.digits_go; fold Py.digits_go;
    change (Py.char_isdigit _) with true; cbv iota;
    (rewrite <- IHd;
     match goal with
     | |- context [Py.digit_val ?c] =>
         let v := eval vm_compute in (Py.digit_val c) in
         change (Py.digit_val c) with v
     end;
     f_equal; lia).
Qed.

Lemma digits_go_uint d :
  Py.digits_go 0 true (NilEmpty.string_of_uint d)
  = Some (Z.of_N (Pos.of_uint d)).
Proof.
  induction d; cbn [NilEmpty.string_of_uint Pos.of_uint];
    [reflexivity|..];
    unfold Py.digits_go; fold Py.digits_go;
    change (Py.char_isdigit _) with true; cbv iota;
    match goal with
    | |- context [Py.digit_val ?c] =>
        let v := eval vm_compute in (Py.digit_val c) in
        change (Py.digit_val c) with v
    end;
    cbn [Z.mul Z.add]; [exact IHd|..]; apply digits_go_acc.
Qed.

(** On a numeral, the conversion begins with its first digit. *)
Lemma digits_go_first acc s :
  digits_only s = true -> s <> EmptyString ->
  Py.digits_go acc false s = Py.digits_go acc true s.
Proof.
  destruct s as [|c s]; [contradiction|]. cbn [digits_only].
  intros Hd _. apply andb_true_iff in Hd. destruct Hd as [Hc _].
  cbn [Py.digits_go]. now rewrite Hc.
Qed.

Lemma lstrip_digits s :
  digits_only s = true -> Py.lstrip_by Py.char_isspace_int s = s.
Proof.
  destruct s as [|c s]; [reflexivity|]. cbn [digits_only Py.lstrip_by].
  intros Hd. apply andb_true_iff in Hd. destruct Hd as [Hc _].
  replace (Py.char_isspace_int c) with false; [reflexivity|].
  revert Hc. each_ascii c; vm_compute; congruence.
Qed.

Lemma rstrip_digits s :
  digits_only s = true -> Py.rstrip_by Py.char_isspace_int s = s.
Proof.
  induction s as [|c s IH]; [reflexivity|]. cbn [digits_only Py.rstrip_by].
  intros Hd. apply andb_true_iff in Hd. destruct Hd as [Hc Hs].
  rewrite (IH Hs). destruct s; [|reflexivity].
  replace (Py.char_isspace_int c) with false; [reflexivity|].
  revert Hc. each_ascii c; vm_compute; congruence.
Qed.

(** [int] on a numeral reads its digits. *)
Lemma int_of_str_digits s :
  digits_only s = true -> s <> EmptyString ->
  Py.int_of_str s = Py.digits_go 0 true s.
Proof.
  intros Hd Hne. unfold Py.int_of_str.
  rewrite (lstrip_digits s Hd), (rstrip_digits s Hd).
  rewrite <- (digits_go_first 0 s Hd Hne).
  destruct s as [|c s]; [contradiction|].
  cbn [digits_only] in Hd. apply andb_true_iff in Hd.
  destruct Hd as [Hc _].
  revert Hc. each_ascii c; intros Hc; try (vm_compute in Hc; discriminate Hc); reflexivity.
Qed.

(** Rendering then reading an integer that is not negative gives it
    back. *)
Lemma int_of_str_of_int n :
  (0 <= n)%Z -> Py.int_of_str (Py.str_of_int n) = Some n.
Proof.
  intros Hn. destruct (str_of_int_digits n Hn) as [Hd Hne].
  rewrite (int_of_str_digits _ Hd Hne). unfold Py.str_of_int.
  destruct n as [|p|p]; [reflexivity | | lia].
  cbn [Z.to_int NilZero.string_of_int].
  pose proof (DecimalPos.Unsigned.to_uint_nonnil p) as Hnil.
  pose proof (DecimalPos.Unsigned.of_to p) as Hof.
  destruct (Pos.to_uint p) as [|d|d|d|d|d|d|d|d|d|d] eqn:E;
    [contradiction|..];
    cbn [NilZero.string_of_uint]; rewrite digits_go_uint, Hof;
    reflexivity.
Qed.

(** *** The names of the output files *)

Lemma span_digits_numeral ds c rest :
  digits_only ds = true -> Py.char_isdigit c = false ->
  span_digits (ds ++ String c rest) = (ds, String c rest).
Proof.
  intros Hd Hc. induction ds as [|a ds IH].
  - cbn [append span_digits]. now rewrite Hc.
  - cbn [digits_only] in Hd. apply andb_true_iff in Hd.
    destruct Hd as [Ha Hd]. cbn [append span_digits].
    now rewrite Ha, (IH Hd).
Qed.

Lemma span_digits_fst s : digits_only (fst (span_digits s)) = true.
Proof.
  induction s as [|c s IH]; [reflexivity|]. cbn [span_digits].
  destruct (Py.char_isdigit c) eqn:Ec; [|reflexivity].
  destruct (span_digits s) as [ds rest]. cbn [fst digits_only] in *.
  now rewrite Ec.
Qed.

Lemma prefix_app p r : String.prefix p (p ++ r) = true.
Proof.
  induction p as [|a p IH]; [apply prefix_nil|].
  cbn [append]. now rewrite prefix_cons, Ascii.eqb_refl, IH.
Qed.

Lemma drop_app p r : Py.drop (String.length p) (p ++ r) = r.
Proof. induction p as [|a p IH]; [reflexivity | exact IH]. Qed.

Lemma truthy_nonempty s : s <> EmptyString -> Py.truthy s = true.
Proof. destruct s; [contradiction | reflexivity]. Qed.

(** The pattern of the run files recognises the name the program gives
    to an output file, and finds the run number in it. *)
Lemma match_run_file_auto sid t run :
  (0 <= t)%Z -> (0 <= run)%Z ->
  match_run_file sid
    (Py.str_of_int t ++ "_passwords_" ++ sid ++ "_run"
       ++ Py.str_of_int run ++ ".txt")
  = Some (Py.str_of_int run).
Proof.
  intros Ht Hrun.
  destruct (str_of_int_digits t Ht) as [Hdt Hnt].
  destruct (str_of_int_digits run Hrun) as [Hdr Hnr].
  unfold match_run_file.
  change (Py.str_of_int t ++ "_passwords_" ++ sid ++ "_run"
            ++ Py.str_of_int run ++ ".txt")
    with (Py.str_of_int t
            ++ String "_" ("passwords_" ++ sid ++ "_run"
                             ++ Py.str_of_int run ++ ".txt")).
  rewrite (span_digits_numeral _ "_" _ Hdt eq_refl).
  rewrite (truthy_nonempty _ Hnt). cbn [andb].
  change (String "_" ("passwords_" ++ sid ++ "_run"
                        ++ Py.str_of_int run ++ ".txt"))
    with ("_passwords_" ++ sid ++ "_run" ++ Py.str_of_int run ++ ".txt").
  replace ("_passwords_" ++ sid ++ "_run" ++ Py.str_of_int run ++ ".txt")
    with (("_passwords_" ++ sid ++ "_run")
            ++ Py.str_of_int run ++ ".txt")
    by (now rewrite !append_assoc).
  unfold Py.startswith. rewrite prefix_app, drop_app.
  change (Py.str_of_int run ++ ".txt")
    with (Py.str_of_int run ++ String "." "txt").
  rewrite (span_digits_numeral _ "." _ Hdr eq_refl).
  now rewrite (truthy_nonempty _ Hnr).
Qed.

Lemma fold_max_bounds (l : list Z) :
  forall r, (r <= fold_left Z.max l r)%Z
            /\ forall x, In x l -> (x <= fold_left Z.max l r)%Z.
Proof.
  induction l as [|y l IH]; intros r; cbn [fold_left].
  - split; [lia | intros x []].
  - destruct (IH (Z.max r y)) as [H1 H2]. split; [lia|].
    intros x [<- | Hx]; [lia | now apply H2].
Qed.

Lemma next_run_index_above (runs : list Z) (x : Z) :
  In x runs -> (x < next_run_index runs)%Z.
Proof.
  destruct runs as [|r rest]; [intros []|]. cbn [next_run_index].
  destruct (fold_max_bounds rest r) as [H1 H2].
  intros [<- | Hx]; [lia|]. specialize (H2 x Hx). lia.
Qed.

Lemma digits_go_nonneg s :
  forall acc b n, (0 <= acc)%Z -> Py.digits_go acc b s = Some n -> (0 <= n)%Z.
Proof.
  induction s as [|c s IH]; intros acc b n Hacc; cbn [Py.digits_go].
  - destruct b; [intros [= <-]; exact Hacc | discriminate].
  - destruct (Py.char_isdigit c).
    + apply IH. unfold Py.digit_val. lia.
    + destruct (_ && _); [now apply IH | discriminate].
Qed.

Lemma existing_runs_nonneg sid names x :
  In x (existing_runs sid names) -> (0 <= x)%Z.
Proof.
  unfold existing_runs. intros Hx. apply in_flat_map in Hx.
  destruct Hx as (fname & _ & Hx). unfold match_run_file in Hx.
  destruct (span_digits fname) as [d1 r1].
  destruct (Py.truthy d1 && Py.startswith r1 _); [|destruct Hx].
  pose proof (span_digits_fst
                (Py.drop (String.length ("_passwords_" ++ sid ++ "_run")) r1))
    as Hd.
  destruct (span_digits _) as [d2 r2]. cbn [fst] in Hd.
  destruct (Py.truthy d2 && Py.startswith r2 ".txt") eqn:Et; [|destruct Hx].
  apply andb_true_iff in Et. destruct Et as [Et _].
  rewrite int_of_str_digits in Hx
    by (try assumption; intros ->; discriminate).
  destruct (Py.digits_go 0 true d2) as [n|] eqn:En; [|destruct Hx].
  destruct Hx as [<- | []]. eapply digits_go_nonneg; [|exact En]. lia.
Qed.

Lemma next_run_index_positive sid names :
  (1 <= next_run_index (existing_runs sid names))%Z.
Proof.
  destruct (existing_runs sid names) as [|r rest] eqn:E; [cbn; lia|].
  assert (Hr : (0 <= r)%Z).
  { apply (existing_runs_nonneg sid names). rewrite E. now left. }
  cbn [next_run_index]. destruct (fold_max_bounds rest r) as [H1 _]. lia.
Qed.

(** The name the program gives to an output file is not the name of a
    file its directory listing holds. *)
Lemma auto_name_is_new sid names t :
  (0 <= t)%Z ->
  ~ In (Py.str_of_int t ++ "_passwords_" ++ sid ++ "_run"
          ++ Py.str_of_int (next_run_index (existing_runs sid names))
          ++ ".txt") names.
Proof.
  intros Ht Hin.
  pose proof (next_run_index_positive sid names) as Hpos.
  set (run := next_run_index (existing_runs sid names)) in *.
  assert (Hrun : In run (existing_runs sid names)).
  { unfold existing_runs. apply in_flat_map. eexists. split; [exact Hin|].
    rewrite match_run_file_auto by lia.
    rewrite int_of_str_of_int by lia. now left. }
  apply next_run_index_above in Hrun. fold run in Hrun. lia.
Qed.

Section AutoNames.

Context {W : Type} `{OutputFiles W}.
Variable OUTPUT_DIR : string.
Variable order : set_order.


End AutoNames.


(** *** The session store *)

Lemma update_first_found sid u now sessions found sessions' :
  Sessions.update_first sid u now sessions = Some (found, sessions') ->
  exists before old after,
    sessions = (before ++ old :: after)%list
    /\ sessions' = (before ++ found :: after)%list
    /\ session_id (stored old) = sid
    /\ Forall (fun s => session_id (stored s) <> sid) before
    /\ found = {| created_at := created_at old;
                  updated_at := now;
                  stored := update_session (stored old) u |}.
Proof.
  revert found sessions'.
  induction sessions as [|s rest IH]; intros found sessions' Hu;
    [discriminate|].
  cbn [Sessions.update_first] in Hu.
  destruct (String.eqb_spec (session_id (stored s)) sid) as [E | Hne].
  - injection Hu as <- <-.
    exists [], s, rest. repeat split; auto.
  - destruct (Sessions.update_first sid u now rest) as [[f r]|];
      [|discriminate].
    injection Hu as <- <-.
    destruct (IH f r eq_refl) as (before & old & after & -> & -> & H3 & H4 & H5).
    exists (s :: before), old, after. repeat split; auto.
Qed.

Lemma update_first_missing sid u now sessions :
  Sessions.update_first sid u now sessions = None
  <-> Forall (fun s => session_id (stored s) <> sid) sessions.
Proof.
  induction sessions as [|s rest IH]; cbn [Sessions.update_first].
  - split; [constructor | reflexivity].
  - destruct (String.eqb_spec (session_id (stored s)) sid) as [E | Hne].
    + split; [discriminate|]. intros Hf. inversion Hf; subst. contradiction.
    + destruct (Sessions.update_first sid u now rest) as [[f r]|].
      * split; [discriminate|]. intros Hf. inversion Hf; subst.
        apply IH in H2. discriminate.
      * split; [|reflexivity]. intros _. constructor; [exact Hne|].
        now apply IH.
Qed.

Lemma find_over_app {A} (p : A -> bool) (l1 l2 : list A) :
  find p (l1 ++ l2)
  = match find p l1 with Some x => Some x | None => find p l2 end.
Proof.
  induction l1 as [|x l1 IH]; [reflexivity|]. cbn [app find].
  destruct (p x); [reflexivity | exact IH].
Qed.

Lemma find_none_forall {A} (p : A -> bool) (l : list A) :
  Forall (fun x => p x = false) l -> find p l = None.
Proof.
  induction 1 as [|x l Hx _ IH]; [reflexivity|]. cbn [find]. now rewrite Hx.
Qed.

Lemma update_session_keeps_id (s : session) (u : updates) :
  session_id (update_session s u) = session_id s.
Proof. reflexivity. Qed.

Lemma update_then_lookup sid u now f found f' :
  Sessions.update_session sid u now f = (Some found, f') ->
  exists old,
    Sessions.load_session_by_id sid f = Some old
    /\ found = {| created_at := created_at old;
                  updated_at := now;
                  stored := update_session (stored old) u |}
    /\ Sessions.load_session_by_id sid f' = Some found
    /\ (forall sid', sid' <> sid ->
                     Sessions.load_session_by_id sid' f'
                     = Sessions.load_session_by_id sid' f)
    /\ map (fun s => session_id (stored s)) (Sessions.load_sessions f')
       = map (fun s => session_id (stored s)) (Sessions.load_sessions f).
Proof.
  unfold Sessions.update_session, Sessions.load_session_by_id.
  destruct (Sessions.update_first sid u now (Sessions.load_sessions f))
    as [[fd l']|] eqn:Eu; [|discriminate].
  intros [= -> <-].
  apply update_first_found in Eu.
  destruct Eu as (before & old & after & E & -> & Hid & Hb & ->).
  rewrite E. cbn [Sessions.load_sessions Sessions.save_sessions].
  assert (Hskip : find (fun s => String.eqb (session_id (stored s)) sid)
                       before = None).
  { apply find_none_forall. eapply Forall_impl; [|exact Hb].
    intros s Hs. cbn beta in *. now apply String.eqb_neq. }
  exists old. rewrite !find_over_app, Hskip. cbn [find stored].
  rewrite update_session_keeps_id, Hid, String.eqb_refl.
  repeat split.
  - intros sid' Hne. rewrite !find_over_app. cbn [find stored].
    rewrite update_session_keeps_id, Hid.
    destruct (String.eqb_spec sid sid'); [congruence | reflexivity].
  - rewrite !map_app. cbn [map stored].
    now rewrite update_session_keeps_id.
Qed.

(** X21.  A successful [update_session] changes the first stored
    session with the identifier and nothing else: looking the
    identifier up afterwards gives the returned session, which is the
    old one with the given entries replaced and the time of the update;
    every other identifier is looked up as before, and the sessions
    keep their number and order. *)
Theorem update_session_then_lookup
        (sid : string) (u : updates) (now : string) (f : sessions_file)
        (found : stored_session) (f' : sessions_file) :
  Sessions.update_session sid u now f = (Some found, f') ->
  exists old,
    Sessions.load_session_by_id sid f = Some old
    /\ found = {| created_at := created_at old;
                  updated_at := now;
                  stored := update_session (stored old) u |}
    /\ Sessions.load_session_by_id sid f' = Some found
    /\ (forall sid', sid' <> sid ->
                     Sessions.load_session_by_id sid' f'
                     = Sessions.load_session_by_id sid' f)
    /\ map (fun s => session_id (stored s)) (Sessions.load_sessions f')
       = map (fun s => session_id (stored s)) (Sessions.load_sessions f).
Proof. apply update_then_lookup. Qed.

Lemma lookup_none_forall sid f :
  Sessions.load_session_by_id sid f = None
  <-> Forall (fun s => session_id (stored s) <> sid)
             (Sessions.load_sessions f).
Proof.
  unfold Sessions.load_session_by_id.
  induction (Sessions.load_sessions f) as [|s l IH]; cbn [find].
  - split; [constructor | reflexivity].
  - destruct (String.eqb_spec (session_id (stored s)) sid) as [E | Hne].
    + split; [discriminate|]. intros Hf. inversion Hf; subst. contradiction.
    + rewrite IH. split; [now constructor|].
      intros Hf. now inversion Hf.
Qed.

Lemma update_missing sid u now f :
  Sessions.load_session_by_id sid f = None
  <-> Sessions.update_session sid u now f = (None, f).
Proof.
  rewrite lookup_none_forall, <- (update_first_missing sid u now).
  unfold Sessions.update_session.
  destruct (Sessions.update_first sid u now (Sessions.load_sessions f))
    as [[fd l']|]; split; try discriminate; reflexivity.
Qed.

(** X22.  [update_session] raises [FileNotFoundError] exactly when no
    stored session has the identifier, and it then leaves the file as
    it is; this is so for every identifier when the file is missing,
    cannot be read or does not hold a list. *)
Theorem update_of_missing_session
        (sid : string) (u : updates) (now : string) (f : sessions_file) :
  (Sessions.load_session_by_id sid f = None
   <-> Sessions.update_session sid u now f = (None, f))
  /\ Sessions.update_session sid u now NoFile = (None, NoFile)
  /\ Sessions.update_session sid u now Unreadable = (None, Unreadable)
  /\ Sessions.update_session sid u now NotAList = (None, NotAList).
Proof.
  split; [apply update_missing | repeat split; reflexivity].
Qed.

Lemma create_then_lookup data fresh_id created updated f :
  let session :=
    fst (Sessions.create_session data fresh_id created updated f) in
  let f' := snd (Sessions.create_session data fresh_id created updated f) in
  let sid := session_id (stored session) in
  Sessions.load_sessions f' = (Sessions.load_sessions f ++ [session])%list
  /\ sid = get_or (data_session_id data) fresh_id
  /\ current_rule_index (stored session) = 0%Z
  /\ current_rule_password_count (stored session) = 0%Z
  /\ is_completed (stored session) = false
  /\ (Sessions.load_session_by_id sid f = None ->
      Sessions.load_session_by_id sid f' = Some session)
  /\ (forall old, Sessions.load_session_by_id sid f = Some old ->
                  Sessions.load_session_by_id sid f' = Some old)
  /\ (forall sid', sid' <> sid ->
                   Sessions.load_session_by_id sid' f'
                   = Sessions.load_session_by_id sid' f).
Proof.
  cbv zeta. unfold Sessions.create_session, Sessions.load_session_by_id.
  cbn [fst snd Sessions.load_sessions Sessions.save_sessions stored
       session_id current_rule_index current_rule_password_count
       is_completed].
  repeat split.
  - intros Hn. rewrite find_over_app, Hn. cbn [find stored session_id].
    now rewrite String.eqb_refl.
  - intros old Ho. now rewrite find_over_app, Ho.
  - intros sid' Hne. rewrite find_over_app. cbn [find stored session_id].
    destruct (String.eqb_spec (get_or (data_session_id data) fresh_id) sid');
      [congruence|].
    now destruct (find _ (Sessions.load_sessions f)).
Qed.

(** X23.  [create_session] appends to the stored sessions a session
    with the given profile whose cursor is at the beginning and which
    is not completed.  Looking its identifier up afterwards gives the
    new session when no stored session had the identifier, and the
    older session otherwise; every other identifier is looked up as
    before. *)
Theorem create_session_then_lookup
        (data : session_data) (fresh_id created updated : string)
        (f : sessions_file) :
  let session :=
    fst (Sessions.create_session data fresh_id created updated f) in
  let f' := snd (Sessions.create_session data fresh_id created updated f) in
  let sid := session_id (stored session) in
  Sessions.load_sessions f' = (Sessions.load_sessions f ++ [session])%list
  /\ sid = get_or (data_session_id data) fresh_id
  /\ current_rule_index (stored session) = 0%Z
  /\ current_rule_password_count (stored session) = 0%Z
  /\ is_completed (stored session) = false
  /\ (Sessions.load_session_by_id sid f = None ->
      Sessions.load_session_by_id sid f' = Some session)
  /\ (forall old, Sessions.load_session_by_id sid f = Some old ->
                  Sessions.load_session_by_id sid f' = Some old)
  /\ (forall sid', sid' <> sid ->
                   Sessions.load_session_by_id sid' f'
                   = Sessions.load_session_by_id sid' f).
Proof. apply create_then_lookup. Qed.

Lemma update_session_then_lookup_witness :
  Sessions.update_session "s1" reset_cursor "t1"
    (SessionList [{| created_at := "t0"; updated_at := "t0";
                     stored := digits_session |}])
  = (Some {| created_at := "t0"; updated_at := "t1";
             stored := update_session digits_session reset_cursor |},
     SessionList [{| created_at := "t0"; updated_at := "t1";
                     stored := update_session digits_session
                                 reset_cursor |}])
  /\ exists old,
       Sessions.load_session_by_id "s1"
         (SessionList [{| created_at := "t0"; updated_at := "t0";
                          stored := digits_session |}])
       = Some old.
Proof.
  assert (Hu : Sessions.update_session "s1" reset_cursor "t1"
                 (SessionList [{| created_at := "t0"; updated_at := "t0";
                                  stored := digits_session |}])
               = (Some {| created_at := "t0"; updated_at := "t1";
                          stored := update_session digits_session
                                      reset_cursor |},
                  SessionList [{| created_at := "t0"; updated_at := "t1";
                                  stored := update_session digits_session
                                              reset_cursor |}]))
    by reflexivity.
  split; [exact Hu|].
  destruct (update_session_then_lookup _ _ _ _ _ _ Hu) as (old & Ho & _).
  exists old. exact Ho.
Defined.

Lemma update_of_missing_session_witness :
  Sessions.load_session_by_id "s9"
    (SessionList [{| created_at := "t0"; updated_at := "t0";
                     stored := digits_session |}]) = None
  /\ Sessions.update_session "s9" reset_cursor "t1"
       (SessionList [{| created_at := "t0"; updated_at := "t0";
                        stored := digits_session |}])
     = (None,
        SessionList [{| created_at := "t0"; updated_at := "t0";
                        stored := digits_session |}]).
Proof.
  assert (Hn : Sessions.load_session_by_id "s9"
                 (SessionList [{| created_at := "t0"; updated_at := "t0";
                                  stored := digits_session |}]) = None)
    by reflexivity.
  split; [exact Hn|].
  exact (proj1 (proj1 (update_of_missing_session "s9" reset_cursor "t1" _))
               Hn).
Defined.

Lemma create_session_then_lookup_witness :
  Sessions.load_session_by_id "ab12" NoFile = None
  /\ Sessions.load_session_by_id "ab12"
       (snd (Sessions.create_session
               {| data_session_id := None;
                  data_strings := Some ["anna"];
                  data_dates := None;
                  data_numbers := None;
                  data_min_length := None;
                  data_max_length := None;
                  data_must_include_uppercase := None;
                  data_must_include_symbol := None |}
               "ab12" "t0" "t0" NoFile))
     = Some (fst (Sessions.create_session
                    {| data_session_id := None;
                       data_strings := Some ["anna"];
                       data_dates := None;
                       data_numbers := None;
                       data_min_length := None;
                       data_max_length := None;
                       data_must_include_uppercase := None;
                       data_must_include_symbol := None |}
                    "ab12" "t0" "t0" NoFile)).
Proof.
  assert (Hn : Sessions.load_session_by_id "ab12" NoFile = None)
    by reflexivity.
  split; [exact Hn|].
  exact (proj1 (proj2 (proj2 (proj2 (proj2 (proj2
           (create_session_then_lookup
              {| data_session_id := None;
                 data_strings := Some ["anna"];
                 data_dates := None;
                 data_numbers := None;
                 data_min_length := None;
                 data_max_length := None;
                 data_must_include_uppercase := None;
                 data_must_include_symbol := None |}
              "ab12" "t0" "t0" NoFile)))))) Hn).
Defined.

(** *** The rule file *)

Lemma lstrip_by_head p s :
  Py.lstrip_by p s = EmptyString
  \/ exists c r, Py.lstrip_by p s = String c r /\ p c = false.
Proof.
  induction s as [|c s IH]; [now left|]. cbn [Py.lstrip_by].
  destruct (p c) eqn:Ec; [exact IH|]. right. now exists c, s.
Qed.

Lemma rstrip_by_head p c s :
  Py.rstrip_by p (String c s) = EmptyString
  \/ exists r, Py.rstrip_by p (String c s) = String c r.
Proof.
  cbn [Py.rstrip_by]. destruct (Py.rstrip_by p s) as [|d r].
  - destruct (p c); [now left | right; now exists EmptyString].
  - right. now exists (String d r).
Qed.

Lemma rstrip_by_idem p s :
  Py.rstrip_by p (Py.rstrip_by p s) = Py.rstrip_by p s.
Proof.
  induction s as [|c s IH]; [reflexivity|]. cbn [Py.rstrip_by].
  destruct (Py.rstrip_by p s) as [|d r] eqn:Er.
  - destruct (p c) eqn:Ec; [reflexivity|].
    unfold Py.str1. cbn [Py.rstrip_by]. now rewrite Ec.
  - cbn [Py.rstrip_by]. cbn [Py.rstrip_by] in IH.
    destruct (Py.rstrip_by p r) as [|e r'] eqn:Er'.
    + destruct (p d); [discriminate|]. now rewrite IH.
    + now rewrite IH.
Qed.

Lemma lstrip_rstrip p t :
  (t = EmptyString \/ exists c r, t = String c r /\ p c = false) ->
  Py.lstrip_by p (Py.rstrip_by p t) = Py.rstrip_by p t.
Proof.
  intros [-> | (c & r & -> & Hc)]; [reflexivity|].
  destruct (rstrip_by_head p c r) as [-> | [r' ->]]; [reflexivity|].
  cbn [Py.lstrip_by]. now rewrite Hc.
Qed.

Lemma strip_idempotent s : Py.strip (Py.strip s) = Py.strip s.
Proof.
  unfold Py.strip.
  rewrite (lstrip_rstrip _ _ (lstrip_by_head Py.char_isspace s)).
  apply rstrip_by_idem.
Qed.

Lemma read_rules_stripped rules_txt rules :
  read_rules rules_txt = Some rules ->
  Forall (fun r => r <> EmptyString /\ Py.strip r = r) rules
  /\ read_rules (Some rules) = Some rules.
Proof.
  destruct rules_txt as [lines|]; [|discriminate].
  cbn [read_rules]. intros [= <-].
  assert (Hf : Forall (fun r => r <> EmptyString /\ Py.strip r = r)
                 (map Py.strip
                    (filter (fun line => Py.truthy (Py.strip line)) lines))).
  { apply Forall_forall. intros r Hr. apply in_map_iff in Hr.
    destruct Hr as (line & <- & Hl). apply filter_In in Hl.
    destruct Hl as [_ Ht]. split; [|apply strip_idempotent].
    intros E. rewrite E in Ht. discriminate. }
  split; [exact Hf|]. f_equal.
  induction Hf as [|r l [Hne Hs] _ IH]; [reflexivity|].
  cbn [filter]. rewrite Hs.
  destruct r; [contradiction|]. cbn [Py.truthy map]. rewrite Hs.
  f_equal. exact IH.
Qed.





(** *** The list of the sessions *)

Lemma ltb_leb s1 s2 : String.ltb s1 s2 = true -> String.leb s1 s2 = true.
Proof.
  unfold String.ltb, String.leb.
  destruct (String.compare s1 s2); intros E; reflexivity || exact E.
Qed.

Lemma not_ltb_leb s1 s2 :
  String.ltb s1 s2 = false -> String.leb s2 s1 = true.
Proof.
  unfold String.ltb, String.leb. rewrite (String.compare_antisym s2 s1).
  destruct (String.compare s1 s2); intros E; cbn [CompOpp];
    reflexivity || discriminate E.
Qed.

Lemma insert_by_update_permutation x l :
  Permutation (insert_by_update x l) (x :: l).
Proof.
  induction l as [|y l IH]; cbn [insert_by_update]; [reflexivity|].
  destruct (String.ltb (updated_at x) (updated_at y)); [|reflexivity].
  rewrite IH. apply perm_swap.
Qed.

Lemma insert_by_update_sorted x l :
  Sorted.Sorted not_updated_earlier l ->
  Sorted.Sorted not_updated_earlier (insert_by_update x l).
Proof.
  induction 1 as [|y l Hs IH Hd]; cbn [insert_by_update].
  - repeat constructor.
  - destruct (String.ltb (updated_at x) (updated_at y)) eqn:El.
    + constructor; [exact IH|].
      destruct l as [|z l]; cbn [insert_by_update].
      * constructor. now apply ltb_leb.
      * destruct (String.ltb (updated_at x) (updated_at z)).
        -- inversion Hd; subst. now constructor.
        -- constructor. now apply ltb_leb.
    + constructor; [now constructor|]. constructor. now apply not_ltb_leb.
Qed.

(** X25.  [list_sessions_print] changes nothing and returns the stored
    sessions, each once, those updated last first: no session of the
    list was updated earlier than the one that follows it. *)
Theorem list_sessions_print_latest_first {W : Type} (w : world W) :
  exists sessions_sorted,
    list_sessions_print w = (inl sessions_sorted, w)
    /\ Permutation sessions_sorted
                   (Sessions.load_sessions (sessions_json w))
    /\ Sorted.Sorted not_updated_earlier sessions_sorted.
Proof.
  eexists. split; [reflexivity|]. unfold sorted_by_update.
  induction (Sessions.load_sessions (sessions_json w)) as [|x l [IHp IHs]];
    cbn [fold_right].
  - split; constructor.
  - split.
    + rewrite insert_by_update_permutation. now constructor.
    + now apply insert_by_update_sorted.
Qed.

(** *** The flows of the command line *)

Lemma same_files_refl {W} (w : world W) : same_files w w.
Proof. repeat split. Qed.

Lemma same_files_trans {W} (w1 w2 w3 : world W) :
  same_files w1 w2 -> same_files w2 w3 -> same_files w1 w3.
Proof.
  intros (A1 & A2 & A3) (B1 & B2 & B3). repeat split; congruence.
Qed.

Section FlowFacts.

Context {W : Type} `{OutputFiles W}.
Variable OUTPUT_DIR : string.
Variable order : set_order.
Variable clock : nat -> string.
Variable uuid4_hex : nat -> string.

Lemma input_frame (w w' : world W) r :
  input w = (r, w') -> same_files w w' /\ calls w' = calls w.
Proof.
  unfold input. destruct (stdin w); intros [= <- <-]; repeat split.
Qed.

Lemma on_stdin_frame {A} loop (w w' : world W) (r : A + exception) :
  on_stdin loop w = (r, w') -> same_files w w' /\ calls w' = calls w.
Proof.
  unfold on_stdin. destruct (loop (stdin w)). intros [= <- <-].
  repeat split.
Qed.

Lemma prompt_frame default (w w' : world W) r :
  prompt default w = (r, w') -> same_files w w' /\ calls w' = calls w.
Proof.
  unfold prompt, and_then, ret. destruct (input w) as [[line|e] w1] eqn:E;
    intros [= <- <-]; exact (input_frame _ _ _ E).
Qed.

Lemma yes_no_prompt_frame default_no (w w' : world W) r :
  yes_no_prompt default_no w = (r, w') ->
  same_files w w' /\ calls w' = calls w.
Proof.
  unfold yes_no_prompt, and_then, ret.
  destruct (input w) as [[line|e] w1] eqn:E;
    intros [= <- <-]; exact (input_frame _ _ _ E).
Qed.

Lemma now_iso_frame (w w' : world W) r :
  now_iso clock w = (r, w') ->
  same_files w w' /\ calls w' = S (calls w) /\ stdin w' = stdin w
  /\ r = inl (clock (calls w)).
Proof. unfold now_iso, and_then, tick, ret. intros [= <- <-]. repeat split. Qed.

Lemma generate_session_id_frame (w w' : world W) r :
  generate_session_id uuid4_hex w = (r, w') ->
  same_files w w' /\ calls w' = S (calls w) /\ stdin w' = stdin w
  /\ r = inl (String.substring 0 12 (uuid4_hex (calls w))).
Proof.
  unfold generate_session_id, and_then, tick, ret. intros [= <- <-].
  repeat split.
Qed.

Lemma read_rules_file_frame (w w' : world W) r :
  read_rules_file w = (r, w') ->
  w' = w
  /\ match r with
     | inl rules => read_rules (rules_txt w) = Some rules
     | inr e => e = SystemExit 1 /\ rules_txt w = None
     end.
Proof.
  unfold read_rules_file.
  destruct (read_rules (rules_txt w)) as [rules|] eqn:E;
    intros [= <- <-]; split; try reflexivity.
  split; [reflexivity|]. now destruct (rules_txt w).
Qed.

Lemma generate_to_file_run_frame s rules k name (w w' : world W) r :
  generate_to_file_run OUTPUT_DIR order s rules k name w = (r, w') ->
  sessions_json w' = sessions_json w /\ rules_txt w' = rules_txt w
  /\ stdin w' = stdin w /\ calls w' = calls w
  /\ output_files w'
     = snd (generate_to_file OUTPUT_DIR order s rules k name
                             (output_files w))
  /\ match r with
     | inl (written, final_filename, preview, u) =>
         fst (generate_to_file OUTPUT_DIR order s rules k name
                               (output_files w))
         = Returned written final_filename preview u
     | inr e =>
         exists e', e = WalkRaised e'
                    /\ fst (generate_to_file OUTPUT_DIR order s rules k name
                                             (output_files w))
                       = Raised e'
     end.
Proof.
  unfold generate_to_file_run.
  destruct (generate_to_file OUTPUT_DIR order s rules k name
                             (output_files w)) as [[wr fn pv u|e] files'];
    intros [= <- <-]; cbn; repeat split; eauto.
Qed.

Lemma update_session_file_frame sid u (w w' : world W) r :
  update_session_file clock sid u w = (r, w') ->
  rules_txt w' = rules_txt w /\ output_files w' = output_files w
  /\ stdin w' = stdin w
  /\ match r with
     | inl found =>
         Sessions.update_session sid u (clock (calls w)) (sessions_json w)
         = (Some found, sessions_json w')
         /\ calls w' = S (calls w)
     | inr e =>
         e = FileNotFoundError /\ w' = w
         /\ Sessions.load_session_by_id sid (sessions_json w) = None
     end.
Proof.
  unfold update_session_file.
  destruct (Sessions.update_session sid u (clock (calls w))
              (sessions_json w)) as [[found|] f] eqn:E;
    intros [= <- <-]; cbn; repeat split; try reflexivity.
  apply (update_missing sid u (clock (calls w))).
  unfold Sessions.update_session in *.
  destruct (Sessions.update_first _ _ _ _) as [[fd l]|];
    [discriminate | reflexivity].
Qed.

Lemma create_session_file_frame data (w w' : world W) r :
  create_session_file clock uuid4_hex data w = (r, w') ->
  rules_txt w' = rules_txt w /\ output_files w' = output_files w
  /\ stdin w' = stdin w /\ calls w' = (3 + calls w)%nat
  /\ exists session,
      r = inl session
      /\ Sessions.create_session data
           (String.substring 0 12 (uuid4_hex (calls w)))
           (clock (S (calls w))) (clock (S (S (calls w))))
           (sessions_json w)
         = (session, sessions_json w').
Proof.
  unfold create_session_file, and_then, generate_session_id, now_iso, tick, ret.
  cbn [sessions_json calls stdin rules_txt output_files].
  intros [= <- <-]. cbn. repeat split. eexists. split; reflexivity.
Qed.

End FlowFacts.

Lemma sorted_by_update_nonempty x l : sorted_by_update (x :: l) <> [].
Proof.
  unfold sorted_by_update. cbn [fold_right].
  destruct (fold_right insert_by_update [] l) as [|y l'];
    cbn [insert_by_update]; [discriminate|].
  destruct (String.ltb _ _); discriminate.
Qed.

Lemma update_found sid u now f old :
  Sessions.load_session_by_id sid f = Some old ->
  exists f',
    Sessions.update_session sid u now f
    = (Some {| created_at := created_at old;
               updated_at := now;
               stored := update_session (stored old) u |}, f').
Proof.
  intros Ho.
  destruct (Sessions.update_session sid u now f) as [[found|] f'] eqn:Eu.
  - destruct (update_then_lookup _ _ _ _ _ _ Eu) as (old' & Ho' & -> & _).
    rewrite Ho in Ho'. injection Ho' as <-. now exists f'.
  - assert (En : Sessions.update_session sid u now f = (None, f)).
    { unfold Sessions.update_session in *.
      destruct (Sessions.update_first _ _ _ _) as [[fd l]|];
        [discriminate | reflexivity]. }
    apply update_missing in En. congruence.
Qed.

Section Flows.

Context {W : Type} `{OutputFiles W}.
Variable OUTPUT_DIR : string.
Variable order : set_order.
Variable clock : nat -> string.
Variable uuid4_hex : nat -> string.


End Flows.

(** A property of the outcome of two pieces of program run in sequence
    follows from its two cases: the first piece raises, or it returns
    and the second piece runs. *)
Lemma bind_cases {W A B} (m : program W A) (k : A -> program W B)
      (w : world W) (P : (B + exception) * world W -> Prop) :
  (forall e w1, m w = (inr e, w1) -> P (inr e, w1)) ->
  (forall a w1, m w = (inl a, w1) -> P (k a w1)) ->
  P (and_then m k w).
Proof.
  intros He Ha. unfold and_then. destruct (m w) as [[a|e] w1]; auto.
Qed.

Lemma bind_assoc {W A B C} (m : program W A) (f : A -> program W B)
      (g : B -> program W C) (w : world W) :
  and_then (and_then m f) g w = and_then m (fun x => and_then (f x) g) w.
Proof. unfold and_then. destruct (m w) as [[a|e] w1]; reflexivity. Qed.

Lemma bind_ret_l {W A B} (a : A) (k : A -> program W B) (w : world W) :
  and_then (ret a) k w = k a w.
Proof. reflexivity. Qed.

Ltac frame_of E :=
  first
    [ apply input_frame in E
    | apply on_stdin_frame in E
    | apply prompt_frame in E
    | apply yes_no_prompt_frame in E
    | apply now_iso_frame in E
    | apply generate_session_id_frame in E
    | apply read_rules_file_frame in E
    | apply update_session_file_frame in E
    | apply create_session_file_frame in E
    | apply generate_to_file_run_frame in E ].

Ltac split_facts :=
  repeat match goal with
    | F : _ /\ _ |- _ => destruct F
    | F : same_files _ _ |- _ => destruct F as (? & ? & ?)
    | F : exists _, _ |- _ => destruct F
    end.

(** One step through a flow: [fin] closes the case in which the step
    raises. *)
Ltac step fin :=
  repeat first [rewrite bind_assoc | rewrite bind_ret_l];
  apply bind_cases;
  [ intros ?e ?w ?E; frame_of E; split_facts; cbn [fst snd]; fin
  | intros ?a ?w ?E; frame_of E; split_facts ].

Ltac no_rules :=
  match goal with
  | F : read_rules (rules_txt ?x) = Some _ |- _ =>
      exfalso;
      replace (rules_txt x) with (@None (list string)) in F by congruence;
      discriminate F
  end.

Section FlowSafety.

Context {W : Type} `{OutputFiles W}.
Variable OUTPUT_DIR : string.
Variable order : set_order.
Variable clock : nat -> string.
Variable uuid4_hex : nat -> string.

Lemma cli_new_without_rules (w : world W) :
  rules_txt w = None ->
  output_files (snd (cli_new OUTPUT_DIR order clock uuid4_hex w))
  = output_files w
  /\ fst (cli_new OUTPUT_DIR order clock uuid4_hex w) <> inl tt.
Proof.
  intros Hno. unfold cli_new.
  do 10 step ltac:(split; [congruence | discriminate]).
  match goal with
  | |- context [if ?b then _ else _] => destruct b
  end.
  - step ltac:(split; [congruence | discriminate]).
    step ltac:(subst; split; [congruence | discriminate]).
    no_rules.
  - do 3 step ltac:(split; [congruence | discriminate]).
    step ltac:(subst; split; [congruence | discriminate]).
    no_rules.
Qed.

Lemma cli_resume_without_rules (w : world W) :
  rules_txt w = None ->
  output_files (snd (cli_resume OUTPUT_DIR order clock w)) = output_files w.
Proof.
  intros Hno. unfold cli_resume.
  apply bind_cases; [intros e w1 [= <- <-]; reflexivity|].
  intros sessions_sorted w1 [= <- <-].
  destruct (sorted_by_update _) as [|s0 l0]; [reflexivity|].
  step ltac:(congruence).
  match goal with
  | |- context [match ?c with Some _ => _ | None => _ end] =>
      destruct c as [session|]
  end; [|cbn; congruence].
  destruct (is_completed (stored session)).
  - step ltac:(congruence).
    match goal with
    | |- context [if ?b then _ else _] => destruct b
    end.
    + step ltac:(congruence). step ltac:(congruence). step ltac:(congruence).
      step ltac:(subst; congruence). no_rules.
    + rewrite !bind_ret_l. cbn. congruence.
  - step ltac:(congruence). step ltac:(congruence).
    step ltac:(subst; congruence). no_rules.
Qed.

(** X27.  Without [rules.txt] nothing is generated: [cli_new] and
    [cli_resume] leave the output directory as it is, whatever is
    typed, and [cli_new] does not end normally. *)
Theorem no_rule_file_no_output (w : world W) :
  rules_txt w = None ->
  output_files (snd (cli_new OUTPUT_DIR order clock uuid4_hex w))
  = output_files w
  /\ fst (cli_new OUTPUT_DIR order clock uuid4_hex w) <> inl tt
  /\ output_files (snd (cli_resume OUTPUT_DIR order clock w))
     = output_files w.
Proof.
  intros Hno.
  destruct (cli_new_without_rules w Hno) as [H1 H2].
  repeat split; try assumption. now apply cli_resume_without_rules.
Qed.

End FlowSafety.

Lemma touches_refl sid f : touches_at_most sid f f.
Proof. split; [reflexivity | intros; reflexivity]. Qed.

Lemma touches_trans sid f1 f2 f3 :
  touches_at_most sid f1 f2 -> touches_at_most sid f2 f3 ->
  touches_at_most sid f1 f3.
Proof.
  intros [A1 A2] [B1 B2]. split; [congruence|].
  intros sid' Hne. rewrite B2, A2 by exact Hne. reflexivity.
Qed.

Lemma update_touches sid u now f found f' :
  Sessions.update_session sid u now f = (Some found, f') ->
  touches_at_most sid f f' /\ session_id (stored found) = sid.
Proof.
  intros Eu.
  destruct (update_then_lookup _ _ _ _ _ _ Eu)
    as (old & Ho & -> & _ & Hothers & Hids).
  split; [split; assumption|].
  cbn [stored]. rewrite update_session_keeps_id.
  unfold Sessions.load_session_by_id in Ho. apply find_some in Ho.
  destruct Ho as [_ Ho]. now apply String.eqb_eq in Ho.
Qed.

Section ResumeSafety.

Context {W : Type} `{OutputFiles W}.
Variable OUTPUT_DIR : string.
Variable order : set_order.
Variable clock : nat -> string.

(** X28.  Whatever is typed, [cli_resume] neither adds nor removes a
    stored session and leaves the rule file alone: the stored sessions
    keep their number, order and identifiers, and there is one
    identifier, that of the session chosen, such that every other
    identifier is looked up afterwards as before. *)
Theorem cli_resume_touches_one_session (w : world W) :
  rules_txt (snd (cli_resume OUTPUT_DIR order clock w)) = rules_txt w
  /\ exists sid,
      touches_at_most sid (sessions_json w)
        (sessions_json (snd (cli_resume OUTPUT_DIR order clock w))).
Proof.
  unfold cli_resume.
  apply bind_cases; [intros e w1 E; discriminate E|].
  intros sessions_sorted w1 [= <- <-].
  destruct (sorted_by_update _) as [|s0 l0];
    [split; [reflexivity | exists EmptyString; apply touches_refl]|].
  apply bind_cases.
  { intros e w1 E. apply on_stdin_frame in E.
    destruct E as [(F1 & F2 & F3) F4]. cbn [snd].
    split; [exact F2 | exists EmptyString; rewrite F1; apply touches_refl]. }
  intros [session|] w1 E; apply on_stdin_frame in E;
    destruct E as [(F1 & F2 & F3) F4].
  2: { cbn [snd ret]. split; [exact F2|].
       exists EmptyString. rewrite F1. apply touches_refl. }
  rewrite <- F1, <- F2.
  assert (Hgoal :
    forall X : (unit + exception) * world W,
      (rules_txt (snd X) = rules_txt w1
       /\ touches_at_most (session_id (stored session)) (sessions_json w1)
            (sessions_json (snd X))) ->
      rules_txt (snd X) = rules_txt w1
      /\ exists sid,
          touches_at_most sid (sessions_json w1) (sessions_json (snd X))).
  { intros X [A B]. split; [exact A | eauto]. }
  apply Hgoal. clear Hgoal F1 F2 F3 F4 w s0 l0.
  set (sid := session_id (stored session)).
  assert (Hfin : forall (w2 : world W),
             sessions_json w2 = sessions_json w1 ->
             rules_txt w2 = rules_txt w1 ->
             rules_txt w2 = rules_txt w1
             /\ touches_at_most sid (sessions_json w1) (sessions_json w2)).
  { intros w2 E1 E2. split; [exact E2|]. rewrite E1. apply touches_refl. }
  assert (Hfin' : forall (w2 : world W),
             touches_at_most sid (sessions_json w1) (sessions_json w2) ->
             rules_txt w2 = rules_txt w1 ->
             rules_txt w2 = rules_txt w1
             /\ touches_at_most sid (sessions_json w1) (sessions_json w2))
    by (intros; split; assumption).
  destruct (is_completed (stored session)).
  - step ltac:(apply Hfin; congruence).
    match goal with
    | |- context [if ?b then _ else _] => destruct b
    end.
    2: { rewrite !bind_ret_l. cbn. apply Hfin; congruence. }
    step ltac:(subst; apply Hfin; congruence).
    match goal with
    | F : Sessions.update_session _ _ _ _ = _ |- _ =>
        apply update_touches in F; destruct F as [Ht Hid]
    end.
    rewrite !bind_ret_l. rewrite Hid.
    assert (Ht1 : touches_at_most sid (sessions_json w1) (sessions_json w0))
      by (replace (sessions_json w1) with (sessions_json w) by congruence;
          exact Ht).
    step ltac:(apply Hfin'; [congruence | congruence]).
    step ltac:(apply Hfin'; [congruence | congruence]).
    step ltac:(subst; apply Hfin'; [congruence | congruence]).
    step ltac:(apply Hfin'; [congruence | congruence]).
    destruct a3 as [[[written final_name] preview] u].
    step ltac:(subst; apply Hfin'; [congruence | congruence]).
    cbn [snd ret].
    match goal with
    | F : Sessions.update_session _ _ _ _ = _ |- _ =>
        apply update_touches in F; destruct F as [Ht2 _]
    end.
    split; [congruence|].
    eapply touches_trans; [exact Ht1|].
    match goal with
    | F : touches_at_most _ (sessions_json ?x) (sessions_json ?y) |- 
        touches_at_most _ (sessions_json ?z) (sessions_json ?y) =>
        replace (sessions_json z) with (sessions_json x) by congruence;
        exact F
    end.
  - rewrite !bind_ret_l.
    step ltac:(apply Hfin; congruence).
    step ltac:(apply Hfin; congruence).
    step ltac:(subst; apply Hfin; congruence).
    step ltac:(apply Hfin; congruence).
    destruct a2 as [[[written final_name] preview] u].
    step ltac:(subst; apply Hfin; congruence).
    cbn [snd ret].
    match goal with
    | F : Sessions.update_session _ _ _ _ = _ |- _ =>
        apply update_touches in F; destruct F as [Ht2 _]
    end.
    split; [congruence|].
    match goal with
    | F : touches_at_most _ (sessions_json ?x) (sessions_json ?y) |- 
        touches_at_most _ (sessions_json ?z) (sessions_json ?y) =>
        replace (sessions_json z) with (sessions_json x) by congruence;
        exact F
    end.
Qed.

End ResumeSafety.

Lemma ask_strings_nonempty lines strings rest :
  ask_strings lines = (inl strings, rest) ->
  strings <> [] /\ Forall (fun x => x <> EmptyString) strings.
Proof.
  induction lines as [|line lines IH]; cbn [ask_strings]; [discriminate|].
  destruct (filter Py.truthy (split_whitespace (Py.strip line)))
    as [|x l] eqn:Ef; [exact IH|].
  intros [= <- <-]. split; [discriminate|].
  rewrite <- Ef. apply Forall_forall. intros y Hy.
  apply filter_In in Hy. destruct Hy as [_ Hy]. now destruct y.
Qed.

Lemma update_first_last sid u now old x :
  Forall (fun s => session_id (stored s) <> sid) old ->
  session_id (stored x) = sid ->
  Sessions.update_first sid u now (old ++ [x])
  = Some ({| created_at := created_at x;
             updated_at := now;
             stored := update_session (stored x) u |},
          (old ++ [{| created_at := created_at x;
                      updated_at := now;
                      stored := update_session (stored x) u |}])%list).
Proof.
  intros Hold Hx. induction Hold as [|s old Hs _ IH];
    cbn [app Sessions.update_first].
  - now rewrite Hx, String.eqb_refl.
  - destruct (String.eqb_spec (session_id (stored s)) sid); [contradiction|].
    now rewrite IH.
Qed.

Section NewSafety.

Context {W : Type} `{OutputFiles W}.
Variable OUTPUT_DIR : string.
Variable order : set_order.
Variable clock : nat -> string.
Variable uuid4_hex : nat -> string.

(** X29.  Whatever is typed, [cli_new] leaves the rule file alone and
    changes no stored session: when the identifier drawn is not that of
    a stored session, [sessions.json] is afterwards as before, or its
    list of sessions is the former one followed by one new session,
    which has at least one string and no empty string. *)
Theorem cli_new_adds_at_most_one_session (w : world W) :
  Sessions.load_session_by_id
    (String.substring 0 12 (uuid4_hex (calls w))) (sessions_json w) = None ->
  let w' := snd (cli_new OUTPUT_DIR order clock uuid4_hex w) in
  rules_txt w' = rules_txt w
  /\ (sessions_json w' = sessions_json w
      \/ exists added,
          Sessions.load_sessions (sessions_json w')
          = (Sessions.load_sessions (sessions_json w) ++ [added])%list
          /\ strings (stored added) <> []
          /\ Forall (fun x => x <> EmptyString) (strings (stored added))).
Proof.
  intros Hfresh. cbv zeta. unfold cli_new.
  apply lookup_none_forall in Hfresh.
  apply bind_cases.
  { intros e w0 E. apply on_stdin_frame in E.
    destruct E as [(F1 & F2 & F3) F4]. cbn [snd]. split; [exact F2|].
    now left. }
  intros strs w0 E.
  assert (Hs : strs <> [] /\ Forall (fun x => x <> EmptyString) strs).
  { unfold on_stdin in E.
    destruct (ask_strings (stdin w)) as [r rest] eqn:Ea.
    injection E as -> _. exact (ask_strings_nonempty _ _ _ Ea). }
  apply on_stdin_frame in E. destruct E as [(F1 & F2 & F3) F4].
  do 9 step ltac:(split; [congruence | left; congruence]).
  match goal with
  | |- context [if ?b then _ else _] => destruct b
  end.
  - step ltac:(discriminate).
    match goal with
    | F : inl _ = inl _ |- _ => injection F as ->
    end.
    match goal with
    | F : Sessions.create_session _ _ _ _ (sessions_json ?wa)
          = (_, sessions_json _) |- _ =>
        assert (Hcalls : calls wa = calls w) by congruence;
        assert (Hold : Sessions.load_sessions (sessions_json wa)
                       = Sessions.load_sessions (sessions_json w))
          by congruence;
        unfold Sessions.create_session in F;
        cbn [get_or data_session_id data_strings data_dates data_numbers
             data_min_length data_max_length data_must_include_uppercase
             data_must_include_symbol] in F;
        injection F as Ex Ef;
        rewrite Ex, Hold in Ef
    end.
    assert (Hid : session_id (stored x)
                  = String.substring 0 12 (uuid4_hex (calls w)))
      by (rewrite <- Ex; cbn; now rewrite Hcalls).
    assert (Hstr : strings (stored x) = strs)
      by (rewrite <- Ex; reflexivity).
    clear Ex Hold Hcalls.
    assert (Hright :
      forall (wf : world W) added,
        sessions_json wf
        = Sessions.save_sessions
            (Sessions.load_sessions (sessions_json w) ++ [added])%list ->
        strings (stored added) = strs ->
        rules_txt wf = rules_txt w ->
        rules_txt wf = rules_txt w
        /\ (sessions_json wf = sessions_json w
            \/ exists added,
                Sessions.load_sessions (sessions_json wf)
                = (Sessions.load_sessions (sessions_json w) ++ [added])%list
                /\ strings (stored added) <> []
                /\ Forall (fun x => x <> EmptyString)
                          (strings (stored added)))).
    { intros wf added E2 Es E3. split; [exact E3|]. right. exists added.
      rewrite E2, Es. cbn. repeat split; assumption. }
    step ltac:(subst; apply (Hright _ x); congruence).
    step ltac:(apply (Hright _ x); congruence).
    match goal with
    | r : (Z * string * list string * updates)%type |- _ =>
        destruct r as [[[written final_name] preview] u]
    end.
    destruct (negb (Py.startswith (session_id (stored x)) "ephemeral_")).
    2: { cbn [snd ret]. apply (Hright _ x); congruence. }
    step ltac:(subst; apply (Hright _ x); congruence).
    cbn [snd ret].
    match goal with
    | F : Sessions.update_session _ _ _ (sessions_json ?wc) = _ |- _ =>
        rewrite Hid in F;
        unfold Sessions.update_session in F;
        replace (sessions_json wc)
          with (Sessions.save_sessions
                  (Sessions.load_sessions (sessions_json w) ++ [x])%list)
          in F by congruence;
        cbn [Sessions.load_sessions Sessions.save_sessions] in F;
        rewrite (update_first_last _ u _ _ x Hfresh Hid) in F;
        injection F as Ea Ef'
    end.
    eapply Hright; [symmetry; exact Ef' | exact Hstr | congruence].
  - do 3 step ltac:(split; [congruence | left; congruence]).
    match goal with
    | F : inl _ = inl _ |- _ => injection F as ->
    end.
    rewrite !bind_ret_l.
    step ltac:(subst; split; [congruence | left; congruence]).
    step ltac:(split; [congruence | left; congruence]).
    match goal with
    | r : (Z * string * list string * updates)%type |- _ =>
        destruct r as [[[written final_name] preview] u]
    end.
    cbn [create_session session_id].
    unfold Py.startswith. rewrite prefix_app. cbn [negb snd ret].
    split; [congruence | left; congruence].
Qed.

End NewSafety.

(** *** Answers to a question *)

Lemma char_isspace_upper c :
  Py.char_isspace (Py.char_upper c) = Py.char_isspace c.
Proof. each_ascii c; reflexivity. Qed.

Lemma lstrip_upper s :
  Py.lstrip_by Py.char_isspace (Py.upper s)
  = Py.upper (Py.lstrip_by Py.char_isspace s).
Proof.
  induction s as [|c s IH]; [reflexivity|].
  cbn [Py.upper Py.map_str Py.lstrip_by]. rewrite char_isspace_upper.
  destruct (Py.char_isspace c); [exact IH | reflexivity].
Qed.

Lemma rstrip_upper s :
  Py.rstrip_by Py.char_isspace (Py.upper s)
  = Py.upper (Py.rstrip_by Py.char_isspace s).
Proof.
  induction s as [|c s IH]; [reflexivity|].
  cbn [Py.upper Py.map_str Py.rstrip_by]. fold (Py.upper s). rewrite IH.
  destruct (Py.rstrip_by Py.char_isspace s) as [|d r].
  - cbn [Py.upper Py.map_str]. rewrite char_isspace_upper.
    now destruct (Py.char_isspace c).
  - reflexivity.
Qed.

Lemma strip_upper s : Py.strip (Py.upper s) = Py.upper (Py.strip s).
Proof. unfold Py.strip. now rewrite lstrip_upper, rstrip_upper. Qed.




Lemma no_rule_file_witness :
  rules_txt sample_world_without_rules = None
  /\ output_files
       (snd (cli_new "out" insertion_order sample_clock sample_uuid4_hex
                     sample_world_without_rules))
     = output_files sample_world_without_rules.
Proof.
  assert (Hn : rules_txt sample_world_without_rules = None) by reflexivity.
  split; [exact Hn|].
  exact (proj1 (no_rule_file_no_output "out" insertion_order sample_clock
                  sample_uuid4_hex sample_world_without_rules Hn)).
Defined.

Lemma cli_new_witness :
  Sessions.load_session_by_id
    (String.substring 0 12 (sample_uuid4_hex (calls sample_world_without_rules)))
    (sessions_json sample_world_without_rules) = None
  /\ rules_txt
       (snd (cli_new "out" insertion_order sample_clock sample_uuid4_hex
                     sample_world_without_rules))
     = rules_txt sample_world_without_rules.
Proof.
  assert (Hf : Sessions.load_session_by_id
                 (String.substring 0 12
                    (sample_uuid4_hex (calls sample_world_without_rules)))
                 (sessions_json sample_world_without_rules) = None)
    by reflexivity.
  split; [exact Hf|].
  exact (proj1 (cli_new_adds_at_most_one_session "out" insertion_order
                  sample_clock sample_uuid4_hex sample_world_without_rules
                  Hf)).
Defined.
